(** * Paintress Obsidian Sync: the sync engine, embedded in Rocq

    Definitions, in the order of the file:
    - [Fs]               [FileMetadata], thrown errors, the [FileSystem] interface
    - [Planner]          sync-controller.ts, [createSyncAction]
    - [JsString]         the string methods the sources call
    - [Settings]         the settings object
    - [ConflictResolver] conflict-resolver.ts
    - [SyncController]   sync-controller.ts, [applySyncAction] and [sync]
    - [LocalFileSystem]  fs.local.ts, [update] and [remove], over a vault model
    - [MemStore]         an in-memory [FileSystem]
    - [PlanSpec], [ClassifySpec], [Trace], [Watermark], [Effects]: the
      vocabulary of the theorems
    - [LocalFiles]       fs.local.ts, [getFileContent], [walk] and [getFiles]
    - [ListingSpec], [MoreSpec]: more vocabulary

    Then the theorems: the planner, the conflict resolver, the applier and the
    watermark, the local file system, the idempotence of a pass, and further
    properties of each of these.

    Timestamps are integer epoch milliseconds ([Z]); paths are strings compared
    with [===] ([String.eqb]); arrays are lists; the planner's [Map] keeps its
    insertion order and is an association list. [minimatch], which can throw,
    [reconcile] and the crypto helper are parameters. *)

From Stdlib Require Import ZArith String Ascii List Bool Lia.
From stdpp Require Import base option list strings gmap fin_maps.
Import ListNotations.

Local Open Scope string_scope.
Local Open Scope list_scope.
Local Open Scope Z_scope.

(** ** fs.ts: file metadata, exceptions and the store interface *)

Module Fs.

(** [FileMetadata] (declared in fs.ts), with the fields the sources read. *)
Record FileMetadata := mkFile {
  path : string;
  size : Z;
  createdAt : Z;
  updatedAt : Z;
  deletedAt : Z;
  deleted : bool
}.

(** A thrown JS [Error] with its message. *)
Inductive Exn := Error (message : string).

Inductive Result (A : Type) :=
| Ok (value : A)
| Throw (e : Exn).
Arguments Ok {A} value.
Arguments Throw {A} e.

(** [ArrayBuffer] contents. *)
Definition Buffer := list Byte.byte.

(** The abstract class [FileSystem]: every method is a call on a store of
    state [S] that returns or throws, and leaves a new store state. *)
Class FileSystem (S : Type) := {
  getFiles : S -> Result (list FileMetadata) * S;
  getFileContent : string -> S -> Result Buffer * S;
  update : string -> Buffer -> Z -> Z -> S -> Result unit * S;
  remove : string -> Z -> Z -> S -> Result unit * S;
  prune : string -> S -> Result unit * S
}.

End Fs.
Export Fs.

(** ** sync-controller.ts: the planner *)

Module Planner.

Inductive ActionKind := Prune | Remove | Conflict | Push | Pull.

Record SyncAction := mkAction {
  hostFile : option FileMetadata;
  remoteFile : option FileMetadata;
  action : ActionKind
}.

Definition createAction (hostFile remoteFile : option FileMetadata)
    (action : ActionKind) : SyncAction :=
  {| hostFile := hostFile; remoteFile := remoteFile; action := action |}.

(** [files.find((file) => file.path === path)] *)
Definition getFile (files : list FileMetadata) (p : string) : option FileMetadata :=
  List.find (fun file => String.eqb (path file) p) files.

(** The [Map<string, SyncAction>] of [createSyncAction], in insertion order. *)
Definition ObjMap := list (string * SyncAction).

Definition has (objMap : ObjMap) (key : string) : bool :=
  existsb (fun kv => String.eqb (fst kv) key) objMap.

(** The local closure [set]: insert only when the key is absent. *)
Definition set (objMap : ObjMap) (key : string) (value : SyncAction) : ObjMap :=
  if has objMap key then objMap else objMap ++ [(key, value)].

(** Body of the loop over [remoteDeletedFiles]. *)
Definition applyRemoteDeletion (hostFiles : list FileMetadata)
    (objMap : ObjMap) (remoteDeletedFile : FileMetadata) : ObjMap :=
  match getFile hostFiles (path remoteDeletedFile) with
  | Some hostFile =>
      if deleted hostFile then
        set objMap (path hostFile)
          (createAction (Some hostFile) (Some remoteDeletedFile) Prune)
      else if createdAt hostFile <? deletedAt remoteDeletedFile then
        set objMap (path hostFile)
          (createAction (Some hostFile) (Some remoteDeletedFile) Remove)
      else
        set objMap (path hostFile)
          (createAction (Some hostFile) (Some remoteDeletedFile) Push)
  | None => objMap
  end.

(** Body of the loop over [hostDeletedFiles]. *)
Definition applyHostDeletion (remoteFiles : list FileMetadata)
    (objMap : ObjMap) (hostDeletedFile : FileMetadata) : ObjMap :=
  match getFile remoteFiles (path hostDeletedFile) with
  | Some remoteFile =>
      if deleted remoteFile then objMap
      else if createdAt remoteFile <? deletedAt hostDeletedFile then
        set objMap (path remoteFile)
          (createAction (Some hostDeletedFile) (Some remoteFile) Remove)
      else
        set objMap (path hostDeletedFile)
          (createAction (Some hostDeletedFile) (Some remoteFile) Pull)
  | None =>
      set objMap (path hostDeletedFile)
        (createAction (Some hostDeletedFile) None Prune)
  end.

(** Body of the loop over [hostModifiedFiles]. *)
Definition applyHostModification (last_synced_at : Z)
    (remoteFiles : list FileMetadata)
    (objMap : ObjMap) (hostModifiedFile : FileMetadata) : ObjMap :=
  match getFile remoteFiles (path hostModifiedFile) with
  | None =>
      set objMap (path hostModifiedFile)
        (createAction (Some hostModifiedFile) None Push)
  | Some remoteFile =>
      if updatedAt remoteFile <? updatedAt hostModifiedFile then
        set objMap (path hostModifiedFile)
          (createAction (Some hostModifiedFile) (Some remoteFile) Push)
      else if updatedAt remoteFile >? last_synced_at then
        set objMap (path hostModifiedFile)
          (createAction (Some hostModifiedFile) (Some remoteFile) Conflict)
      else objMap
  end.

(** Body of the loop over [remoteModifiedFiles]. *)
Definition applyRemoteModification (last_synced_at : Z)
    (hostFiles : list FileMetadata)
    (objMap : ObjMap) (remoteModifiedFile : FileMetadata) : ObjMap :=
  match getFile hostFiles (path remoteModifiedFile) with
  | None =>
      set objMap (path remoteModifiedFile)
        (createAction None (Some remoteModifiedFile) Pull)
  | Some hostFile =>
      if updatedAt hostFile <? updatedAt remoteModifiedFile then
        set objMap (path remoteModifiedFile)
          (createAction (Some hostFile) (Some remoteModifiedFile) Pull)
      else if updatedAt hostFile >? last_synced_at then
        set objMap (path remoteModifiedFile)
          (createAction (Some hostFile) (Some remoteModifiedFile) Conflict)
      else objMap
  end.

(** [createSyncAction], up to [objMap] before [Array.from(objMap.values())].
    [last_synced_at] is the field [this.last_synced_at]. *)
Definition createSyncMap (last_synced_at : Z)
    (hostFiles remoteFiles : list FileMetadata) : ObjMap :=
  let objMap : ObjMap := [] in
  let remoteDeletedFiles := List.filter (fun file => deleted file) remoteFiles in
  let objMap := fold_left (applyRemoteDeletion hostFiles) remoteDeletedFiles objMap in
  let hostDeletedFiles := List.filter (fun file => deleted file) hostFiles in
  let objMap := fold_left (applyHostDeletion remoteFiles) hostDeletedFiles objMap in
  let hostModifiedFiles := List.filter (fun file => negb (deleted file)) hostFiles in
  let objMap :=
    fold_left (applyHostModification last_synced_at remoteFiles) hostModifiedFiles objMap in
  let remoteModifiedFiles := List.filter (fun file => negb (deleted file)) remoteFiles in
  let objMap :=
    fold_left (applyRemoteModification last_synced_at hostFiles) remoteModifiedFiles objMap in
  objMap.

Definition createSyncAction (last_synced_at : Z)
    (hostFiles remoteFiles : list FileMetadata) : list SyncAction :=
  map snd (createSyncMap last_synced_at hostFiles remoteFiles).

(** The action recorded under a key of the map (keys are never repeated). *)
Definition actionAt (objMap : ObjMap) (key : string) : option SyncAction :=
  snd <$> List.find (fun kv => String.eqb (fst kv) key) objMap.

(** An action is about path [p] when one of its two records has that path. *)
Definition concerns (p : string) (a : SyncAction) : Prop :=
  (exists h, hostFile a = Some h /\ path h = p) \/
  (exists r, remoteFile a = Some r /\ path r = p).

End Planner.
Export Planner.

(** ** String helpers of the JavaScript runtime

    A string holds the UTF-8 bytes of the JavaScript string. The separators
    the sources split at and search for are ASCII characters, which occur in
    UTF-8 only as themselves. *)

Module JsString.

(** [s.split(sep)] for a one-character separator: never the empty list. *)
Fixpoint split (sep : ascii) (s : string) : list string :=
  match s with
  | EmptyString => [EmptyString]
  | String c rest =>
      if Ascii.eqb c sep then EmptyString :: split sep rest
      else match split sep rest with
           | hd :: tl => String c hd :: tl
           | [] => [String c EmptyString]
           end
  end.

Definition byteIs (c : ascii) (n : nat) : bool := (nat_of_ascii c =? n)%nat.

(** The one-byte members of ECMAScript's WhiteSpace and LineTerminator:
    U+0009 to U+000D and U+0020. *)
Definition isWhiteSpace1 (c : ascii) : bool :=
  let n := nat_of_ascii c in
  ((9 <=? n) && (n <=? 13))%nat || (n =? 32)%nat.

(** The two-byte one: U+00A0 (C2 A0). *)
Definition isWhiteSpace2 (c1 c2 : ascii) : bool :=
  byteIs c1 194 && byteIs c2 160.

(** The three-byte ones: U+1680 (E1 9A 80), U+2000 to U+200A (E2 80 80 to
    E2 80 8A), U+2028 and U+2029 (E2 80 A8, E2 80 A9), U+202F (E2 80 AF),
    U+205F (E2 81 9F), U+3000 (E3 80 80) and U+FEFF (EF BB BF). *)
Definition isWhiteSpace3 (c1 c2 c3 : ascii) : bool :=
  let n3 := nat_of_ascii c3 in
  (byteIs c1 225 && byteIs c2 154 && byteIs c3 128)
  || (byteIs c1 226 && byteIs c2 128 &&
      (((128 <=? n3) && (n3 <=? 138))%nat || byteIs c3 168 || byteIs c3 169
       || byteIs c3 175))
  || (byteIs c1 226 && byteIs c2 129 && byteIs c3 159)
  || (byteIs c1 227 && byteIs c2 128 && byteIs c3 128)
  || (byteIs c1 239 && byteIs c2 187 && byteIs c3 191).

(** [s.trimStart()]: drops the white space and line terminators in front. *)
Fixpoint trimStart (s : string) : string :=
  match s with
  | EmptyString => EmptyString
  | String c1 rest1 =>
      if isWhiteSpace1 c1 then trimStart rest1
      else match rest1 with
           | EmptyString => s
           | String c2 rest2 =>
               if isWhiteSpace2 c1 c2 then trimStart rest2
               else match rest2 with
                    | EmptyString => s
                    | String c3 rest3 =>
                        if isWhiteSpace3 c1 c2 c3 then trimStart rest3 else s
                    end
           end
  end.

(** [s.trimEnd()]: a suffix that is white space throughout is dropped. *)
Fixpoint trimEnd (s : string) : string :=
  match s with
  | EmptyString => EmptyString
  | String c rest =>
      match trimStart s with
      | EmptyString => EmptyString
      | _ => String c (trimEnd rest)
      end
  end.

(** [s.trim()] *)
Definition trim (s : string) : string := trimEnd (trimStart s).

(** [arr.find(pred)] with a predicate that can throw: the elements are
    tried in order, and an exception ends the search. *)
Fixpoint findThrowing {A} (pred : A -> Result bool) (arr : list A)
    : Result (option A) :=
  match arr with
  | [] => Ok None
  | x :: rest =>
      match pred x with
      | Throw e => Throw e
      | Ok true => Ok (Some x)
      | Ok false => findThrowing pred rest
      end
  end.

(** [arr.pop()] as a value: the last element, [undefined] on the empty array. *)
Definition pop (arr : list string) : option string := List.last (map Some arr) None.

(** [arr.includes(x)] *)
Definition includes (arr : list string) (x : string) : bool :=
  existsb (fun y => String.eqb y x) arr.

(** [s.lastIndexOf(c)], [-1] when [c] does not occur. *)
Fixpoint lastIndexOf (c : ascii) (s : string) : Z :=
  match s with
  | EmptyString => -1
  | String d rest =>
      let i := lastIndexOf c rest in
      if 0 <=? i then i + 1
      else if Ascii.eqb d c then 0 else -1
  end.

(** [s.substring(0, stop)]: a negative [stop] counts as 0. *)
Definition substring0 (stop : Z) (s : string) : string :=
  String.substring 0 (Z.to_nat stop) s.

(** Truthiness of a string: non-empty. *)
Definition truthy (s : string) : bool :=
  match s with EmptyString => false | _ => true end.

End JsString.

(** ** settings-controller.ts: the settings object the core reads *)

Module Settings.

Inductive ConflictResolutionStrategy :=
| resolve | ignore | latest | oldest | always_pull | always_push.

Record ResolutionStrategy := mkRule {
  glob : string;
  strategy : ConflictResolutionStrategy
}.

(** [settings.settings], with the fields the sources read; [last_synced_at]
    is [None] until first written. *)
Record Settings := mkSettings {
  last_synced_at : option Z;
  exclude_globs : string;
  resolution_strategies : list ResolutionStrategy;
  fallback_conflict_resolution_strategy : ConflictResolutionStrategy;
  sync_internal_files : bool
}.

(** Modelled from the spec: [updateSettings({ last_synced_at: now })] of the
    settings controller, which is not among the sources; it advances the
    watermark and leaves the other settings as they are. *)
Definition updateSettings_last_synced_at (now : Z) (s : Settings) : Settings :=
  {| last_synced_at := Some now;
     exclude_globs := exclude_globs s;
     resolution_strategies := resolution_strategies s;
     fallback_conflict_resolution_strategy := fallback_conflict_resolution_strategy s;
     sync_internal_files := sync_internal_files s |}.

End Settings.
Export Settings.

(** ** External libraries: minimatch, reconcile-text, and the crypto helper *)

(** [minimatch(path, pattern, { dot })]: tells whether the path matches the
    pattern, or throws (as the library does on a pattern of more than 65536
    characters). *)
Class Minimatch := minimatch : string -> string -> bool -> Result bool.

(** [reconcile(original, left, right).text] *)
Class Reconcile := reconcile : string -> string -> string -> string.

(** The [Crypto] collaborator; each call is awaited and may throw. *)
Class Crypto := {
  decrypt : Buffer -> Result Buffer;
  encrypt : Buffer -> Result Buffer;
  bufferToString : Buffer -> Result string;
  stringToBuffer : string -> Result Buffer
}.

(** ** conflict-resolver.ts *)

Module ConflictResolver.
Import JsString.

Section WithMinimatch.
Context {matcher : Minimatch} {merger : Reconcile}.

(** The [flatMap] of [getResolutionStrategy]: one rule per trimmed glob. *)
Definition flattenRules (rules : list ResolutionStrategy) : list ResolutionStrategy :=
  flat_map (fun obj =>
    let globs := map trim (split "," (glob obj)) in
    map (fun g => {| glob := g; strategy := strategy obj |}) globs) rules.

Definition getExtension (file : FileMetadata) : option string :=
  pop (split "." (path file)).

Definition textExtensions : list string :=
  ["md"; "txt"; "json"; "yaml"; "yml"; "toml"; "ini"; "conf"; "cfg";
   "config"; "properties"; "env"; "ini"; "conf"; "cfg"; "config";
   "properties"; "env"].

Definition isTextBasedFile (file : FileMetadata) : bool :=
  includes textExtensions (default "" (getExtension file)).

(** The search of the rules comes first: an exception of [minimatch]
    leaves [getResolutionStrategy] before the text test is made. *)
Definition getResolutionStrategy (settings : Settings)
    (hostFile remoteFile : FileMetadata) : Result ConflictResolutionStrategy :=
  match findThrowing (fun s => minimatch (path hostFile) (glob s) false)
          (flattenRules (resolution_strategies settings)) with
  | Throw e => Throw e
  | Ok matchedStrategy =>
      let defaultStrategy :=
        match matchedStrategy with
        | Some s => strategy s
        | None => fallback_conflict_resolution_strategy settings
        end in
      Ok (if isTextBasedFile hostFile then Settings.resolve else defaultStrategy)
  end.

Definition resolve (hostFile remoteFile : FileMetadata)
    (hostFileContent remoteFileContent : string) : string :=
  let oldFile :=
    if updatedAt hostFile <? updatedAt remoteFile
    then hostFileContent else remoteFileContent in
  let newFile :=
    if updatedAt hostFile <? updatedAt remoteFile
    then remoteFileContent else hostFileContent in
  reconcile oldFile oldFile newFile.

End WithMinimatch.

End ConflictResolver.

(** ** sync-controller.ts: the applier and [sync] *)

Module SyncController.
Import JsString.

(** A call on a store, as a mock store would record it. *)
Inductive Call :=
| CallGetFiles
| CallGetFileContent (path : string)
| CallUpdate (path : string) (content : Buffer) (previousUpdatedAt newUpdatedAt : Z)
| CallRemove (path : string) (previousUpdatedAt now : Z)
| CallPrune (path : string).

Inductive Event :=
| OnHost (c : Call)
| OnRemote (c : Call)
| SettingsUpdated (last_synced_at : Z).

Section Controller.
Context {HS RS : Type} {hostFs : FileSystem HS} {remoteFs : FileSystem RS}.
Context {matcher : Minimatch} {merger : Reconcile} {crypto : Crypto}.

(** What a [SyncController] can reach: the two stores, the settings object,
    its own field [last_synced_at], and the log of the calls made so far. *)
Record World := mkWorld {
  host : HS;
  remote : RS;
  settings : Settings;
  this_last_synced_at : Z;
  calls : list Event
}.

(** Async code: a computation runs on a world, returns or throws, and
    leaves the world as it is at that point. *)
Definition M (A : Type) := World -> Result A * World.

Definition ret {A} (x : A) : M A := fun w => (Ok x, w).

Definition bind {A B} (m : M A) (k : A -> M B) : M B :=
  fun w => match m w with
           | (Ok x, w') => k x w'
           | (Throw e, w') => (Throw e, w')
           end.

Definition lift {A} (r : Result A) : M A := fun w => (r, w).

Definition onHost {A} (c : Call) (op : HS -> Result A * HS) : M A :=
  fun w =>
    let '(r, s) := op (host w) in
    (r, {| host := s; remote := remote w; settings := settings w;
           this_last_synced_at := this_last_synced_at w;
           calls := calls w ++ [OnHost c] |}).

Definition onRemote {A} (c : Call) (op : RS -> Result A * RS) : M A :=
  fun w =>
    let '(r, s) := op (remote w) in
    (r, {| host := host w; remote := s; settings := settings w;
           this_last_synced_at := this_last_synced_at w;
           calls := calls w ++ [OnRemote c] |}).

Definition getSettings : M Settings := fun w => (Ok (settings w), w).

Definition updateSettings (now : Z) : M unit :=
  fun w =>
    (Ok tt, {| host := host w; remote := remote w;
               settings := updateSettings_last_synced_at now (settings w);
               this_last_synced_at := this_last_synced_at w;
               calls := calls w ++ [SettingsUpdated now] |}).

Definition setLastSyncedAt (t : Z) : M unit :=
  fun w =>
    (Ok tt, {| host := host w; remote := remote w; settings := settings w;
               this_last_synced_at := t; calls := calls w |}).

Definition getLastSyncedAt : M Z := fun w => (Ok (this_last_synced_at w), w).

Declare Scope sync_scope.
Delimit Scope sync_scope with sync.
Notation "x <- m ;; k" := (bind m (fun x => k))
  (at level 100, m at next level, right associativity) : sync_scope.
Notation "m ;; k" := (bind m (fun _ => k))
  (at level 100, right associativity) : sync_scope.
Local Open Scope sync_scope.

Definition hostGetFiles : M (list FileMetadata) :=
  onHost CallGetFiles (getFiles (S := HS)).
Definition remoteGetFiles : M (list FileMetadata) :=
  onRemote CallGetFiles (getFiles (S := RS)).
Definition hostGetFileContent (p : string) : M Buffer :=
  onHost (CallGetFileContent p) (getFileContent (S := HS) p).
Definition remoteGetFileContent (p : string) : M Buffer :=
  onRemote (CallGetFileContent p) (getFileContent (S := RS) p).
Definition hostUpdate (p : string) (content : Buffer) (prev new : Z) : M unit :=
  onHost (CallUpdate p content prev new) (update (S := HS) p content prev new).
Definition remoteUpdate (p : string) (content : Buffer) (prev new : Z) : M unit :=
  onRemote (CallUpdate p content prev new) (update (S := RS) p content prev new).
Definition hostRemove (p : string) (prev now : Z) : M unit :=
  onHost (CallRemove p prev now) (remove (S := HS) p prev now).
Definition remoteRemove (p : string) (prev now : Z) : M unit :=
  onRemote (CallRemove p prev now) (remove (S := RS) p prev now).
Definition hostPrune (p : string) : M unit :=
  onHost (CallPrune p) (prune (S := HS) p).

(** The loop of [isFileExcluded]; a pattern that makes [minimatch] throw
    is skipped by the [catch], as a pattern that does not match is. *)
Fixpoint isFileExcluded (filePath : string) (excludePatterns : list string) : bool :=
  match excludePatterns with
  | [] => false
  | pattern :: rest =>
      if String.eqb (trim pattern) "" then isFileExcluded filePath rest
      else match minimatch filePath pattern true with
           | Ok true => true
           | Ok false => isFileExcluded filePath rest
           | Throw _ => isFileExcluded filePath rest
           end
  end.

(** [excludePatterns.split('\n').flatMap(..split(',')).flatMap(..trim())] *)
Definition excludeList (exclude_globs : string) : list string :=
  map trim (flat_map (fun pattern => split "," (trim pattern))
                     (split "010" exclude_globs)).

Definition handleConflict (hostFile remoteFile : FileMetadata)
    : M (ConflictResolutionStrategy * option Buffer) :=
  hostBuffer <- hostGetFileContent (path hostFile) ;;
  hostFileData <- lift (decrypt hostBuffer) ;;
  remoteBuffer <- remoteGetFileContent (path remoteFile) ;;
  remoteFileData <- lift (decrypt remoteBuffer) ;;
  hostFileDataString <- lift (bufferToString hostFileData) ;;
  remoteFileDataString <- lift (bufferToString remoteFileData) ;;
  s <- getSettings ;;
  resolutionStrategy <-
    lift (ConflictResolver.getResolutionStrategy s hostFile remoteFile) ;;
  match resolutionStrategy with
  | resolve =>
      let resolvedData :=
        ConflictResolver.resolve hostFile remoteFile
          hostFileDataString remoteFileDataString in
      buffer <- lift (stringToBuffer resolvedData) ;;
      updatedData <- lift (encrypt buffer) ;;
      ret (resolutionStrategy, Some updatedData)
  | _ => ret (resolutionStrategy, None)
  end.

(** [{ ...action, action: updatedAction }] *)
Definition withAction (a : SyncAction) (updatedAction : ActionKind) : SyncAction :=
  {| hostFile := hostFile a; remoteFile := remoteFile a; action := updatedAction |}.

(** [applySyncAction]; [depth] bounds the nesting of its recursive calls,
    and running out of it is a stack overflow. *)
Fixpoint applySyncActionRec (depth : nat) (a : SyncAction) (now : Z) : M unit :=
  match depth with
  | O => lift (Throw (Error "Maximum call stack size exceeded"))
  | S depth =>
    match action a with
    | Prune =>
        match hostFile a with
        | Some hostFile => hostPrune (path hostFile)
        | None => ret tt
        end
    | Remove =>
        match remoteFile a with
        | Some remoteFile => remoteRemove (path remoteFile) (updatedAt remoteFile) now
        | None => ret tt
        end ;;
        match hostFile a with
        | Some hostFile => hostRemove (path hostFile) (updatedAt hostFile) now
        | None => ret tt
        end
    | Conflict =>
        match hostFile a, remoteFile a with
        | Some hostFile, Some remoteFile =>
            r <- handleConflict hostFile remoteFile ;;
            let '(resolutionStrategy, updatedData) := r in
            match resolutionStrategy with
            | resolve =>
                match updatedData with
                | Some updatedData =>
                    remoteUpdate (path remoteFile) updatedData (updatedAt remoteFile) now ;;
                    hostUpdate (path hostFile) updatedData (updatedAt hostFile) now
                | None => ret tt
                end
            | ignore => ret tt
            | latest =>
                let updatedAction :=
                  if updatedAt hostFile <? updatedAt remoteFile then Pull else Push in
                applySyncActionRec depth (withAction a updatedAction) now
            | oldest =>
                let updatedAction :=
                  if updatedAt hostFile <? updatedAt remoteFile then Push else Pull in
                applySyncActionRec depth (withAction a updatedAction) now
            | always_pull => applySyncActionRec depth (withAction a Pull) now
            | always_push => applySyncActionRec depth (withAction a Push) now
            end
        | _, _ => ret tt
        end
    | Push =>
        match hostFile a with
        | Some hostFile =>
            content <- hostGetFileContent (path hostFile) ;;
            remoteUpdate (path hostFile) content
              (match remoteFile a with
               | Some remoteFile => updatedAt remoteFile
               | None => updatedAt hostFile
               end)
              (updatedAt hostFile)
        | None => ret tt
        end
    | Pull =>
        match remoteFile a with
        | Some remoteFile =>
            content <- remoteGetFileContent (path remoteFile) ;;
            hostUpdate (path remoteFile) content
              (match hostFile a with
               | Some hostFile => updatedAt hostFile
               | None => updatedAt remoteFile
               end)
              (updatedAt remoteFile)
        | None => ret tt
        end
    end
  end.

(** A conflict re-dispatches once, to a push or a pull: depth 2 is enough
    ([applySyncActionRec_depth]). *)
Definition applySyncAction (a : SyncAction) (now : Z) : M unit :=
  applySyncActionRec 2 a now.

(** [for (const action of actions) await this.applySyncAction(action, now)] *)
Fixpoint applyAll (actions : list SyncAction) (now : Z) : M unit :=
  match actions with
  | [] => ret tt
  | a :: rest => applySyncAction a now ;; applyAll rest now
  end.

(** [sync()], with [now] the value of [Date.now()]. *)
Definition sync (now : Z) : M unit :=
  s <- getSettings ;;
  setLastSyncedAt (default 0 (last_synced_at s)) ;;
  let excludePatterns := exclude_globs s in
  hostFiles <- hostGetFiles ;;
  remoteFiles <- remoteGetFiles ;;
  let filteredRemoteFiles :=
    List.filter
      (fun file => negb (isFileExcluded (path file) (excludeList excludePatterns)))
      remoteFiles in
  w <- getLastSyncedAt ;;
  let actions := createSyncAction w hostFiles filteredRemoteFiles in
  applyAll actions now ;;
  updateSettings now.

End Controller.

Arguments World : clear implicits.
Arguments M : clear implicits.

End SyncController.

(** ** fs.local.ts: [LocalFileSystem.update] and [LocalFileSystem.remove]

    The Obsidian vault is a finite map from paths to files and folders; the
    adapter calls ([writeBinary], [trashLocal], [trashSystem], [createFolder])
    act on that map. *)

Module LocalFileSystem.
Import JsString.

Record FileStats := mkStats { ctime : Z; mtime : Z; fsize : Z }.

Inductive TAbstractFile :=
| TFile (stat : FileStats) (data : Buffer)
| TFolder.

Inductive DeleteTarget := obsidian | system.

Record LocalState := mkLocal {
  vault : gmap string TAbstractFile;
  deleteToWhere : DeleteTarget;
  (* whether [adapter.trashSystem] can move a file to the system trash *)
  systemTrash : bool
}.

Definition withVault (st : LocalState) (v : gmap string TAbstractFile) : LocalState :=
  {| vault := v; deleteToWhere := deleteToWhere st; systemTrash := systemTrash st |}.

(** [vault.getAbstractFileByPath(path)] *)
Definition getAbstractFileByPath (st : LocalState) (p : string) : option TAbstractFile :=
  vault st !! p.

(** [vault.createFolder(path)] *)
Definition createFolder (p : string) (st : LocalState) : LocalState :=
  withVault st (<[p := TFolder]> (vault st)).

(** [vault.adapter.writeBinary(path, content, { mtime, ctime })] *)
Definition writeBinary (p : string) (content : Buffer) (mtime ctime : Z)
    (st : LocalState) : LocalState :=
  withVault st
    (<[p := TFile {| ctime := ctime; mtime := mtime;
                     fsize := Z.of_nat (length content) |} content]> (vault st)).

(** [vault.adapter.trashLocal(path)] *)
Definition trashLocal (p : string) (st : LocalState) : LocalState :=
  withVault st (delete p (vault st)).

(** [vault.adapter.trashSystem(path)]: the returned boolean tells whether
    the file went to the system trash. *)
Definition trashSystem (p : string) (st : LocalState) : bool * LocalState :=
  if systemTrash st then (true, withVault st (delete p (vault st)))
  else (false, st).

(** [getFileStats]: [(mtime, ctime)], both 0 unless [path] is a file. *)
Definition getFileStats (st : LocalState) (p : string) : Z * Z :=
  match getAbstractFileByPath st p with
  | Some (TFile stat _) => (mtime stat, ctime stat)
  | _ => (0, 0)
  end.

(** One round of the loop of [mkdirpInVault]. *)
Definition mkdirpStep (acc : string * LocalState) (part : string) : string * LocalState :=
  let '(currentPath, st) := acc in
  let currentPath :=
    if truthy currentPath then (currentPath ++ "/" ++ part)%string else part in
  match getAbstractFileByPath st currentPath with
  | Some _ => (currentPath, st)
  | None => (currentPath, createFolder currentPath st)
  end.

Definition mkdirpInVault (p : string) (st : LocalState) : LocalState :=
  let pathParts :=
    List.filter (fun part => (0 <? String.length part)%nat) (split "/" p) in
  snd (fold_left mkdirpStep pathParts ("", st)).

Definition writeFile (p : string) (content : Buffer) (mtime ctime : Z)
    (st : LocalState) : LocalState :=
  writeBinary p content mtime ctime st.

(** The exception of the optimistic-concurrency check. *)
Definition staleError : Exn := Error "File has been modified since last sync".

Definition update (p : string) (content : Buffer)
    (previousUpdatedAt newUpdatedAt : Z) (st : LocalState) : Result unit * LocalState :=
  let parentDir := substring0 (lastIndexOf "/" p) p in
  let st :=
    if truthy parentDir && (0 <? String.length parentDir)%nat
    then mkdirpInVault parentDir st else st in
  let '(mtime, ctime) := getFileStats st p in
  if negb (mtime =? 0) && negb (mtime =? previousUpdatedAt) then
    (Throw staleError, st)
  else
    (Ok tt, writeFile p content newUpdatedAt
              (if ctime =? 0 then newUpdatedAt else ctime) st).

Definition remove (p : string) (previousUpdatedAt : Z) (st : LocalState)
    : Result unit * LocalState :=
  let '(mtime, ctime) := getFileStats st p in
  if negb (mtime =? 0) && negb (mtime =? previousUpdatedAt) then
    (Throw staleError, st)
  else
    match deleteToWhere st with
    | obsidian => (Ok tt, trashLocal p st)
    | system =>
        let '(done, st) := trashSystem p st in
        if negb done then (Ok tt, trashLocal p st) else (Ok tt, st)
    end.

End LocalFileSystem.

(** ** An in-memory file store

    The remote store adapter and the deletion history of the host are not
    among the sources. [MemStore] follows the File Store contract of the spec
    (section 6) and its FileRecord data model (section 3): one record per
    path, live or tombstone, kept next to the content. *)

Module MemStore.

Record Entry := mkEntry {
  e_size : Z;
  e_createdAt : Z;
  e_updatedAt : Z;
  e_deletedAt : Z;
  e_deleted : bool;
  e_content : Buffer
}.

Abbreviation Store := (gmap string Entry).

Definition toFile (kv : string * Entry) : FileMetadata :=
  {| path := fst kv; size := e_size (snd kv);
     createdAt := e_createdAt (snd kv); updatedAt := e_updatedAt (snd kv);
     deletedAt := e_deletedAt (snd kv); deleted := e_deleted (snd kv) |}.

Definition filesOf (s : Store) : list FileMetadata := map toFile (map_to_list s).

(** Modelled from the spec: [listFiles] of the File Store contract; every
    record, tombstones included. *)
Definition listFiles (s : Store) : Result (list FileMetadata) * Store :=
  (Ok (filesOf s), s).

(** The record [listFiles] reports for the path [p], if any. *)
Definition recordAt (s : Store) (p : string) : option FileMetadata :=
  (fun e => toFile (p, e)) <$> s !! p.

(** Modelled from the spec: [getFileContent] of the File Store contract; a
    read changes nothing, and only live records have content. *)
Definition readContent (p : string) (s : Store) : Result Buffer * Store :=
  match s !! p with
  | Some e =>
      if e_deleted e then (Throw (Error "File not found"), s)
      else (Ok (e_content e), s)
  | None => (Throw (Error "File not found"), s)
  end.

(** The recorded modification time of a path, 0 when there is no record. *)
Definition recordedTime (s : Store) (p : string) : Z :=
  match s !! p with
  | Some e => e_updatedAt e
  | None => 0
  end.

Definition stale (s : Store) (p : string) (previousUpdatedAt : Z) : bool :=
  negb (recordedTime s p =? 0) && negb (recordedTime s p =? previousUpdatedAt).

Definition staleError : Exn := Error "File has been modified since last sync".

(** Modelled from the spec: [update] of the File Store contract; the
    staleness check, then a live record stamped [newUpdatedAt]. *)
Definition writeRecord (p : string) (content : Buffer)
    (previousUpdatedAt newUpdatedAt : Z) (s : Store) : Result unit * Store :=
  if stale s p previousUpdatedAt then (Throw staleError, s)
  else
    let created :=
      match s !! p with
      | Some e => if e_deleted e then newUpdatedAt else e_createdAt e
      | None => newUpdatedAt
      end in
    (Ok tt, <[p := {| e_size := Z.of_nat (length content);
                      e_createdAt := created; e_updatedAt := newUpdatedAt;
                      e_deletedAt := newUpdatedAt; e_deleted := false;
                      e_content := content |}]> s).

(** Modelled from the spec: [remove] of the File Store contract; the same
    check, then the record becomes a tombstone deleted at [now]. *)
Definition deleteRecord (p : string) (previousUpdatedAt now : Z) (s : Store)
    : Result unit * Store :=
  if stale s p previousUpdatedAt then (Throw staleError, s)
  else
    (Ok tt, <[p := {| e_size := 0; e_createdAt := now; e_updatedAt := now;
                      e_deletedAt := now; e_deleted := true;
                      e_content := [] |}]> s).

(** Modelled from the spec: [prune] of the File Store contract; drops a
    tombstone, never a live record. *)
Definition pruneRecord (p : string) (s : Store) : Result unit * Store :=
  match s !! p with
  | Some e => if e_deleted e then (Ok tt, delete p s) else (Ok tt, s)
  | None => (Ok tt, s)
  end.

#[export] Instance memFileSystem : FileSystem Store := {|
  getFiles := listFiles;
  getFileContent := readContent;
  update := writeRecord;
  remove := deleteRecord;
  prune := pruneRecord
|}.

End MemStore.

(** ** The plan, path by path

    What each of the four loops of [createSyncAction] proposes for one record,
    and the first proposal made for a path; [createSyncMap_actionAt] shows
    that this is what the loops leave in the map. *)

Module PlanSpec.

Definition remoteDeletionAction (hostFiles : list FileMetadata)
    (remoteDeletedFile : FileMetadata) : option SyncAction :=
  match getFile hostFiles (path remoteDeletedFile) with
  | Some hostFile =>
      Some (createAction (Some hostFile) (Some remoteDeletedFile)
              (if deleted hostFile then Prune
               else if createdAt hostFile <? deletedAt remoteDeletedFile then Remove
               else Push))
  | None => None
  end.

Definition hostDeletionAction (remoteFiles : list FileMetadata)
    (hostDeletedFile : FileMetadata) : option SyncAction :=
  match getFile remoteFiles (path hostDeletedFile) with
  | Some remoteFile =>
      if deleted remoteFile then None
      else Some (createAction (Some hostDeletedFile) (Some remoteFile)
                   (if createdAt remoteFile <? deletedAt hostDeletedFile
                    then Remove else Pull))
  | None => Some (createAction (Some hostDeletedFile) None Prune)
  end.

Definition hostModificationAction (last_synced_at : Z)
    (remoteFiles : list FileMetadata) (hostModifiedFile : FileMetadata)
    : option SyncAction :=
  match getFile remoteFiles (path hostModifiedFile) with
  | None => Some (createAction (Some hostModifiedFile) None Push)
  | Some remoteFile =>
      if updatedAt remoteFile <? updatedAt hostModifiedFile then
        Some (createAction (Some hostModifiedFile) (Some remoteFile) Push)
      else if updatedAt remoteFile >? last_synced_at then
        Some (createAction (Some hostModifiedFile) (Some remoteFile) Conflict)
      else None
  end.

Definition remoteModificationAction (last_synced_at : Z)
    (hostFiles : list FileMetadata) (remoteModifiedFile : FileMetadata)
    : option SyncAction :=
  match getFile hostFiles (path remoteModifiedFile) with
  | None => Some (createAction None (Some remoteModifiedFile) Pull)
  | Some hostFile =>
      if updatedAt hostFile <? updatedAt remoteModifiedFile then
        Some (createAction (Some hostFile) (Some remoteModifiedFile) Pull)
      else if updatedAt hostFile >? last_synced_at then
        Some (createAction (Some hostFile) (Some remoteModifiedFile) Conflict)
      else None
  end.

(** One loop, with the proposal of each record made explicit. *)
Definition offer (act : FileMetadata -> option SyncAction)
    (objMap : ObjMap) (file : FileMetadata) : ObjMap :=
  match act file with
  | Some a => set objMap (path file) a
  | None => objMap
  end.

(** The first proposal among [files] for the path [key]. *)
Fixpoint firstAction (act : FileMetadata -> option SyncAction)
    (files : list FileMetadata) (key : string) : option SyncAction :=
  match files with
  | [] => None
  | file :: rest =>
      if String.eqb (path file) key then
        match act file with
        | Some a => Some a
        | None => firstAction act rest key
        end
      else firstAction act rest key
  end.

Definition orElse {A} (x y : option A) : option A :=
  match x with Some _ => x | None => y end.

(** The action planned for [key]: the loops in their order, first writer wins. *)
Definition planned (last_synced_at : Z) (hostFiles remoteFiles : list FileMetadata)
    (key : string) : option SyncAction :=
  orElse (firstAction (remoteDeletionAction hostFiles)
            (List.filter (fun file => deleted file) remoteFiles) key)
 (orElse (firstAction (hostDeletionAction remoteFiles)
            (List.filter (fun file => deleted file) hostFiles) key)
 (orElse (firstAction (hostModificationAction last_synced_at remoteFiles)
            (List.filter (fun file => negb (deleted file)) hostFiles) key)
         (firstAction (remoteModificationAction last_synced_at hostFiles)
            (List.filter (fun file => negb (deleted file)) remoteFiles) key))).

(** The decision table of the planner for one path, given the record of
    each store at that path ([planned_decide]). *)
Definition decide (last_synced_at : Z) (host remote : option FileMetadata)
    : option ActionKind :=
  orElse
    (match remote with
     | Some r =>
         if deleted r then
           match host with
           | Some h =>
               Some (if deleted h then Prune
                     else if createdAt h <? deletedAt r then Remove else Push)
           | None => None
           end
         else None
     | None => None
     end)
 (orElse
    (match host with
     | Some h =>
         if deleted h then
           match remote with
           | Some r =>
               if deleted r then None
               else Some (if createdAt r <? deletedAt h then Remove else Pull)
           | None => Some Prune
           end
         else None
     | None => None
     end)
 (orElse
    (match host with
     | Some h =>
         if deleted h then None
         else match remote with
              | None => Some Push
              | Some r =>
                  if updatedAt r <? updatedAt h then Some Push
                  else if updatedAt r >? last_synced_at then Some Conflict
                  else None
              end
     | None => None
     end)
    (match remote with
     | Some r =>
         if deleted r then None
         else match host with
              | None => Some Pull
              | Some h =>
                  if updatedAt h <? updatedAt r then Some Pull
                  else if updatedAt h >? last_synced_at then Some Conflict
                  else None
              end
     | None => None
     end))).

(** Every action in the map sits under the path of its records. *)
Definition keyed (objMap : ObjMap) : Prop :=
  forall k a, In (k, a) objMap ->
    (forall h, hostFile a = Some h -> path h = k) /\
    (forall r, remoteFile a = Some r -> path r = k) /\
    (hostFile a <> None \/ remoteFile a <> None).

(** A loop proposes, for a record, only actions about that record's path. *)
Definition wellKeyed (act : FileMetadata -> option SyncAction) : Prop :=
  forall f a, act f = Some a ->
    (forall h, hostFile a = Some h -> path h = path f) /\
    (forall r, remoteFile a = Some r -> path r = path f) /\
    (hostFile a <> None \/ remoteFile a <> None).

End PlanSpec.

(** No action of a plan is about the path [p]. *)
Definition noActionFor (p : string) (plan : list SyncAction) : Prop :=
  forall a, In a plan -> ~ concerns p a.

(** The text allow-list, as the spec gives it. *)
Definition textAllowList : list string :=
  ["md"; "txt"; "json"; "yaml"; "yml"; "toml"; "ini"; "conf"; "cfg";
   "config"; "properties"; "env"].

(** [c] occurs in [s]. *)
Fixpoint occurs (c : ascii) (s : string) : bool :=
  match s with
  | EmptyString => false
  | String d rest => Ascii.eqb d c || occurs c rest
  end.

(** What follows the last [c] of [s]; all of [s] when [c] does not occur. *)
Fixpoint afterLast (c : ascii) (s : string) : string :=
  match s with
  | EmptyString => EmptyString
  | String d rest =>
      if occurs c rest then afterLast c rest
      else if Ascii.eqb d c then rest else s
  end.

(** The piece of the path [isTextBasedFile] looks at: what follows the last
    dot, and the whole path when it has no dot ([getExtension_afterLast]). *)
Definition extensionOf (file : FileMetadata) : string :=
  afterLast "." (path file).

(** The classification as the spec words it. *)
Module ClassifySpec.



Section WithMinimatch.
Context {matcher : Minimatch}.




End WithMinimatch.

End ClassifySpec.

(** [c] does not occur in [s]. *)
Fixpoint absent (c : ascii) (s : string) : Prop :=
  match s with
  | EmptyString => True
  | String d rest => d <> c /\ absent c rest
  end.

(** Test doubles for the external libraries. *)
Module Doubles.
(** A matcher for literal patterns. *)
Definition literalMatch : Minimatch :=
  fun p pattern _ =>
    if (65536 <? N.of_nat (String.length pattern))%N
    then Throw (Error "pattern is too long")
    else Ok (String.eqb p pattern).
(** A merge that keeps the incoming text after the base. *)
Definition appendMerge : Reconcile := fun original left right => (left ++ right)%string.
(** No encryption; buffers hold the bytes of the string. *)
Definition plainCrypto : Crypto :=
  {| decrypt := Ok; encrypt := Ok;
     bufferToString := fun b => Ok (string_of_list_byte b);
     stringToBuffer := fun s => Ok (list_byte_of_string s) |}.
(** A crypto helper whose decryption throws. *)
Definition brokenCrypto : Crypto :=
  {| decrypt := fun _ => Throw (Error "Decryption failed"); encrypt := Ok;
     bufferToString := fun b => Ok (string_of_list_byte b);
     stringToBuffer := fun s => Ok (list_byte_of_string s) |}.
End Doubles.

(** ** Call logs of the controller *)

Module Trace.
Import SyncController.

Definition isRemotePrune (e : Event) : bool :=
  match e with OnRemote (CallPrune _) => true | _ => false end.

Definition isHostRemove (e : Event) : bool :=
  match e with OnHost (CallRemove _ _ _) => true | _ => false end.

Definition isRemoteRemove (e : Event) : bool :=
  match e with OnRemote (CallRemove _ _ _) => true | _ => false end.

Definition isSettingsUpdated (e : Event) : bool :=
  match e with SettingsUpdated _ => true | _ => false end.

(** In the log [evs], some host deletion comes before some remote deletion. *)
Definition hostRemoveBeforeRemoteRemove (evs : list Event) : Prop :=
  exists i j e1 e2,
    (i < j)%nat /\ evs !! i = Some e1 /\ evs !! j = Some e2 /\
    isHostRemove e1 = true /\ isRemoteRemove e2 = true.

(** Every call that the computation [m] adds to the log satisfies [P]. *)
Definition emits {HS RS A} (P : Event -> Prop) (m : M HS RS A) : Prop :=
  forall w, exists evs, calls (snd (m w)) = calls w ++ evs /\ Forall P evs.

(** The computation [m] leaves the settings object alone. *)
Definition keepsSettings {HS RS A} (m : M HS RS A) : Prop :=
  forall w, settings (snd (m w)) = settings w.

(** What [P] must allow so that the applier adds only [P]-calls. *)
Definition allowsApplier (P : Event -> Prop) : Prop :=
  (forall p, P (OnHost (CallPrune p))) /\
  (forall p t n, P (OnHost (CallRemove p t n))) /\
  (forall p t n, P (OnRemote (CallRemove p t n))) /\
  (forall p, P (OnHost (CallGetFileContent p))) /\
  (forall p, P (OnRemote (CallGetFileContent p))) /\
  (forall p c t n, P (OnHost (CallUpdate p c t n))) /\
  (forall p c t n, P (OnRemote (CallUpdate p c t n))).

End Trace.

Module Watermark.
Import SyncController Trace.

(** A pass that writes the watermark last: every call before the end is
    something else than a settings update; a run that returns has then
    written [now], once, as its final step, and a run that throws has left
    the settings as they were. *)
Definition watermarkLast {HS RS A} (now : Z) (m : M HS RS A) : Prop :=
  forall w, exists evs,
    Forall (fun e => isSettingsUpdated e = false) evs /\
    match fst (m w) with
    | Ok _ =>
        calls (snd (m w)) = calls w ++ evs ++ [SettingsUpdated now] /\
        settings (snd (m w)) = updateSettings_last_synced_at now (settings w)
    | Throw _ =>
        calls (snd (m w)) = calls w ++ evs /\
        settings (snd (m w)) = settings w
    end.

Section Pass.
Context {HS RS : Type} {hostFs : FileSystem HS} {remoteFs : FileSystem RS}.
Context {matcher : Minimatch} {merger : Reconcile} {crypto : Crypto}.

(** The actions were applied one after the other from the world [w], each
    of them returned, and the last one left the world [w']. *)
Fixpoint appliedInOrder (now : Z) (actions : list SyncAction)
    (w w' : World HS RS) : Prop :=
  match actions with
  | [] => w' = w
  | a :: rest =>
      exists w1, applySyncAction a now w = (Ok tt, w1) /\
                 appliedInOrder now rest w1 w'
  end.

(** The world of a pass when both listings have returned, leaving the
    stores [hs] and [rs]. *)
Definition listed (w : World HS RS) (hs : HS) (rs : RS) : World HS RS :=
  {| host := hs; remote := rs; settings := settings w;
     this_last_synced_at := default 0 (last_synced_at (settings w));
     calls := calls w ++ [OnHost CallGetFiles; OnRemote CallGetFiles] |}.

(** The plan of a pass from the two listings. *)
Definition planOfPass (w : World HS RS)
    (hostFiles remoteFiles : list FileMetadata) : list SyncAction :=
  createSyncAction (default 0 (last_synced_at (settings w))) hostFiles
    (List.filter
       (fun file =>
          negb (isFileExcluded (path file)
                  (excludeList (exclude_globs (settings w)))))
       remoteFiles).

End Pass.

End Watermark.

(** The optimistic-concurrency condition of [LocalFileSystem]: the recorded
    modification time of the path is non-zero and differs from the token. *)
Definition staleAt (st : LocalFileSystem.LocalState) (p : string)
    (previousUpdatedAt : Z) : Prop :=
  fst (LocalFileSystem.getFileStats st p) <> 0 /\
  fst (LocalFileSystem.getFileStats st p) <> previousUpdatedAt.

(** ** Sample stores and worlds *)

Module Samples.
Import SyncController MemStore.

Definition memWorld (hostStore remoteStore : Store) (s : Settings) : World Store Store :=
  {| host := hostStore; remote := remoteStore; settings := s;
     this_last_synced_at := 0; calls := [] |}.

Definition noRules (fallback : ConflictResolutionStrategy) : Settings :=
  mkSettings None "" [] fallback false.

Definition liveEntry (created updated : Z) (content : Buffer) : Entry :=
  mkEntry (Z.of_nat (length content)) created updated updated false content.

Definition tombstone (deletedAt : Z) : Entry :=
  mkEntry 0 deletedAt deletedAt deletedAt true [].

(** The metadata [listFiles] reports for an entry stored under [p]. *)
Definition fileOf (p : string) (e : Entry) : FileMetadata := toFile (p, e).

Definition applyOnMem :=
  applySyncAction (hostFs := memFileSystem) (remoteFs := memFileSystem)
    (matcher := Doubles.literalMatch) (merger := Doubles.appendMerge)
    (crypto := Doubles.plainCrypto).

Definition applyAllOnMem :=
  applyAll (hostFs := memFileSystem) (remoteFs := memFileSystem)
    (matcher := Doubles.literalMatch) (merger := Doubles.appendMerge)
    (crypto := Doubles.plainCrypto).

Definition syncOnMem :=
  sync (hostFs := memFileSystem) (remoteFs := memFileSystem)
    (matcher := Doubles.literalMatch) (merger := Doubles.appendMerge)
    (crypto := Doubles.plainCrypto).

(** A vault holding one note, last modified at 100. *)
Definition oneNoteVault : LocalFileSystem.LocalState :=
  {| LocalFileSystem.vault :=
       {[ "notes/a.md" :=
            LocalFileSystem.TFile
              {| LocalFileSystem.ctime := 90; LocalFileSystem.mtime := 100;
                 LocalFileSystem.fsize := 1 |} [Byte.x61] ]};
     LocalFileSystem.deleteToWhere := LocalFileSystem.obsidian;
     LocalFileSystem.systemTrash := false |}.

End Samples.

(** ** What an applied action leaves in two in-memory stores *)

Module Effects.
Import SyncController MemStore.

(** [s'] is [s] with a live record stamped [t] written at [p]. *)
Definition wroteLive (p : string) (t : Z) (s s' : Store) : Prop :=
  exists e, s' = <[p := e]> s /\ e_deleted e = false /\ e_updatedAt e = t.

(** Only the remote changed: it received the host record [h]. *)
Definition pushed (h : FileMetadata) (w w' : World Store Store) : Prop :=
  host w' = host w /\ wroteLive (path h) (updatedAt h) (remote w) (remote w').

(** Only the host changed: it received the remote record [r]. *)
Definition pulled (r : FileMetadata) (w w' : World Store Store) : Prop :=
  remote w' = remote w /\ wroteLive (path r) (updatedAt r) (host w) (host w').

(** Both stores received a merged text stamped [now]. *)
Definition merged (h r : FileMetadata) (now : Z) (w w' : World Store Store) : Prop :=
  wroteLive (path r) now (remote w) (remote w') /\
  wroteLive (path h) now (host w) (host w').

Definition unchanged (w w' : World Store Store) : Prop :=
  host w' = host w /\ remote w' = remote w.

(** The two worlds agree on both stores away from the path [p]. *)
Definition sameElsewhere (p : string) (w w' : World Store Store) : Prop :=
  forall q, q <> p ->
    host w' !! q = host w !! q /\ remote w' !! q = remote w !! q.

(** Nothing is planned for [p] in the world [w] under the watermark [t]. *)
Definition settled (t : Z) (w : World Store Store) (p : string) : Prop :=
  PlanSpec.decide t (recordAt (host w) p) (recordAt (remote w) p) = None.

(** The side conditions on a planned action: it is not a remove, and not
    a conflict between copies with different timestamps that the settings
    resolve by [ignore]. *)
Definition settles {matcher : Minimatch} (s : Settings) (a : SyncAction) : Prop :=
  action a <> Remove /\
  (action a = Conflict -> forall h r,
     hostFile a = Some h -> remoteFile a = Some r ->
     ConflictResolver.getResolutionStrategy s h r = Ok ignore ->
     updatedAt h = updatedAt r).

(** No record of the store was updated after [now]. *)
Definition notAfter (now : Z) (s : Store) : Prop :=
  map_Forall (fun _ e => e_updatedAt e <= now) s.

(** The plan of a pass over two in-memory stores. *)
Definition planOf (last_synced_at : Z) (hostStore remoteStore : Store)
    : list SyncAction :=
  createSyncAction last_synced_at (filesOf hostStore) (filesOf remoteStore).

End Effects.

(** Sample stores for a pass with a push, a pull, a prune and a merge. *)
Module PassSamples.
Import SyncController MemStore Samples.

Definition hostStore : Store :=
  {[ "notes/a.md" := liveEntry 90 100 [Byte.x61];
     "gone.txt" := tombstone 60;
     "config.json" := liveEntry 10 200 [Byte.x68] ]}.

Definition remoteStore : Store :=
  {[ "b.bin" := liveEntry 40 50 [Byte.x62];
     "gone.txt" := tombstone 50;
     "config.json" := liveEntry 10 250 [Byte.x72] ]}.

Definition world : World Store Store :=
  memWorld hostStore remoteStore (noRules latest).

(** A conflict on a binary file that the settings say to ignore. *)
Definition ignoredConflict : World Store Store :=
  memWorld {[ "a.bin" := liveEntry 50 100 [Byte.x61] ]}
           {[ "a.bin" := liveEntry 50 200 [Byte.x62] ]} (noRules ignore).

(** A host tombstone against an older live remote copy. *)
Definition staleRemoteCopy : World Store Store :=
  memWorld {[ "x.txt" := tombstone 50 ]}
           {[ "x.txt" := liveEntry 40 45 [Byte.x61] ]} (noRules latest).

(** A host file stamped later than the clock of the pass. *)
Definition futureFile : World Store Store :=
  memWorld {[ "notes/a.md" := liveEntry 90 5000 [Byte.x61] ]} ∅ (noRules latest).

End PassSamples.

(** ** fs.local.ts: reading and listing

    The rest of [LocalFileSystem]: [getFileContent], [walk],
    [walkInternalFiles] and [getFiles]. The deletion history hands out its
    records as a list; the hidden [.obsidian] folder, which the vault does
    not load, is a tree of adapter listings. *)

Module LocalFiles.
Import JsString LocalFileSystem.

(** [vault.adapter.readBinary(path)]: throws unless [path] is a file. *)
Definition readBinary (p : string) (st : LocalState) : Result Buffer :=
  match vault st !! p with
  | Some (TFile _ data) => Ok data
  | _ => Throw (Error "ENOENT: no such file or directory")
  end.

Definition readFile (p : string) (st : LocalState) : Result Buffer := readBinary p st.

Definition getFileContent (p : string) (st : LocalState) : Result Buffer :=
  readFile p st.

(** A record of [history.getAllDeletedFiles()], with the fields [getFiles]
    reads. *)
Record DeletedFile := mkDeleted {
  d_path : string;
  d_deletedAt : Z
}.

(** What [adapter.list(folder)] returns, one level after the other: the
    files of the folder with what [adapter.stat] says of each ([None] for
    [null]), and the listings of its sub-folders. *)
#[warnings="-register-all"] Inductive Listing :=
| mkListing (files : list (string * option FileStats))
            (folders : list Listing).

(** What the adapter object can reach. *)
Record LocalEnv := mkEnv {
  local : LocalState;
  history : list DeletedFile;
  internal : Listing;
  localSettings : Settings
}.


(** [s.startsWith('/')] *)
Definition startsWithSlash (s : string) : bool :=
  match s with
  | String c _ => Ascii.eqb c "/"
  | EmptyString => false
  end.

(** [s.slice(1)] *)
Definition slice1 (s : string) : string :=
  match s with
  | String _ rest => rest
  | EmptyString => EmptyString
  end.

Section WithMatcher.
Context {matcher : Minimatch}.

(** The private [isFileExcluded] of fs.local.ts, the same loop as the
    one of the sync controller. *)
Fixpoint isFileExcluded (filePath : string) (excludePatterns : list string) : bool :=
  match excludePatterns with
  | [] => false
  | pattern :: rest =>
      if String.eqb (trim pattern) "" then isFileExcluded filePath rest
      else match minimatch filePath pattern true with
           | Ok true => true
           | Ok false => isFileExcluded filePath rest
           | Throw _ => isFileExcluded filePath rest
           end
  end.

(** The pattern list both walks build from [exclude_globs]. *)
Definition patternsOf (exclude_globs : string) : list string :=
  map trim (flat_map (fun pattern => split "," (trim pattern))
                     (split "010" exclude_globs)).

(** One round of the loop of [walk], on an entry of
    [vault.getAllLoadedFiles()]. *)
Definition walkEntry (excludePatterns : string) (entry : string * TAbstractFile)
    : list FileMetadata :=
  let '(entryPath, file) := entry in
  if String.eqb entryPath "/" || String.eqb entryPath "" then []
  else match file with
       | TFolder => []
       | TFile stat _ =>
           let p := if startsWithSlash entryPath then slice1 entryPath
                    else entryPath in
           if isFileExcluded p (patternsOf excludePatterns) then []
           else [{| path := p; size := fsize stat; createdAt := ctime stat;
                    updatedAt := mtime stat; deletedAt := mtime stat;
                    deleted := false |}]
       end.

Definition walk (env : LocalEnv) : list FileMetadata :=
  flat_map (walkEntry (exclude_globs (localSettings env)))
           (map_to_list (vault (local env))).

(** The first loop of [walkInternalFiles], on one listed file. *)
Definition internalEntry (excludePatterns : string)
    (entry : string * option FileStats) : list FileMetadata :=
  let '(file, stat) := entry in
  if isFileExcluded file (patternsOf excludePatterns) then []
  else [{| path := file;
           size := match stat with Some s => fsize s | None => 0 end;
           createdAt := match stat with Some s => ctime s | None => 0 end;
           updatedAt := match stat with Some s => mtime s | None => 0 end;
           deletedAt := match stat with Some s => mtime s | None => 0 end;
           deleted := false |}].

Fixpoint walkInternalFiles (excludePatterns : string) (listing : Listing)
    : list FileMetadata :=
  match listing with
  | mkListing files folders =>
      flat_map (internalEntry excludePatterns) files ++
      (fix children (l : list Listing) : list FileMetadata :=
         match l with
         | [] => []
         | childFolder :: rest =>
             walkInternalFiles excludePatterns childFolder ++ children rest
         end) folders
  end.

(** [{ ...file, deleted: true, size: 0, createdAt: file.deletedAt,
    updatedAt: file.deletedAt }] *)
Definition tombstoneOf (file : DeletedFile) : FileMetadata :=
  {| path := d_path file; size := 0; createdAt := d_deletedAt file;
     updatedAt := d_deletedAt file; deletedAt := d_deletedAt file;
     deleted := true |}.

Definition getFiles (env : LocalEnv) : list FileMetadata :=
  let arr := walk env in
  let deletedFiles := history env in
  let filteredDeletedFiles :=
    map tombstoneOf
      (List.filter
         (fun file =>
            negb (existsb (fun arrFile => String.eqb (path arrFile) (d_path file)) arr))
         deletedFiles) in
  if negb (sync_internal_files (localSettings env)) then
    arr ++ filteredDeletedFiles
  else
    let internalFiles :=
      walkInternalFiles (exclude_globs (localSettings env)) (internal env) in
    arr ++ filteredDeletedFiles ++ internalFiles.

End WithMatcher.

End LocalFiles.

(** ** Vocabulary for the listings of [LocalFileSystem] *)

Module ListingSpec.
Import JsString LocalFileSystem LocalFiles.

Section WithMatcher.
Context {matcher : Minimatch}.

(** A record of a file that is there: not deleted, not excluded by
    [globs], and with its deletion time equal to its modification time. *)
Definition liveRecord (globs : string) (f : FileMetadata) : Prop :=
  deleted f = false /\
  isFileExcluded (path f) (patternsOf globs) = false /\
  deletedAt f = updatedAt f.

(** The tombstones [getFiles] builds from the deletion history. *)
Definition tombstonesOf (env : LocalEnv) : list FileMetadata :=
  map tombstoneOf
    (List.filter
       (fun file =>
          negb (existsb (fun arrFile => String.eqb (path arrFile) (d_path file))
                        (walk env)))
       (history env)).

End WithMatcher.

End ListingSpec.

(** ** More vocabulary for the theorems *)

Module MoreSpec.
Import SyncController.

(** The remote records [sync] hands to the planner. *)
Definition filteredRemoteFiles {matcher : Minimatch} (exclude_globs : string)
    (remoteFiles : list FileMetadata) : list FileMetadata :=
  List.filter
    (fun file => negb (isFileExcluded (path file) (excludeList exclude_globs)))
    remoteFiles.

(** The path a store call is about; a listing is about none. *)
Definition callPath (c : Call) : option string :=
  match c with
  | CallGetFiles => None
  | CallGetFileContent p => Some p
  | CallUpdate p _ _ _ => Some p
  | CallRemove p _ _ => Some p
  | CallPrune p => Some p
  end.

(** The event is a store call about the path of one of the action's records. *)
Definition aboutAction (a : SyncAction) (e : Event) : Prop :=
  exists c p, (e = OnHost c \/ e = OnRemote c) /\ callPath c = Some p /\
              concerns p a.

Definition isWrite (e : Event) : bool :=
  match e with
  | OnHost (CallUpdate _ _ _ _) | OnRemote (CallUpdate _ _ _ _)
  | OnHost (CallRemove _ _ _) | OnRemote (CallRemove _ _ _)
  | OnHost (CallPrune _) | OnRemote (CallPrune _) => true
  | _ => false
  end.

(** The shape every planned action has, kind by kind, over the two input
    lists. *)
Definition wellFormed (hostFiles remoteFiles : list FileMetadata)
    (a : SyncAction) : Prop :=
  (forall h, hostFile a = Some h -> In h hostFiles) /\
  (forall r, remoteFile a = Some r -> In r remoteFiles) /\
  (forall h r, hostFile a = Some h -> remoteFile a = Some r -> path h = path r) /\
  match action a with
  | Prune => exists h, hostFile a = Some h /\ deleted h = true
  | Remove =>
      exists h r, hostFile a = Some h /\ remoteFile a = Some r /\
                  deleted h = negb (deleted r)
  | Conflict => exists h r, hostFile a = Some h /\ remoteFile a = Some r
  | Push => exists h, hostFile a = Some h /\ deleted h = false
  | Pull => exists r, remoteFile a = Some r /\ deleted r = false
  end.

(** The plan holds the action [a], and it is its only action about [p]. *)
Definition plansExactly (plan : list SyncAction) (p : string) (a : SyncAction)
    : Prop :=
  In a plan /\ forall a', In a' plan -> concerns p a' -> a' = a.

(** [join sep pieces], the inverse of [split]. *)
Fixpoint join (sep : ascii) (pieces : list string) : string :=
  match pieces with
  | [] => EmptyString
  | [s] => s
  | s :: rest => (s ++ String sep (join sep rest))%string
  end.

(** The folder names along a directory path, as [mkdirpInVault] takes them. *)
Definition folderParts (dir : string) : list string :=
  List.filter (fun part => (0 <? String.length part)%nat) (JsString.split "/" dir).

(** The path of the [k]-th folder on the way down [parts]. *)
Definition ancestor (parts : list string) (k : nat) : string :=
  join "/" (firstn k parts).

(** The vault [v'] keeps every entry of [v], and has only folders more. *)
Definition onlyAddsFolders (v v' : gmap string LocalFileSystem.TAbstractFile) : Prop :=
  forall q, match v !! q with
            | Some x => v' !! q = Some x
            | None => v' !! q = None \/ v' !! q = Some LocalFileSystem.TFolder
            end.

End MoreSpec.

(** ** More sample data *)

Module MoreSamples.
Import SyncController MemStore Samples LocalFileSystem LocalFiles.

Definition handleConflictOnMem :=
  handleConflict (hostFs := memFileSystem) (remoteFs := memFileSystem)
    (matcher := Doubles.literalMatch) (merger := Doubles.appendMerge)
    (crypto := Doubles.plainCrypto).

(** The vault of [oneNoteVault] with a deletion history of two records, one
    of them for the note that is there, and a hidden folder of three files,
    one of them excluded. *)
Definition sampleEnv : LocalEnv :=
  {| local := oneNoteVault;
     history := [mkDeleted "notes/a.md" 50; mkDeleted "old.md" 60];
     internal :=
       mkListing
         [(".obsidian/app.json", Some (mkStats 10 20 2));
          (".obsidian/workspace.json", None)]
         [mkListing [(".obsidian/plugins/p.json", None)] []];
     localSettings := mkSettings None ".obsidian/workspace.json" [] latest true |}.

End MoreSamples.

(** * Properties of the planner *)

Module PlannerFacts.
Import PlanSpec.

Lemma getFile_Some files p f : getFile files p = Some f -> In f files /\ path f = p.
Proof.
  unfold getFile. intros Hf. apply find_some in Hf as [Hin Heq].
  split; [exact Hin | now apply String.eqb_eq].
Qed.

Lemma getFile_None files p : getFile files p = None -> forall f, In f files -> path f <> p.
Proof.
  unfold getFile. intros Hf f Hin Hp.
  apply (find_none _ _ Hf) in Hin. apply String.eqb_neq in Hin. contradiction.
Qed.

Lemma has_actionAt m k : has m k = true <-> actionAt m k <> None.
Proof.
  unfold has, actionAt. induction m as [|[k' a] m IH]; simpl.
  - split; [discriminate | congruence].
  - destruct (String.eqb k' k); simpl; [split; [discriminate | reflexivity] | exact IH].
Qed.

Lemma actionAt_app m1 m2 k :
  actionAt (m1 ++ m2) k = orElse (actionAt m1 k) (actionAt m2 k).
Proof.
  unfold actionAt. induction m1 as [|[k' a] m1 IH]; simpl.
  - now destruct (List.find _ m2).
  - destruct (String.eqb k' k); simpl; [reflexivity | exact IH].
Qed.

Lemma actionAt_set m k v k' :
  actionAt (set m k v) k' =
  orElse (actionAt m k') (if String.eqb k k' then Some v else None).
Proof.
  unfold set. destruct (has m k) eqn:Hh.
  - apply has_actionAt in Hh. destruct (String.eqb k k') eqn:Hk.
    + apply String.eqb_eq in Hk. subst k'.
      destruct (actionAt m k); [reflexivity | congruence].
    + now destruct (actionAt m k').
  - rewrite actionAt_app. destruct (actionAt m k'); simpl; [reflexivity|].
    unfold actionAt. simpl. now destruct (String.eqb k k').
Qed.

Lemma fold_offer_actionAt act files m k :
  actionAt (fold_left (offer act) files m) k =
  orElse (actionAt m k) (firstAction act files k).
Proof.
  revert m. induction files as [|f files IH]; intros m; simpl.
  - now destruct (actionAt m k).
  - rewrite IH. unfold offer. destruct (act f) as [a|].
    + rewrite actionAt_set. destruct (actionAt m k); simpl; [reflexivity|].
      destruct (String.eqb (path f) k); reflexivity.
    + destruct (String.eqb (path f) k); reflexivity.
Qed.

(** Each loop body is an [offer]. *)
Lemma applyRemoteDeletion_offer hostFiles m f :
  applyRemoteDeletion hostFiles m f = offer (remoteDeletionAction hostFiles) m f.
Proof.
  unfold applyRemoteDeletion, offer, remoteDeletionAction.
  destruct (getFile hostFiles (path f)) as [h|] eqn:Hg; [|reflexivity].
  apply getFile_Some in Hg as [_ ->].
  destruct (deleted h); [reflexivity|].
  destruct (createdAt h <? deletedAt f); reflexivity.
Qed.

Lemma applyHostDeletion_offer remoteFiles m f :
  applyHostDeletion remoteFiles m f = offer (hostDeletionAction remoteFiles) m f.
Proof.
  unfold applyHostDeletion, offer, hostDeletionAction.
  destruct (getFile remoteFiles (path f)) as [r|] eqn:Hg; [|reflexivity].
  apply getFile_Some in Hg as [_ Hp].
  destruct (deleted r); [reflexivity|].
  destruct (createdAt r <? deletedAt f); rewrite ?Hp; reflexivity.
Qed.

Lemma applyHostModification_offer w remoteFiles m f :
  applyHostModification w remoteFiles m f =
  offer (hostModificationAction w remoteFiles) m f.
Proof.
  unfold applyHostModification, offer, hostModificationAction.
  destruct (getFile remoteFiles (path f)) as [r|]; [|reflexivity].
  destruct (updatedAt r <? updatedAt f); [reflexivity|].
  destruct (updatedAt r >? w); reflexivity.
Qed.

Lemma applyRemoteModification_offer w hostFiles m f :
  applyRemoteModification w hostFiles m f =
  offer (remoteModificationAction w hostFiles) m f.
Proof.
  unfold applyRemoteModification, offer, remoteModificationAction.
  destruct (getFile hostFiles (path f)) as [h|]; [|reflexivity].
  destruct (updatedAt h <? updatedAt f); [reflexivity|].
  destruct (updatedAt h >? w); reflexivity.
Qed.

Lemma fold_left_ext {A B} (f g : A -> B -> A) l a :
  (forall x y, f x y = g x y) -> fold_left f l a = fold_left g l a.
Proof.
  intros Hfg. revert a. induction l as [|y l IH]; intros a; simpl; [reflexivity|].
  now rewrite Hfg, IH.
Qed.

(** The map built by the four loops holds, under every key, the first
    proposal made for it. *)
Lemma createSyncMap_actionAt w hostFiles remoteFiles k :
  actionAt (createSyncMap w hostFiles remoteFiles) k = planned w hostFiles remoteFiles k.
Proof.
  unfold createSyncMap, planned.
  rewrite (fold_left_ext _ _ _ _ (applyRemoteModification_offer w hostFiles)).
  rewrite fold_offer_actionAt.
  rewrite (fold_left_ext _ _ _ _ (applyHostModification_offer w remoteFiles)).
  rewrite fold_offer_actionAt.
  rewrite (fold_left_ext _ _ _ _ (applyHostDeletion_offer remoteFiles)).
  rewrite fold_offer_actionAt.
  rewrite (fold_left_ext _ _ _ _ (applyRemoteDeletion_offer hostFiles)).
  rewrite fold_offer_actionAt. simpl.
  repeat match goal with |- context [firstAction ?a ?l ?k] =>
    destruct (firstAction a l k); simpl; try reflexivity end.
Qed.

(** *** Keys of the map: distinct, and the path of the action's records *)

Lemma has_false_not_In m k : has m k = false -> ~ In k (map fst m).
Proof.
  unfold has. intros Hh Hin. apply in_map_iff in Hin as [[k' a] [Hk Hin]].
  simpl in Hk. subst k'.
  assert (existsb (fun kv => String.eqb (fst kv) k) m = true) as Ht.
  { apply existsb_exists. exists (k, a). split; [exact Hin | apply String.eqb_refl]. }
  congruence.
Qed.

Lemma set_NoDup m k v : NoDup (map fst m) -> NoDup (map fst (set m k v)).
Proof.
  intros Hnd. unfold set. destruct (has m k) eqn:Hh; [exact Hnd|].
  rewrite map_app. simpl. apply NoDup_app; repeat split.
  - exact Hnd.
  - intros x Hx Hx'. apply list_elem_of_In in Hx, Hx'.
    destruct Hx' as [<-|[]]. now apply has_false_not_In in Hh.
  - apply NoDup_singleton.
Qed.

Lemma set_keyed m k v :
  keyed m ->
  ((forall h, hostFile v = Some h -> path h = k) /\
   (forall r, remoteFile v = Some r -> path r = k) /\
   (hostFile v <> None \/ remoteFile v <> None)) ->
  keyed (set m k v).
Proof.
  intros Hm Hv. unfold set. destruct (has m k); [exact Hm|].
  intros k' a Hin. apply in_app_or in Hin as [Hin|[Heq|[]]].
  - now apply Hm.
  - now inversion Heq; subst.
Qed.

Lemma fold_offer_inv act files m :
  wellKeyed act -> keyed m -> NoDup (map fst m) ->
  keyed (fold_left (offer act) files m) /\
  NoDup (map fst (fold_left (offer act) files m)).
Proof.
  intros Hact. revert m. induction files as [|f files IH]; intros m Hk Hnd; simpl.
  - now split.
  - apply IH; unfold offer; destruct (act f) as [a|] eqn:Ha; try assumption.
    + apply set_keyed; [exact Hk | now apply Hact].
    + now apply set_NoDup.
Qed.

Lemma remoteDeletionAction_wellKeyed hostFiles :
  wellKeyed (remoteDeletionAction hostFiles).
Proof.
  intros f a. unfold remoteDeletionAction.
  destruct (getFile hostFiles (path f)) as [h|] eqn:Hg; [|discriminate].
  apply getFile_Some in Hg as [_ Hp]. intros [= <-]. simpl.
  repeat split; try (intros ? [= <-]; congruence). now left.
Qed.

Lemma hostDeletionAction_wellKeyed remoteFiles :
  wellKeyed (hostDeletionAction remoteFiles).
Proof.
  intros f a. unfold hostDeletionAction.
  destruct (getFile remoteFiles (path f)) as [r|] eqn:Hg.
  - apply getFile_Some in Hg as [_ Hp]. destruct (deleted r); [discriminate|].
    intros [= <-]. simpl.
    repeat split; try (intros ? [= <-]; congruence). now left.
  - intros [= <-]. simpl.
    repeat split; try (intros ? [= <-]; congruence); try discriminate. now left.
Qed.

Lemma hostModificationAction_wellKeyed w remoteFiles :
  wellKeyed (hostModificationAction w remoteFiles).
Proof.
  intros f a. unfold hostModificationAction.
  destruct (getFile remoteFiles (path f)) as [r|] eqn:Hg.
  - apply getFile_Some in Hg as [_ Hp].
    destruct (updatedAt r <? updatedAt f);
      [|destruct (updatedAt r >? w); [|discriminate]];
      intros [= <-]; simpl;
      (repeat split; try (intros ? [= <-]; congruence); now left).
  - intros [= <-]. simpl.
    repeat split; try (intros ? [= <-]; congruence); try discriminate. now left.
Qed.

Lemma remoteModificationAction_wellKeyed w hostFiles :
  wellKeyed (remoteModificationAction w hostFiles).
Proof.
  intros f a. unfold remoteModificationAction.
  destruct (getFile hostFiles (path f)) as [h|] eqn:Hg.
  - apply getFile_Some in Hg as [_ Hp].
    destruct (updatedAt h <? updatedAt f);
      [|destruct (updatedAt h >? w); [|discriminate]];
      intros [= <-]; simpl;
      (repeat split; try (intros ? [= <-]; congruence); now left).
  - intros [= <-]. simpl.
    repeat split; try (intros ? [= <-]; congruence); try discriminate. now right.
Qed.

Lemma createSyncMap_inv w hostFiles remoteFiles :
  keyed (createSyncMap w hostFiles remoteFiles) /\
  NoDup (map fst (createSyncMap w hostFiles remoteFiles)).
Proof.
  unfold createSyncMap.
  rewrite (fold_left_ext _ _ _ _ (applyRemoteModification_offer w hostFiles)).
  rewrite (fold_left_ext _ _ _ _ (applyHostModification_offer w remoteFiles)).
  rewrite (fold_left_ext _ _ _ _ (applyHostDeletion_offer remoteFiles)).
  rewrite (fold_left_ext _ _ _ _ (applyRemoteDeletion_offer hostFiles)).
  set (m0 := @nil (string * SyncAction)).
  assert (keyed m0 /\ NoDup (map fst m0)) as [K0 N0].
  { split; [intros ? ? [] | apply NoDup_nil_2]. }
  destruct (fold_offer_inv _ (List.filter (fun file => deleted file) remoteFiles) m0
              (remoteDeletionAction_wellKeyed hostFiles) K0 N0) as [K1 N1].
  destruct (fold_offer_inv _ (List.filter (fun file => deleted file) hostFiles) _
              (hostDeletionAction_wellKeyed remoteFiles) K1 N1) as [K2 N2].
  destruct (fold_offer_inv _ (List.filter (fun file => negb (deleted file)) hostFiles) _
              (hostModificationAction_wellKeyed w remoteFiles) K2 N2) as [K3 N3].
  exact (fold_offer_inv _ (List.filter (fun file => negb (deleted file)) remoteFiles) _
           (remoteModificationAction_wellKeyed w hostFiles) K3 N3).
Qed.

Lemma actionAt_In m k a : actionAt m k = Some a -> In (k, a) m.
Proof.
  unfold actionAt. destruct (List.find _ m) as [[k' a']|] eqn:Hf; [|discriminate].
  simpl. intros [= ->]. apply find_some in Hf as [Hin Hk].
  simpl in Hk. apply String.eqb_eq in Hk. now subst.
Qed.

Lemma In_actionAt m k a : NoDup (map fst m) -> In (k, a) m -> actionAt m k = Some a.
Proof.
  unfold actionAt. induction m as [|[k' a'] m IH]; simpl; intros Hnd Hin; [easy|].
  apply NoDup_cons in Hnd as [Hk' Hnd].
  destruct Hin as [[= -> ->]|Hin].
  - now rewrite String.eqb_refl.
  - destruct (String.eqb k' k) eqn:Hk; [|now apply IH].
    apply String.eqb_eq in Hk. subst k'. exfalso. apply Hk'.
    apply list_elem_of_In, in_map_iff. now exists (k, a).
Qed.

(** The returned array holds exactly the planned actions. *)
Lemma createSyncAction_In w hostFiles remoteFiles a :
  In a (createSyncAction w hostFiles remoteFiles) <->
  exists k, planned w hostFiles remoteFiles k = Some a.
Proof.
  unfold createSyncAction. destruct (createSyncMap_inv w hostFiles remoteFiles) as [_ Hnd].
  split.
  - intros Hin. apply in_map_iff in Hin as [[k a'] [Heq Hin]]. simpl in Heq. subst a'.
    exists k. rewrite <- createSyncMap_actionAt. now apply In_actionAt.
  - intros [k Hk]. rewrite <- createSyncMap_actionAt in Hk.
    apply actionAt_In in Hk. apply in_map_iff. now exists (k, a).
Qed.

Lemma planned_concerns w hostFiles remoteFiles k a p :
  planned w hostFiles remoteFiles k = Some a -> concerns p a -> k = p.
Proof.
  intros Hk Hc. rewrite <- createSyncMap_actionAt in Hk. apply actionAt_In in Hk.
  destruct (createSyncMap_inv w hostFiles remoteFiles) as [Hkeyed _].
  destruct (Hkeyed _ _ Hk) as (Hh & Hr & _).
  destruct Hc as [(h & Hh' & <-)|(r & Hr' & <-)]; symmetry; auto.
Qed.

(** Nothing planned for a path: no returned action is about it. *)
Lemma planned_None_no_action w hostFiles remoteFiles p :
  planned w hostFiles remoteFiles p = None ->
  forall a, In a (createSyncAction w hostFiles remoteFiles) -> ~ concerns p a.
Proof.
  intros Hp a Hin Hc. apply createSyncAction_In in Hin as [k Hk].
  assert (k = p) by (eapply planned_concerns; eauto). subst k. congruence.
Qed.

(** An action planned for a path is returned, is about that path, and is
    the only returned action about it. *)
Lemma planned_Some_only_action w hostFiles remoteFiles p a :
  planned w hostFiles remoteFiles p = Some a ->
  In a (createSyncAction w hostFiles remoteFiles) /\
  concerns p a /\
  forall a', In a' (createSyncAction w hostFiles remoteFiles) -> concerns p a' -> a' = a.
Proof.
  intros Hp. split; [apply createSyncAction_In; eauto|]. split.
  - pose proof Hp as Hk. rewrite <- createSyncMap_actionAt in Hk. apply actionAt_In in Hk.
    destruct (createSyncMap_inv w hostFiles remoteFiles) as [Hkeyed _].
    destruct (Hkeyed _ _ Hk) as (Hh & Hr & [Hne|Hne]).
    + left. destruct (hostFile a) as [h|]; [|congruence]. exists h. split; auto.
    + right. destruct (remoteFile a) as [r|]; [|congruence]. exists r. split; auto.
  - intros a' Hin Hc. apply createSyncAction_In in Hin as [k Hk].
    assert (k = p) by (eapply planned_concerns; eauto). subst k. congruence.
Qed.

End PlannerFacts.

Module PlannerTheorems.
Import PlanSpec PlannerFacts.

Lemma firstAction_None act files k :
  (forall f, In f files -> path f = k -> act f = None) ->
  firstAction act files k = None.
Proof.
  induction files as [|f files IH]; intros Hall; simpl; [reflexivity|].
  destruct (String.eqb (path f) k) eqn:Hk.
  - apply String.eqb_eq in Hk. rewrite (Hall f (or_introl eq_refl) Hk).
    apply IH. intros; apply Hall; [now right | assumption].
  - apply IH. intros; apply Hall; [now right | assumption].
Qed.

Lemma firstAction_absent act files k :
  (forall f, In f files -> path f <> k) -> firstAction act files k = None.
Proof.
  intros Hall. apply firstAction_None. intros f Hin Hp. now apply Hall in Hin.
Qed.

Lemma firstAction_unique act files f :
  In f files ->
  (forall f', In f' files -> path f' = path f -> f' = f) ->
  firstAction act files (path f) = act f.
Proof.
  induction files as [|g files IH]; intros Hin Huniq; simpl; [destruct Hin|].
  destruct (String.eqb (path g) (path f)) eqn:Hk.
  - apply String.eqb_eq in Hk.
    assert (g = f) as -> by (apply Huniq; [now left | exact Hk]).
    destruct (act f) eqn:Ha; [reflexivity|].
    apply firstAction_None. intros f' Hf' Hp.
    assert (f' = f) as -> by (apply Huniq; [now right | exact Hp]). exact Ha.
  - destruct Hin as [->|Hin]; [now rewrite String.eqb_refl in Hk|].
    apply IH; [exact Hin|]. intros; apply Huniq; [now right | assumption].
Qed.

Lemma NoDup_path_unique files f :
  NoDup (map path files) -> In f files ->
  forall f', In f' files -> path f' = path f -> f' = f.
Proof.
  induction files as [|g files IH]; simpl; intros Hnd Hin f' Hin' Hp; [destruct Hin|].
  apply NoDup_cons in Hnd as [Hg Hnd].
  assert (forall x, In x files -> path x <> path g) as Hfresh.
  { intros x Hx Heq. apply Hg. rewrite <- Heq.
    apply list_elem_of_In, in_map. exact Hx. }
  destruct Hin as [->|Hin], Hin' as [->|Hin']; try reflexivity.
  - now apply Hfresh in Hin'.
  - apply Hfresh in Hin. now symmetry in Hp.
  - now apply IH.
Qed.

Lemma getFile_unique files f :
  In f files ->
  (forall f', In f' files -> path f' = path f -> f' = f) ->
  getFile files (path f) = Some f.
Proof.
  intros Hin Huniq. destruct (getFile files (path f)) as [g|] eqn:Hg.
  - apply getFile_Some in Hg as [Hg Hp]. f_equal. now apply Huniq.
  - now apply (getFile_None _ _ Hg) in Hin.
Qed.

(** C3. For a remote tombstone [rd] that is the only remote record at its
    path: with no host record at that path, no planned action is about the
    path (so neither a prune nor a remove); with a host record [h], the one
    action about the path pairs [h] with [rd] and is a prune when [h] is a
    tombstone too, a remove when [h] is live and was created strictly
    before the tombstone's [deletedAt], and a push otherwise. *)
Theorem remote_tombstone_plan w hostFiles remoteFiles rd :
  In rd remoteFiles -> deleted rd = true ->
  (forall r, In r remoteFiles -> path r = path rd -> r = rd) ->
  match getFile hostFiles (path rd) with
  | None => noActionFor (path rd) (createSyncAction w hostFiles remoteFiles)
  | Some h =>
      let planned_action :=
        createAction (Some h) (Some rd)
          (if deleted h then Prune
           else if createdAt h <? deletedAt rd then Remove else Push) in
      In planned_action (createSyncAction w hostFiles remoteFiles) /\
      forall a, In a (createSyncAction w hostFiles remoteFiles) ->
                concerns (path rd) a -> a = planned_action
  end.
Proof.
  intros Hin Hdel Huniq.
  assert (firstAction (remoteDeletionAction hostFiles)
            (List.filter (fun file => deleted file) remoteFiles) (path rd)
          = remoteDeletionAction hostFiles rd) as H1.
  { apply firstAction_unique.
    - apply filter_In. now split.
    - intros f' Hf' Hp. apply filter_In in Hf' as [Hf' _]. now apply Huniq. }
  destruct (getFile hostFiles (path rd)) as [h|] eqn:Hg.
  - assert (planned w hostFiles remoteFiles (path rd) =
            Some (createAction (Some h) (Some rd)
                    (if deleted h then Prune
                     else if createdAt h <? deletedAt rd then Remove else Push))) as Hp.
    { unfold planned. rewrite H1. unfold remoteDeletionAction. now rewrite Hg. }
    apply planned_Some_only_action in Hp as (Hin' & _ & Honly). now split.
  - unfold noActionFor. apply planned_None_no_action. unfold planned. rewrite H1.
    unfold remoteDeletionAction at 1. rewrite Hg. simpl.
    rewrite !firstAction_absent; [reflexivity|..].
    + intros f Hf Hp. apply filter_In in Hf as [Hf Hlive].
      rewrite (Huniq f Hf Hp), Hdel in Hlive. discriminate.
    + intros f Hf. apply filter_In in Hf as [Hf _]. now apply (getFile_None _ _ Hg).
    + intros f Hf. apply filter_In in Hf as [Hf _]. now apply (getFile_None _ _ Hg).
Qed.

Lemma remote_tombstone_plan_witness :
  let h := mkFile "x.txt" 4 40 45 45 false in
  let rd := mkFile "x.txt" 0 50 50 50 true in
  In (createAction (Some h) (Some rd) Remove) (createSyncAction 0 [h] [rd]) /\
  forall a, In a (createSyncAction 0 [h] [rd]) -> concerns "x.txt" a ->
            a = createAction (Some h) (Some rd) Remove.
Proof.
  intros h rd.
  apply (remote_tombstone_plan 0 [h] [rd] rd).
  - now left.
  - reflexivity.
  - intros r [<-|[]] _. reflexivity.
Defined.

(** C1 (amended). When a path has a live record on the host and a live
    record on the remote with the same [updatedAt], each store holding one
    record per path, and that [updatedAt] is not later than the watermark,
    no planned action is about the path. *)
Theorem plan_identical_no_action w hostFiles remoteFiles h r :
  NoDup (map path hostFiles) -> NoDup (map path remoteFiles) ->
  In h hostFiles -> In r remoteFiles -> path h = path r ->
  deleted h = false -> deleted r = false ->
  updatedAt h = updatedAt r ->
  updatedAt r <= w ->
  noActionFor (path h) (createSyncAction w hostFiles remoteFiles).
Proof.
  intros Hndh Hndr Hh Hr Hp Hlh Hlr Heq Hw.
  pose proof (NoDup_path_unique _ _ Hndh Hh) as Huh.
  pose proof (NoDup_path_unique _ _ Hndr Hr) as Hur.
  unfold noActionFor. apply planned_None_no_action. unfold planned.
  rewrite (firstAction_absent _ (List.filter (fun file => deleted file) remoteFiles)).
  2:{ intros f Hf Hpf. apply filter_In in Hf as [Hf Hd].
      rewrite Hp in Hpf. rewrite (Hur f Hf Hpf), Hlr in Hd. discriminate. }
  rewrite (firstAction_absent _ (List.filter (fun file => deleted file) hostFiles)).
  2:{ intros f Hf Hpf. apply filter_In in Hf as [Hf Hd].
      rewrite (Huh f Hf Hpf), Hlh in Hd. discriminate. }
  simpl.
  rewrite (firstAction_unique _ _ h).
  2:{ apply filter_In. split; [exact Hh | now rewrite Hlh]. }
  2:{ intros f Hf Hpf. apply filter_In in Hf as [Hf _]. now apply Huh. }
  unfold hostModificationAction at 1.
  rewrite Hp, (getFile_unique _ _ Hr Hur).
  replace (updatedAt r <? updatedAt h) with false by (symmetry; apply Z.ltb_ge; lia).
  replace (updatedAt r >? w) with false by (symmetry; rewrite Z.gtb_ltb; apply Z.ltb_ge; lia).
  simpl.
  rewrite (firstAction_unique _ _ r).
  2:{ apply filter_In. split; [exact Hr | now rewrite Hlr]. }
  2:{ intros f Hf Hpf. apply filter_In in Hf as [Hf _]. now apply Hur. }
  unfold remoteModificationAction.
  rewrite <- Hp, (getFile_unique _ _ Hh Huh).
  replace (updatedAt h <? updatedAt r) with false by (symmetry; apply Z.ltb_ge; lia).
  replace (updatedAt h >? w) with false by (symmetry; rewrite Z.gtb_ltb; apply Z.ltb_ge; lia).
  reflexivity.
Qed.

Lemma plan_identical_no_action_witness :
  let f := mkFile "a.bin" 3 50 100 100 false in
  noActionFor "a.bin" (createSyncAction 100 [f] [f]).
Proof.
  intros f.
  apply (plan_identical_no_action 100 [f] [f] f f);
    simpl; try reflexivity; try lia; try (now left); apply NoDup_singleton.
Defined.

(** C1 as stated fails: with watermark 0, two identical live records
    updated at 100 are planned as a conflict. *)
Lemma plan_identical_any_watermark_counterexample :
  ~ (forall w hostFiles remoteFiles h r,
       NoDup (map path hostFiles) -> NoDup (map path remoteFiles) ->
       In h hostFiles -> In r remoteFiles -> h = r ->
       deleted h = false ->
       noActionFor (path h) (createSyncAction w hostFiles remoteFiles)).
Proof.
  intros Hclaim.
  pose (f := mkFile "a.bin" 3 50 100 100 false).
  apply (Hclaim 0 [f] [f] f f (NoDup_singleton _) (NoDup_singleton _)
           (or_introl eq_refl) (or_introl eq_refl) eq_refl eq_refl
           (createAction (Some f) (Some f) Conflict)).
  - now left.
  - left. now exists f.
Qed.

(** *** The scenarios of the spec *)

(** A: a host note updated at 100 with no remote record is pushed. *)
Example scenario_push_new_note :
  createSyncAction 0 [mkFile "notes/a.md" 1 100 100 100 false] [] =
  [createAction (Some (mkFile "notes/a.md" 1 100 100 100 false)) None Push].
Proof. reflexivity. Qed.

(** B: a host tombstone deleted at 50 against a remote file created at 40
    is a remove. *)
Example scenario_remove_older_remote :
  map action (createSyncAction 0 [mkFile "x.txt" 0 50 50 50 true]
                [mkFile "x.txt" 1 40 40 40 false]) = [Remove].
Proof. reflexivity. Qed.

(** C: host updated at 200, remote at 150, watermark 100: a push. *)
Example scenario_push_newer_host :
  map action (createSyncAction 100 [mkFile "config.json" 1 10 200 200 false]
                [mkFile "config.json" 1 10 150 150 false]) = [Push].
Proof. reflexivity. Qed.

(** D: host updated at 200, remote at 250, watermark 100: a conflict. *)
Example scenario_conflict :
  map action (createSyncAction 100 [mkFile "config.json" 1 10 200 200 false]
                [mkFile "config.json" 1 10 250 250 false]) = [Conflict].
Proof. reflexivity. Qed.

(** E: a tombstone on both sides is pruned. *)
Example scenario_prune :
  map action (createSyncAction 100 [mkFile "old.md" 0 60 60 60 true]
                [mkFile "old.md" 0 50 50 50 true]) = [Prune].
Proof. reflexivity. Qed.

(** The first writer wins: with two remote tombstones for one path, the
    action of the first one stays. *)
Example scenario_first_writer_wins :
  map action (createSyncAction 0 [mkFile "x.txt" 1 50 50 50 false]
                [mkFile "x.txt" 0 10 10 10 true; mkFile "x.txt" 0 100 100 100 true])
  = [Push].
Proof. reflexivity. Qed.

End PlannerTheorems.

(** * Properties of the conflict resolver *)

Module ResolverTheorems.
Import JsString ConflictResolver.

Lemma split_nonempty sep s : split sep s <> [].
Proof.
  destruct s as [|c s]; simpl; [discriminate|].
  destruct (Ascii.eqb c sep); [discriminate|].
  destruct (split sep s); discriminate.
Qed.

Lemma split_absent sep s : absent sep s -> split sep s = [s].
Proof.
  induction s as [|c s IH]; simpl; [reflexivity|]. intros [Hc Hs].
  apply Ascii.eqb_neq in Hc. rewrite Hc, (IH Hs). reflexivity.
Qed.

(** Splitting distributes over an occurrence of the separator. *)
Lemma split_app sep a b :
  split sep (a ++ String sep b)%string = split sep a ++ split sep b.
Proof.
  induction a as [|c a IH]; simpl.
  - now rewrite Ascii.eqb_refl.
  - rewrite IH. destruct (Ascii.eqb c sep); [reflexivity|].
    pose proof (split_nonempty sep a). destruct (split sep a); [congruence | reflexivity].
Qed.

Lemma pop_snoc l x : pop (l ++ [x]) = Some x.
Proof.
  unfold pop. rewrite map_app. simpl. apply last_last.
Qed.

(** The extension of [base.ext] is [ext] when [ext] has no dot. *)
Lemma getExtension_suffix f base ext :
  path f = (base ++ String "." ext)%string -> absent "." ext ->
  getExtension f = Some ext.
Proof.
  intros Hp Hext. unfold getExtension.
  rewrite Hp, split_app, (split_absent _ _ Hext). apply pop_snoc.
Qed.

Lemma getExtension_no_dot f : absent "." (path f) -> getExtension f = Some (path f).
Proof.
  intros Hp. unfold getExtension. now rewrite (split_absent _ _ Hp).
Qed.

Lemma includes_In l x : includes l x = true <-> In x l.
Proof.
  unfold includes. rewrite existsb_exists. split.
  - intros (y & Hin & Hy). apply String.eqb_eq in Hy. now subst.
  - intros Hin. exists x. split; [exact Hin | apply String.eqb_refl].
Qed.

Lemma occurs_absent c s : occurs c s = false <-> absent c s.
Proof.
  induction s as [|d s IH]; simpl; [tauto|].
  rewrite orb_false_iff, IH, Ascii.eqb_neq. tauto.
Qed.

Lemma afterLast_absent c s : occurs c s = false -> afterLast c s = s.
Proof.
  destruct s as [|d s]; simpl; [reflexivity|].
  intros [Hd ->]%orb_false_iff. now rewrite Hd.
Qed.

(** A string in which the separator occurs splits into two pieces or more. *)
Lemma split_occurs c s :
  occurs c s = true -> exists hd x tl, split c s = hd :: x :: tl.
Proof.
  induction s as [|d s IH]; simpl; [discriminate|].
  destruct (Ascii.eqb d c) eqn:Hd; simpl.
  - intros _. pose proof (split_nonempty c s).
    destruct (split c s) as [|x tl]; [congruence|]. now exists ""%string, x, tl.
  - intros Hs. destruct (IH Hs) as (hd & x & tl & ->). now exists (String d hd), x, tl.
Qed.

Lemma pop_cons x y l : pop (x :: y :: l) = pop (y :: l).
Proof. reflexivity. Qed.

(** [path.split('.').pop()] is what follows the last dot of the path, and
    the whole path when it has no dot. *)
Lemma pop_split_afterLast c s : pop (split c s) = Some (afterLast c s).
Proof.
  induction s as [|d s IH]; [reflexivity|].
  cbn [split afterLast]. destruct (occurs c s) eqn:Hs.
  - destruct (split_occurs c s Hs) as (hd & x & tl & Hsplit).
    rewrite Hsplit in IH |- *.
    destruct (Ascii.eqb d c); rewrite !pop_cons; rewrite pop_cons in IH; exact IH.
  - rewrite (split_absent c s) by now apply occurs_absent.
    rewrite (afterLast_absent c s Hs) in IH.
    destruct (Ascii.eqb d c); reflexivity.
Qed.

Lemma getExtension_afterLast f : getExtension f = Some (extensionOf f).
Proof. apply pop_split_afterLast. Qed.

(** The array literal of [isTextBasedFile] lists the twelve extensions. *)
Lemma isTextBasedFile_allowList f :
  isTextBasedFile f = true <-> In (extensionOf f) textAllowList.
Proof.
  unfold isTextBasedFile. rewrite getExtension_afterLast, includes_In.
  unfold textExtensions, textAllowList. simpl. tauto.
Qed.

Lemma isTextBasedFile_other f :
  isTextBasedFile f = false <-> ~ In (extensionOf f) textAllowList.
Proof.
  rewrite <- isTextBasedFile_allowList. now destruct (isTextBasedFile f).
Qed.

Lemma allowList_no_dot ext : In ext textAllowList -> absent "." ext.
Proof.
  unfold textAllowList. simpl. intros Hin.
  repeat (destruct Hin as [<-|Hin]; [simpl; repeat split; discriminate|]).
  destruct Hin.
Qed.

Lemma flattenRules_app rules1 rules2 :
  flattenRules (rules1 ++ rules2) = flattenRules rules1 ++ flattenRules rules2.
Proof. unfold flattenRules. apply flat_map_app. Qed.

Lemma flattenRules_cons obj rules :
  flattenRules (obj :: rules) =
  map (fun g => {| glob := trim g; strategy := strategy obj |}) (split "," (glob obj))
  ++ flattenRules rules.
Proof. unfold flattenRules. simpl. now rewrite map_map. Qed.

Section Classify.
Context {matcher : Minimatch}.
Import ClassifySpec.









(** A path that ends in a dot and an allow-listed extension is classified
    [resolve] when the search of the rules returns, whatever the rules
    and the fallback are. *)
Lemma text_suffix_resolves settings hostFile remoteFile base ext s :
  path hostFile = (base ++ String "." ext)%string -> In ext textAllowList ->
  getResolutionStrategy settings hostFile remoteFile = Ok s ->
  s = Settings.resolve.
Proof.
  intros Hp Hext. unfold getResolutionStrategy.
  assert (isTextBasedFile hostFile = true) as ->.
  { unfold isTextBasedFile.
    rewrite (getExtension_suffix _ base ext Hp (allowList_no_dot _ Hext)).
    apply includes_In. unfold textAllowList in Hext. unfold textExtensions.
    simpl in *. tauto. }
  destruct (findThrowing _ _); [now intros [= <-] | discriminate].
Qed.

End Classify.



Section Merge.
Context {merger : Reconcile}.

(** C6. [resolve] takes as older the snapshot with the strictly smaller
    [updatedAt] (the remote one on a tie) and returns
    [reconcile(older, older, newer)]. *)
Theorem resolve_older_is_base hostFile remoteFile hostFileContent remoteFileContent :
  (updatedAt hostFile < updatedAt remoteFile ->
   ConflictResolver.resolve hostFile remoteFile hostFileContent remoteFileContent =
   reconcile hostFileContent hostFileContent remoteFileContent) /\
  (updatedAt remoteFile < updatedAt hostFile ->
   ConflictResolver.resolve hostFile remoteFile hostFileContent remoteFileContent =
   reconcile remoteFileContent remoteFileContent hostFileContent) /\
  (updatedAt hostFile = updatedAt remoteFile ->
   ConflictResolver.resolve hostFile remoteFile hostFileContent remoteFileContent =
   reconcile remoteFileContent remoteFileContent hostFileContent).
Proof.
  unfold ConflictResolver.resolve. repeat split; intros Hlt.
  - apply Z.ltb_lt in Hlt. now rewrite Hlt.
  - assert ((updatedAt hostFile <? updatedAt remoteFile) = false) as ->
      by (apply Z.ltb_ge; lia). reflexivity.
  - assert ((updatedAt hostFile <? updatedAt remoteFile) = false) as ->
      by (apply Z.ltb_ge; lia). reflexivity.
Qed.

End Merge.

Lemma resolve_older_is_base_witness :
  ConflictResolver.resolve (merger := Doubles.appendMerge)
    (mkFile "config.json" 2 1 200 200 false) (mkFile "config.json" 2 1 250 250 false)
    "h" "r" = "hr"
  /\ ConflictResolver.resolve (merger := Doubles.appendMerge)
    (mkFile "config.json" 2 1 300 300 false) (mkFile "config.json" 2 1 250 250 false)
    "h" "r" = "rh".
Proof.
  split.
  - apply (proj1 (resolve_older_is_base (merger := Doubles.appendMerge)
             (mkFile "config.json" 2 1 200 200 false)
             (mkFile "config.json" 2 1 250 250 false) "h" "r")).
    simpl. lia.
  - apply (proj1 (proj2 (resolve_older_is_base (merger := Doubles.appendMerge)
             (mkFile "config.json" 2 1 300 300 false)
             (mkFile "config.json" 2 1 250 250 false) "h" "r"))).
    simpl. lia.
Defined.

End ResolverTheorems.

(** * Properties of the applier *)

Module ApplierFacts.
Import SyncController Trace.

Section Generic.
Context {HS RS : Type} {hostFs : FileSystem HS} {remoteFs : FileSystem RS}.
Context {matcher : Minimatch} {merger : Reconcile} {crypto : Crypto}.

Abbreviation M := (M HS RS).
Abbreviation World := (World HS RS).
Abbreviation handleConflict :=
  (handleConflict (hostFs := hostFs) (remoteFs := remoteFs)).
Abbreviation applySyncActionRec :=
  (applySyncActionRec (hostFs := hostFs) (remoteFs := remoteFs)).
Abbreviation applySyncAction :=
  (applySyncAction (hostFs := hostFs) (remoteFs := remoteFs)).
Abbreviation applyAll := (applyAll (hostFs := hostFs) (remoteFs := remoteFs)).

Lemma bind_ext {A B} (m : M A) (k k' : A -> M B) w :
  (forall x w', k x w' = k' x w') -> bind m k w = bind m k' w.
Proof.
  intros Hk. unfold bind. destruct (m w) as [[x|e] w']; [apply Hk | reflexivity].
Qed.

Lemma emits_ret {A} P (x : A) : emits P (ret x : M A).
Proof. intros w. exists []. simpl. now rewrite app_nil_r. Qed.

Lemma emits_lift {A} P (r : Result A) : emits P (lift r : M A).
Proof. intros w. exists []. simpl. now rewrite app_nil_r. Qed.

Lemma emits_getSettings P : emits P (getSettings : M Settings).
Proof. intros w. exists []. simpl. now rewrite app_nil_r. Qed.

Lemma emits_onHost {A} (P : Event -> Prop) c (op : HS -> Result A * HS) :
  P (OnHost c) -> emits P (onHost c op : M A).
Proof.
  intros HP w. exists [OnHost c]. unfold onHost.
  destruct (op (host w)). simpl. split; [reflexivity | now constructor].
Qed.

Lemma emits_onRemote {A} (P : Event -> Prop) c (op : RS -> Result A * RS) :
  P (OnRemote c) -> emits P (onRemote c op : M A).
Proof.
  intros HP w. exists [OnRemote c]. unfold onRemote.
  destruct (op (remote w)). simpl. split; [reflexivity | now constructor].
Qed.

Lemma emits_bind {A B} P (m : M A) (k : A -> M B) :
  emits P m -> (forall x, emits P (k x)) -> emits P (bind m k).
Proof.
  intros Hm Hk w. unfold bind. destruct (Hm w) as (e1 & H1 & F1).
  destruct (m w) as [[x|e] w1]; simpl in *.
  - destruct (Hk x w1) as (e2 & H2 & F2). exists (e1 ++ e2).
    rewrite H2, H1, app_assoc. split; [reflexivity | now apply Forall_app].
  - now exists e1.
Qed.

Lemma keeps_ret {A} (x : A) : keepsSettings (ret x : M A).
Proof. now intros w. Qed.

Lemma keeps_lift {A} (r : Result A) : keepsSettings (lift r : M A).
Proof. now intros w. Qed.

Lemma keeps_getSettings : keepsSettings (getSettings : M Settings).
Proof. now intros w. Qed.

Lemma keeps_onHost {A} c (op : HS -> Result A * HS) : keepsSettings (onHost c op : M A).
Proof. intros w. unfold onHost. now destruct (op (host w)). Qed.

Lemma keeps_onRemote {A} c (op : RS -> Result A * RS) :
  keepsSettings (onRemote c op : M A).
Proof. intros w. unfold onRemote. now destruct (op (remote w)). Qed.

Lemma keeps_bind {A B} (m : M A) (k : A -> M B) :
  keepsSettings m -> (forall x, keepsSettings (k x)) -> keepsSettings (bind m k).
Proof.
  intros Hm Hk w. unfold bind. specialize (Hm w).
  destruct (m w) as [[x|e] w1]; simpl in *; [|exact Hm].
  now rewrite Hk.
Qed.

Ltac step_emits :=
  repeat match goal with
    | |- emits _ (ret _) => apply emits_ret
    | |- emits _ (lift _) => apply emits_lift
    | |- emits _ getSettings => apply emits_getSettings
    | |- emits _ (onHost _ _) => apply emits_onHost
    | |- emits _ (onRemote _ _) => apply emits_onRemote
    | |- emits _ (bind _ _) => apply emits_bind; [|intros ?]
    end.

Ltac step_keeps :=
  repeat match goal with
    | |- keepsSettings (ret _) => apply keeps_ret
    | |- keepsSettings (lift _) => apply keeps_lift
    | |- keepsSettings getSettings => apply keeps_getSettings
    | |- keepsSettings (onHost _ _) => apply keeps_onHost
    | |- keepsSettings (onRemote _ _) => apply keeps_onRemote
    | |- keepsSettings (bind _ _) => apply keeps_bind; [|intros ?]
    end.

Lemma handleConflict_emits P h r : allowsApplier P -> emits P (handleConflict h r).
Proof.
  intros (Hp & Hhr & Hrr & Hhg & Hrg & Hhu & Hru). unfold handleConflict.
  unfold hostGetFileContent, remoteGetFileContent.
  step_emits; auto.
  match goal with |- emits _ (match ?x with resolve => _ | _ => _ end) =>
    destruct x end; step_emits.
Qed.

Lemma handleConflict_keeps h r : keepsSettings (handleConflict h r).
Proof.
  unfold handleConflict, hostGetFileContent, remoteGetFileContent.
  step_keeps.
  match goal with |- keepsSettings (match ?x with resolve => _ | _ => _ end) =>
    destruct x end; step_keeps.
Qed.

Lemma applySyncActionRec_emits P depth a now :
  allowsApplier P -> emits P (applySyncActionRec depth a now).
Proof.
  intros HP. pose proof HP as (Hp & Hhr & Hrr & Hhg & Hrg & Hhu & Hru).
  revert a. induction depth as [|depth IH]; intros a;
    cbn [SyncController.applySyncActionRec]; [apply emits_lift|].
  unfold hostPrune, hostRemove, remoteRemove, hostUpdate, remoteUpdate,
    hostGetFileContent, remoteGetFileContent.
  destruct (action a).
  - destruct (hostFile a); step_emits; auto.
  - destruct (remoteFile a), (hostFile a); step_emits; auto.
  - destruct (hostFile a) as [h|], (remoteFile a) as [r|]; try apply emits_ret.
    apply emits_bind; [now apply handleConflict_emits|].
    intros [[] [d|]]; try apply IH; step_emits; auto.
  - destruct (hostFile a); step_emits; auto.
  - destruct (remoteFile a); step_emits; auto.
Qed.

Lemma applySyncActionRec_keeps depth a now :
  keepsSettings (applySyncActionRec depth a now).
Proof.
  revert a. induction depth as [|depth IH]; intros a;
    cbn [SyncController.applySyncActionRec]; [apply keeps_lift|].
  unfold hostPrune, hostRemove, remoteRemove, hostUpdate, remoteUpdate,
    hostGetFileContent, remoteGetFileContent.
  destruct (action a).
  - destruct (hostFile a); step_keeps.
  - destruct (remoteFile a), (hostFile a); step_keeps.
  - destruct (hostFile a) as [h|], (remoteFile a) as [r|]; try apply keeps_ret.
    apply keeps_bind; [apply handleConflict_keeps|].
    intros [[] [d|]]; try apply IH; step_keeps; auto.
  - destruct (hostFile a); step_keeps.
  - destruct (remoteFile a); step_keeps.
Qed.

(** The recursion of [applySyncAction] never goes deeper than two calls:
    any larger bound gives the same run. *)
Lemma applySyncActionRec_depth n a now w :
  applySyncActionRec (S (S n)) a now w = applySyncAction a now w.
Proof.
  unfold applySyncAction.
  change (applySyncActionRec (S (S n)) a now w) with
    ((fix body (k : nat) := applySyncActionRec (S k) a now w) (S n)).
  simpl. destruct (action a); try reflexivity.
  destruct (hostFile a) as [h|], (remoteFile a) as [r|]; try reflexivity.
  apply bind_ext. intros [[] d] w'; try reflexivity;
    try destruct (updatedAt h <? updatedAt r); reflexivity.
Qed.

Lemma applyAll_emits P actions now :
  allowsApplier P -> emits P (applyAll actions now).
Proof.
  intros HP. induction actions as [|a actions IH]; simpl; [apply emits_ret|].
  apply emits_bind; [now apply applySyncActionRec_emits | intros _; exact IH].
Qed.

Lemma applyAll_keeps actions now : keepsSettings (applyAll actions now).
Proof.
  induction actions as [|a actions IH]; simpl; [apply keeps_ret|].
  apply keeps_bind; [apply applySyncActionRec_keeps | intros _; exact IH].
Qed.

End Generic.

End ApplierFacts.

Module ApplierTheorems.
Import SyncController Trace Watermark ApplierFacts.

Section Generic.
Context {HS RS : Type} {hostFs : FileSystem HS} {remoteFs : FileSystem RS}.
Context {matcher : Minimatch} {merger : Reconcile} {crypto : Crypto}.

Abbreviation M := (M HS RS).
Abbreviation World := (World HS RS).
Abbreviation applySyncAction :=
  (applySyncAction (hostFs := hostFs) (remoteFs := remoteFs)).
Abbreviation applyAll := (applyAll (hostFs := hostFs) (remoteFs := remoteFs)).
Abbreviation sync := (sync (hostFs := hostFs) (remoteFs := remoteFs)).

Lemma short_log_in_order (e1 e2 : Event) :
  isHostRemove e1 = false ->
  ~ hostRemoveBeforeRemoteRemove [e1; e2].
Proof.
  intros He1 (i & j & x & y & Hij & Hi & Hj & Hx & Hy).
  destruct i as [|i].
  - simpl in Hi. injection Hi as <-. congruence.
  - destruct j as [|[|j]]; [lia | lia | discriminate Hj].
Qed.

Lemma single_log_in_order (e : Event) : ~ hostRemoveBeforeRemoteRemove [e].
Proof.
  intros (i & j & x & y & Hij & Hi & Hj & Hx & Hy).
  destruct j as [|j]; [lia | discriminate Hj].
Qed.

Lemma empty_log_in_order : ~ hostRemoveBeforeRemoteRemove [].
Proof. intros (i & j & x & y & Hij & Hi & Hj & Hx & Hy). discriminate Hi. Qed.

(** C7. Applying a remove action never logs a host deletion before a
    remote deletion. With both records present the remote store's
    [remove] is called first; the host store's [remove] follows only
    when the remote call has returned, and is not called at all when the
    remote call throws. *)
Theorem remove_remote_before_host a now (w : World) :
  action a = Remove ->
  exists evs,
    calls (snd (applySyncAction a now w)) = calls w ++ evs /\
    ~ hostRemoveBeforeRemoteRemove evs /\
    forall r h, remoteFile a = Some r -> hostFile a = Some h ->
      match fst (remove (path r) (updatedAt r) now (remote w)) with
      | Ok _ =>
          evs = [OnRemote (CallRemove (path r) (updatedAt r) now);
                 OnHost (CallRemove (path h) (updatedAt h) now)]
      | Throw e =>
          evs = [OnRemote (CallRemove (path r) (updatedAt r) now)] /\
          fst (applySyncAction a now w) = Throw e /\
          host (snd (applySyncAction a now w)) = host w
      end.
Proof.
  intros Ha. unfold applySyncAction, SyncController.applySyncAction. simpl.
  rewrite Ha. unfold bind, remoteRemove, hostRemove, onRemote, onHost, ret.
  destruct (remoteFile a) as [r|], (hostFile a) as [h|]; simpl.
  - destruct (remove (path r) (updatedAt r) now (remote w)) as [[[]|e] rs] eqn:Hr; simpl.
    + destruct (remove (path h) (updatedAt h) now (host w)) as [res hs]; simpl.
      eexists. split; [now rewrite <- app_assoc|].
      split; [now apply short_log_in_order|].
      intros r' h' [= <-] [= <-]. now rewrite Hr.
    + eexists. split; [reflexivity|]. split; [apply single_log_in_order|].
      intros r' h' [= <-] [= <-]. now rewrite Hr.
  - destruct (remove (path r) (updatedAt r) now (remote w)) as [[[]|e] rs]; simpl;
      (eexists; split; [reflexivity|]; split; [apply single_log_in_order|]);
      intros ? ? ? [=].
  - destruct (remove (path h) (updatedAt h) now (host w)) as [res hs]; simpl.
    exists [OnHost (CallRemove (path h) (updatedAt h) now)].
    split; [reflexivity|]. split; [apply single_log_in_order|]. intros ? ? [=].
  - exists []. rewrite app_nil_r. split; [reflexivity|].
    split; [apply empty_log_in_order|]. intros ? ? [=].
Qed.

(** C10. No action makes the applier call the remote store's [prune].
    A prune action calls the host store's [prune] for the host record's
    path when there is a host record, calls nothing otherwise, and leaves
    the remote store in the state it was in. *)
Theorem prune_only_on_host a now (w : World) :
  (exists evs,
     calls (snd (applySyncAction a now w)) = calls w ++ evs /\
     Forall (fun e => isRemotePrune e = false) evs) /\
  (action a = Prune ->
   remote (snd (applySyncAction a now w)) = remote w /\
   calls (snd (applySyncAction a now w)) =
   calls w ++ match hostFile a with
              | Some h => [OnHost (CallPrune (path h))]
              | None => []
              end).
Proof.
  split.
  - apply (applySyncActionRec_emits (hostFs := hostFs) (remoteFs := remoteFs)).
    repeat split; intros; reflexivity.
  - intros Ha. unfold applySyncAction, SyncController.applySyncAction. simpl.
    rewrite Ha. destruct (hostFile a) as [h|]; simpl.
    + unfold hostPrune, onHost. destruct (prune (path h) (host w)). now simpl.
    + now rewrite app_nil_r.
Qed.

(** C2 (amended). A push reads the content of the host record's path from
    the host and, when that read returns, writes it to the remote under
    the same path, with the remote record's [updatedAt] as token (the
    host record's own when the action has no remote record) and the host
    record's [updatedAt] as the new timestamp; the outcome of the action
    is the outcome of that write. A pull does the same from the remote to
    the host. A push without a host record, and a pull without a remote
    record, do nothing. *)
Theorem push_pull_calls a now (w : World) :
  (action a = Push -> forall h, hostFile a = Some h ->
     let token :=
       match remoteFile a with Some r => updatedAt r | None => updatedAt h end in
     match getFileContent (path h) (host w) with
     | (Ok content, hs) =>
         calls (snd (applySyncAction a now w)) =
         calls w ++ [OnHost (CallGetFileContent (path h));
                     OnRemote (CallUpdate (path h) content token (updatedAt h))] /\
         host (snd (applySyncAction a now w)) = hs /\
         (fst (applySyncAction a now w), remote (snd (applySyncAction a now w))) =
         update (path h) content token (updatedAt h) (remote w)
     | (Throw e, hs) =>
         calls (snd (applySyncAction a now w)) =
         calls w ++ [OnHost (CallGetFileContent (path h))] /\
         fst (applySyncAction a now w) = Throw e /\
         remote (snd (applySyncAction a now w)) = remote w
     end) /\
  (action a = Pull -> forall r, remoteFile a = Some r ->
     let token :=
       match hostFile a with Some h => updatedAt h | None => updatedAt r end in
     match getFileContent (path r) (remote w) with
     | (Ok content, rs) =>
         calls (snd (applySyncAction a now w)) =
         calls w ++ [OnRemote (CallGetFileContent (path r));
                     OnHost (CallUpdate (path r) content token (updatedAt r))] /\
         remote (snd (applySyncAction a now w)) = rs /\
         (fst (applySyncAction a now w), host (snd (applySyncAction a now w))) =
         update (path r) content token (updatedAt r) (host w)
     | (Throw e, rs) =>
         calls (snd (applySyncAction a now w)) =
         calls w ++ [OnRemote (CallGetFileContent (path r))] /\
         fst (applySyncAction a now w) = Throw e /\
         host (snd (applySyncAction a now w)) = host w
     end) /\
  (action a = Push -> hostFile a = None -> applySyncAction a now w = (Ok tt, w)) /\
  (action a = Pull -> remoteFile a = None -> applySyncAction a now w = (Ok tt, w)).
Proof.
  split; [|split; [|split]].
  3:{ intros Ha Hh. unfold applySyncAction, SyncController.applySyncAction.
      simpl. now rewrite Ha, Hh. }
  3:{ intros Ha Hr. unfold applySyncAction, SyncController.applySyncAction.
      simpl. now rewrite Ha, Hr. }
  - intros Ha h Hh token. unfold applySyncAction, SyncController.applySyncAction.
    simpl. rewrite Ha, Hh.
    unfold bind, hostGetFileContent, remoteUpdate, onHost, onRemote. simpl.
    destruct (getFileContent (path h) (host w)) as [[content|e] hs]; simpl.
    + fold token.
      destruct (update (path h) content token (updatedAt h) (remote w)) as [res rs].
      simpl. rewrite <- app_assoc. auto.
    + auto.
  - intros Ha r Hr token. unfold applySyncAction, SyncController.applySyncAction.
    simpl. rewrite Ha, Hr.
    unfold bind, remoteGetFileContent, hostUpdate, onHost, onRemote. simpl.
    destruct (getFileContent (path r) (remote w)) as [[content|e] rs]; simpl.
    + fold token.
      destruct (update (path r) content token (updatedAt r) (host w)) as [res hs].
      simpl. rewrite <- app_assoc. auto.
    + auto.
Qed.

(** *** The watermark *)

Lemma watermarkLast_updateSettings now : watermarkLast now (updateSettings now : M unit).
Proof. intros w. exists []. simpl. split; [constructor | now split]. Qed.

Lemma watermarkLast_bind {A B} now (m : M A) (k : A -> M B) :
  emits (fun e => isSettingsUpdated e = false) m -> keepsSettings m ->
  (forall x, watermarkLast now (k x)) ->
  watermarkLast now (bind m k).
Proof.
  intros He Hs Hk w. unfold bind.
  destruct (He w) as (e1 & H1 & F1). specialize (Hs w).
  destruct (m w) as [[x|e] w1]; simpl in *.
  - destruct (Hk x w1) as (e2 & F2 & H2). exists (e1 ++ e2).
    split; [now apply Forall_app|].
    destruct (fst (k x w1)); destruct H2 as [H2 H3];
      rewrite H2, H3, H1, Hs, <- !app_assoc; now split.
  - exists e1. now repeat split.
Qed.

Lemma emits_setLastSyncedAt P t : emits P (setLastSyncedAt t : M unit).
Proof. intros w. exists []. simpl. now rewrite app_nil_r. Qed.

Lemma emits_getLastSyncedAt P : emits P (getLastSyncedAt : M Z).
Proof. intros w. exists []. simpl. now rewrite app_nil_r. Qed.

Lemma keeps_setLastSyncedAt t : keepsSettings (setLastSyncedAt t : M unit).
Proof. now intros w. Qed.

Lemma keeps_getLastSyncedAt : keepsSettings (getLastSyncedAt : M Z).
Proof. now intros w. Qed.

(** [sync] writes the watermark as its last step and nowhere else, and
    not at all when the pass throws. *)
Lemma sync_watermarkLast now : watermarkLast now (sync now).
Proof.
  assert (allowsApplier (fun e => isSettingsUpdated e = false)) as Hallow
    by (repeat split; intros; reflexivity).
  unfold sync, SyncController.sync.
  apply watermarkLast_bind; [apply emits_getSettings | apply keeps_getSettings|].
  intros s.
  apply watermarkLast_bind;
    [apply emits_setLastSyncedAt | apply keeps_setLastSyncedAt|]. intros _.
  apply watermarkLast_bind;
    [apply emits_onHost; reflexivity | apply keeps_onHost|]. intros hostFiles.
  apply watermarkLast_bind;
    [apply emits_onRemote; reflexivity | apply keeps_onRemote|]. intros remoteFiles.
  apply watermarkLast_bind;
    [apply emits_getLastSyncedAt | apply keeps_getLastSyncedAt|]. intros t.
  apply watermarkLast_bind;
    [now apply applyAll_emits | apply applyAll_keeps|]. intros _.
  apply watermarkLast_updateSettings.
Qed.

(** The loop returns exactly when every action, applied in its turn,
    has returned. *)
Lemma applyAll_appliedInOrder actions now : forall (w w' : World),
  applyAll actions now w = (Ok tt, w') <-> appliedInOrder now actions w w'.
Proof.
  induction actions as [|a actions IH]; intros w w';
    cbn [SyncController.applyAll appliedInOrder].
  - unfold ret. split; [now intros [= <-] | now intros ->].
  - unfold bind. split.
    + destruct (applySyncAction a now w) as [[[]|e] w1]; [|discriminate].
      intros Hrest. exists w1. split; [reflexivity | now apply IH].
    + intros (w1 & -> & Hrest). now apply IH.
Qed.

(** The loop ends at the first action that throws, with its error and
    in the world that action left. *)
Lemma applyAll_throws before a after now e : forall (w w1 w2 : World),
  appliedInOrder now before w w1 ->
  applySyncAction a now w1 = (Throw e, w2) ->
  applyAll (before ++ a :: after) now w = (Throw e, w2).
Proof.
  induction before as [|b before IH]; intros w w1 w2;
    cbn [SyncController.applyAll appliedInOrder app].
  - intros -> Ha. unfold bind. now rewrite Ha.
  - intros (wb & Hb & Hrest) Ha. unfold bind. rewrite Hb.
    exact (IH wb w1 w2 Hrest Ha).
Qed.

Lemma appliedInOrder_keeps now actions : forall (w w' : World),
  appliedInOrder now actions w w' -> settings w' = settings w.
Proof.
  intros w w' Hrun%applyAll_appliedInOrder.
  pose proof (applyAll_keeps (hostFs := hostFs) (remoteFs := remoteFs)
                actions now w) as Hk.
  now rewrite Hrun in Hk.
Qed.

(** [sync] when both listings return: the plan is applied in the world
    the listings leave, and the watermark is written after it. *)
Lemma sync_listed now (w : World) hostFiles hs remoteFiles rs :
  getFiles (host w) = (Ok hostFiles, hs) ->
  getFiles (remote w) = (Ok remoteFiles, rs) ->
  sync now w =
  bind (applyAll (planOfPass w hostFiles remoteFiles) now)
       (fun _ => updateSettings now) (listed w hs rs).
Proof.
  intros Hh Hr. unfold SyncController.sync, planOfPass, listed.
  unfold bind, getSettings, setLastSyncedAt, hostGetFiles,
    remoteGetFiles, getLastSyncedAt, onHost, onRemote.
  cbn [host remote settings this_last_synced_at calls].
  rewrite Hh. cbn [host remote settings this_last_synced_at calls].
  rewrite Hr. cbn [host remote settings this_last_synced_at calls].
  now rewrite <- app_assoc.
Qed.

(** C9. [sync] writes the watermark once, as its last step, and never
    when the pass throws. With both listings returned, the actions of
    the plan are applied one after the other: when one of them throws,
    the pass ends there with that error, in the world that action left,
    with no later action applied and the settings, [last_synced_at]
    included, as they were; and a pass that returns has applied every
    action of the plan, each of them returning, and has written [now]
    as the watermark after the last one. *)
Theorem sync_writes_watermark_after_every_action now :
  watermarkLast now (sync now) /\
  forall (w : World) hostFiles hs remoteFiles rs,
    getFiles (host w) = (Ok hostFiles, hs) ->
    getFiles (remote w) = (Ok remoteFiles, rs) ->
    (forall before a after w1 e w2,
       planOfPass w hostFiles remoteFiles = before ++ a :: after ->
       appliedInOrder now before (listed w hs rs) w1 ->
       applySyncAction a now w1 = (Throw e, w2) ->
       sync now w = (Throw e, w2) /\ settings w2 = settings w) /\
    (forall w', sync now w = (Ok tt, w') ->
       exists wn,
         appliedInOrder now (planOfPass w hostFiles remoteFiles)
           (listed w hs rs) wn /\
         settings wn = settings w /\
         settings w' = updateSettings_last_synced_at now (settings w) /\
         calls w' = calls wn ++ [SettingsUpdated now] /\
         host w' = host wn /\ remote w' = remote wn).
Proof.
  split; [apply sync_watermarkLast|].
  intros w hostFiles hs remoteFiles rs Hh Hr. split.
  - intros before a after w1 e w2 Hplan Hbefore Ha.
    rewrite (sync_listed now w _ _ _ _ Hh Hr), Hplan. unfold bind.
    rewrite (applyAll_throws before a after now e _ w1 w2 Hbefore Ha).
    split; [reflexivity|].
    pose proof (applySyncActionRec_keeps (hostFs := hostFs) (remoteFs := remoteFs)
                  2 a now w1) as Hk.
    unfold SyncController.applySyncAction in Ha. rewrite Ha in Hk.
    cbn [snd] in Hk. rewrite Hk.
    now rewrite (appliedInOrder_keeps now before _ _ Hbefore).
  - intros w'. rewrite (sync_listed now w _ _ _ _ Hh Hr). unfold bind.
    destruct (applyAll (planOfPass w hostFiles remoteFiles) now (listed w hs rs))
      as [[[]|e] wn] eqn:Hrun; [|discriminate].
    unfold updateSettings. intros [= <-]. exists wn.
    apply applyAll_appliedInOrder in Hrun.
    pose proof (appliedInOrder_keeps now _ _ _ Hrun) as Hk.
    cbn [settings calls host remote listed] in *.
    rewrite Hk. now repeat split.
Qed.

End Generic.

End ApplierTheorems.

(** * Properties of the local file system *)

Module LocalTheorems.
Import JsString LocalFileSystem Samples.

Lemma stale_test st p prev :
  negb (fst (getFileStats st p) =? 0) && negb (fst (getFileStats st p) =? prev) = true
  <-> staleAt st p prev.
Proof.
  unfold staleAt. rewrite andb_true_iff, !negb_true_iff, !Z.eqb_neq. tauto.
Qed.

Lemma getFileStats_createFolder st q p :
  getAbstractFileByPath st q = None ->
  getFileStats (createFolder q st) p = getFileStats st p.
Proof.
  unfold getFileStats, getAbstractFileByPath, createFolder. simpl. intros Hq.
  destruct (decide (q = p)) as [->|Hne].
  - now rewrite lookup_insert_eq, Hq.
  - now rewrite lookup_insert_ne.
Qed.

Lemma mkdirpStep_stats acc part p :
  getFileStats (snd (mkdirpStep acc part)) p = getFileStats (snd acc) p.
Proof.
  destruct acc as [cur st]. unfold mkdirpStep.
  destruct (getAbstractFileByPath st _) eqn:Hq; simpl; [reflexivity|].
  now apply getFileStats_createFolder.
Qed.

(** Creating the parent folders changes the stats of no file. *)
Lemma mkdirpInVault_stats d st p :
  getFileStats (mkdirpInVault d st) p = getFileStats st p.
Proof.
  unfold mkdirpInVault.
  generalize (List.filter (fun part => (0 <? String.length part)%nat) (split "/" d)).
  intros parts. change st with (snd (""%string, st)) at 2.
  generalize (""%string, st). induction parts as [|part parts IH]; intros acc; simpl.
  - reflexivity.
  - now rewrite IH, mkdirpStep_stats.
Qed.

(** C8. [update] and [remove] throw the staleness error exactly when the
    recorded modification time of the path is non-zero and differs from
    [previousUpdatedAt]; otherwise they return, [update] having written the
    file with the new modification time and [remove] having taken the path
    out of the vault. *)
Theorem update_remove_stale_iff p content previousUpdatedAt newUpdatedAt st :
  (staleAt st p previousUpdatedAt <->
     fst (update p content previousUpdatedAt newUpdatedAt st) = Throw staleError) /\
  (staleAt st p previousUpdatedAt <->
     fst (remove p previousUpdatedAt st) = Throw staleError) /\
  (~ staleAt st p previousUpdatedAt ->
     fst (update p content previousUpdatedAt newUpdatedAt st) = Ok tt /\
     getFileStats (snd (update p content previousUpdatedAt newUpdatedAt st)) p =
       (newUpdatedAt,
        if snd (getFileStats st p) =? 0 then newUpdatedAt else snd (getFileStats st p)) /\
     fst (remove p previousUpdatedAt st) = Ok tt /\
     getAbstractFileByPath (snd (remove p previousUpdatedAt st)) p = None).
Proof.
  assert (forall st', getFileStats st' p = getFileStats st p ->
    (staleAt st p previousUpdatedAt <->
     fst (let '(mtime, ctime) := getFileStats st' p in
          if negb (mtime =? 0) && negb (mtime =? previousUpdatedAt)
          then (Throw staleError, st')
          else (Ok tt, writeFile p content newUpdatedAt
                         (if ctime =? 0 then newUpdatedAt else ctime) st'))
     = Throw staleError) /\
    (~ staleAt st p previousUpdatedAt ->
     let res := (let '(mtime, ctime) := getFileStats st' p in
          if negb (mtime =? 0) && negb (mtime =? previousUpdatedAt)
          then (Throw staleError, st')
          else (Ok tt, writeFile p content newUpdatedAt
                         (if ctime =? 0 then newUpdatedAt else ctime) st')) in
     fst res = Ok tt /\
     getFileStats (snd res) p =
       (newUpdatedAt,
        if snd (getFileStats st p) =? 0 then newUpdatedAt else snd (getFileStats st p))))
    as Hupd.
  { intros st' Hst'. pose proof (stale_test st p previousUpdatedAt) as Ht.
    rewrite Hst'. destruct (getFileStats st p) as [mtime ctime] eqn:Hs. simpl in *.
    destruct (negb (mtime =? 0) && negb (mtime =? previousUpdatedAt)); simpl.
    - split; [tauto|]. intros Hn. exfalso. apply Hn, Ht. reflexivity.
    - split.
      + split; [intros Hst; apply Ht in Hst; discriminate | discriminate].
      + intros _. split; [reflexivity|].
        unfold getFileStats, getAbstractFileByPath, writeFile, writeBinary. simpl.
        now rewrite lookup_insert_eq. }
  assert ((staleAt st p previousUpdatedAt <->
           fst (remove p previousUpdatedAt st) = Throw staleError) /\
          (~ staleAt st p previousUpdatedAt ->
           fst (remove p previousUpdatedAt st) = Ok tt /\
           getAbstractFileByPath (snd (remove p previousUpdatedAt st)) p = None))
    as Hrem.
  { pose proof (stale_test st p previousUpdatedAt) as Ht. unfold remove.
    destruct (getFileStats st p) as [mtime ctime] eqn:Hs. simpl in *.
    destruct (negb (mtime =? 0) && negb (mtime =? previousUpdatedAt)); simpl.
    - split; [tauto|]. intros Hn. exfalso. apply Hn, Ht. reflexivity.
    - assert (forall st0 : LocalState,
                getAbstractFileByPath (trashLocal p st0) p = None) as Htl.
      { intros st0. unfold getAbstractFileByPath, trashLocal. simpl.
        apply lookup_delete_eq. }
      split.
      + split; [intros Hst; apply Ht in Hst; discriminate|].
        destruct (deleteToWhere st); [discriminate|].
        unfold trashSystem. destruct (systemTrash st); discriminate.
      + intros _. destruct (deleteToWhere st); simpl; [now split|].
        unfold trashSystem. destruct (systemTrash st); simpl; split; auto.
        unfold getAbstractFileByPath. simpl. apply lookup_delete_eq. }
  unfold update.
  destruct (truthy (substring0 (lastIndexOf "/" p) p) &&
            (0 <? String.length (substring0 (lastIndexOf "/" p) p))%nat).
  - destruct (Hupd _ (mkdirpInVault_stats (substring0 (lastIndexOf "/" p) p) st p))
      as [H1 H2].
    split; [exact H1|]. split; [apply Hrem|]. intros Hn.
    destruct (H2 Hn) as [H3 H4]. destruct (proj2 Hrem Hn) as [H5 H6]. auto.
  - destruct (Hupd st eq_refl) as [H1 H2].
    split; [exact H1|]. split; [apply Hrem|]. intros Hn.
    destruct (H2 Hn) as [H3 H4]. destruct (proj2 Hrem Hn) as [H5 H6]. auto.
Qed.

End LocalTheorems.

(** * The theorems at sample inputs *)

Module Witnesses.
Import SyncController Trace Watermark MemStore Samples.
Import ApplierTheorems LocalTheorems.

Lemma remove_remote_before_host_witness :
  let h := fileOf "x.txt" (liveEntry 40 45 [Byte.x61]) in
  let r := fileOf "x.txt" (tombstone 50) in
  let w := memWorld {[ "x.txt" := liveEntry 40 45 [Byte.x61] ]}
                    {[ "x.txt" := tombstone 50 ]} (noRules latest) in
  calls (snd (applyOnMem (createAction (Some h) (Some r) Remove) 1000 w)) =
  [OnRemote (CallRemove "x.txt" 50 1000); OnHost (CallRemove "x.txt" 45 1000)].
Proof.
  intros h r w.
  destruct (remove_remote_before_host (hostFs := memFileSystem)
              (remoteFs := memFileSystem) (matcher := Doubles.literalMatch)
              (merger := Doubles.appendMerge) (crypto := Doubles.plainCrypto)
              (createAction (Some h) (Some r) Remove) 1000 w eq_refl)
    as (evs & Hcalls & _ & Hboth).
  specialize (Hboth r h eq_refl eq_refl).
  unfold applyOnMem. rewrite Hcalls. exact Hboth.
Defined.

Lemma prune_only_on_host_witness :
  let h := fileOf "x.txt" (tombstone 60) in
  let r := fileOf "x.txt" (tombstone 50) in
  let w := memWorld {[ "x.txt" := tombstone 60 ]}
                    {[ "x.txt" := tombstone 50 ]} (noRules latest) in
  let w' := snd (applyOnMem (createAction (Some h) (Some r) Prune) 1000 w) in
  remote w' = {[ "x.txt" := tombstone 50 ]} /\
  calls w' = [OnHost (CallPrune "x.txt")].
Proof.
  intros h r w w'.
  exact (proj2 (prune_only_on_host (hostFs := memFileSystem)
                  (remoteFs := memFileSystem) (matcher := Doubles.literalMatch)
                  (merger := Doubles.appendMerge) (crypto := Doubles.plainCrypto)
                  (createAction (Some h) (Some r) Prune) 1000 w) eq_refl).
Defined.

Lemma push_pull_calls_witness :
  let h := fileOf "notes/a.md" (liveEntry 90 100 [Byte.x61]) in
  let w := memWorld {[ "notes/a.md" := liveEntry 90 100 [Byte.x61] ]} ∅
                    (noRules latest) in
  calls (snd (applyOnMem (createAction (Some h) None Push) 200 w)) =
  [OnHost (CallGetFileContent "notes/a.md");
   OnRemote (CallUpdate "notes/a.md" [Byte.x61] 100 100)].
Proof.
  intros h w.
  exact (proj1 (proj1 (push_pull_calls (hostFs := memFileSystem)
                  (remoteFs := memFileSystem) (matcher := Doubles.literalMatch)
                  (merger := Doubles.appendMerge) (crypto := Doubles.plainCrypto)
                  (createAction (Some h) None Push) 200 w) eq_refl h eq_refl)).
Defined.

(** C2 as stated fails: the push of a record updated at 100, applied with
    [now] = 200, stamps the remote copy with 100. *)
Lemma push_stamps_now_counterexample :
  ~ (forall (a : SyncAction) (now : Z) (w : World Store Store) h content hs,
       action a = Push -> hostFile a = Some h ->
       getFileContent (path h) (host w) = (Ok content, hs) ->
       calls (snd (applyOnMem a now w)) =
       calls w ++
         [OnHost (CallGetFileContent (path h));
          OnRemote (CallUpdate (path h) content
                      (match remoteFile a with
                       | Some r => updatedAt r
                       | None => updatedAt h
                       end) now)]).
Proof.
  intros Hclaim.
  pose (h := fileOf "notes/a.md" (liveEntry 90 100 [Byte.x61])).
  pose (w := memWorld {[ "notes/a.md" := liveEntry 90 100 [Byte.x61] ]} ∅
               (noRules latest)).
  specialize (Hclaim (createAction (Some h) None Push) 200 w h [Byte.x61]
                (host w) eq_refl eq_refl eq_refl).
  vm_compute in Hclaim. discriminate Hclaim.
Qed.

Lemma update_remove_stale_iff_witness :
  fst (LocalFileSystem.update "notes/a.md" [Byte.x62] 95 200 oneNoteVault)
    = Throw LocalFileSystem.staleError /\
  fst (LocalFileSystem.remove "notes/a.md" 95 oneNoteVault)
    = Throw LocalFileSystem.staleError /\
  fst (LocalFileSystem.update "notes/a.md" [Byte.x62] 100 200 oneNoteVault) = Ok tt /\
  LocalFileSystem.getFileStats
    (snd (LocalFileSystem.update "notes/a.md" [Byte.x62] 100 200 oneNoteVault))
    "notes/a.md" = (200, 90) /\
  fst (LocalFileSystem.remove "notes/a.md" 100 oneNoteVault) = Ok tt.
Proof.
  pose proof (update_remove_stale_iff "notes/a.md" [Byte.x62] 95 200 oneNoteVault)
    as (Hu & Hr & _).
  pose proof (update_remove_stale_iff "notes/a.md" [Byte.x62] 100 200 oneNoteVault)
    as (_ & _ & Hok).
  assert (staleAt oneNoteVault "notes/a.md" 95) as Hstale
    by (split; vm_compute; discriminate).
  assert (~ staleAt oneNoteVault "notes/a.md" 100) as Hfresh
    by (intros [_ Hne]; apply Hne; reflexivity).
  destruct (Hok Hfresh) as (H1 & H2 & H3 & _).
  split; [exact (proj1 Hu Hstale)|]. split; [exact (proj1 Hr Hstale)|].
  split; [exact H1|]. split; [exact H2 | exact H3].
Defined.

(** A pass that throws while applying its one action (the contents of a
    conflicting note cannot be decrypted) makes the store calls up to the
    failure and leaves [last_synced_at] at its prior value. *)
Lemma sync_throw_example :
  let w := {| host := {[ "config.json" := liveEntry 10 200 [Byte.x68] ]};
              remote := {[ "config.json" := liveEntry 10 250 [Byte.x72] ]};
              settings := mkSettings (Some 100) "" [] latest false;
              this_last_synced_at := 0; calls := [] |} in
  let run := sync (hostFs := memFileSystem) (remoteFs := memFileSystem)
               (matcher := Doubles.literalMatch) (merger := Doubles.appendMerge)
               (crypto := Doubles.brokenCrypto) 1000 w in
  fst run = Throw (Error "Decryption failed") /\
  last_synced_at (settings (snd run)) = Some 100 /\
  calls (snd run) =
    [OnHost CallGetFiles; OnRemote CallGetFiles;
     OnHost (CallGetFileContent "config.json")].
Proof. vm_compute. repeat split. Qed.

(** The same pass with a working crypto helper merges the note and then
    moves the watermark. *)
Lemma sync_return_example :
  let w := {| host := {[ "config.json" := liveEntry 10 200 [Byte.x68] ]};
              remote := {[ "config.json" := liveEntry 10 250 [Byte.x72] ]};
              settings := mkSettings (Some 100) "" [] latest false;
              this_last_synced_at := 0; calls := [] |} in
  let run := syncOnMem 1000 w in
  fst run = Ok tt /\
  last_synced_at (settings (snd run)) = Some 1000 /\
  calls (snd run) =
    [OnHost CallGetFiles; OnRemote CallGetFiles;
     OnHost (CallGetFileContent "config.json");
     OnRemote (CallGetFileContent "config.json");
     OnRemote (CallUpdate "config.json" [Byte.x68; Byte.x72] 250 1000);
     OnHost (CallUpdate "config.json" [Byte.x68; Byte.x72] 200 1000);
     SettingsUpdated 1000].
Proof. vm_compute. repeat split. Qed.

(** A pass of three actions whose second one throws: the first push is
    made, the decryption of the conflicting note fails, the last push is
    never applied, and the settings are as they were. *)
Lemma sync_writes_watermark_after_every_action_witness :
  let w := {| host := {[ "img.png" := liveEntry 5 6 [Byte.x61];
                         "notes/a.md" := liveEntry 10 200 [Byte.x68];
                         "z.bin" := liveEntry 7 8 [Byte.x7a] ]};
              remote := {[ "notes/a.md" := liveEntry 10 250 [Byte.x72] ]};
              settings := mkSettings (Some 100) "" [] latest false;
              this_last_synced_at := 0; calls := [] |} in
  let run := sync (hostFs := memFileSystem) (remoteFs := memFileSystem)
               (matcher := Doubles.literalMatch) (merger := Doubles.appendMerge)
               (crypto := Doubles.brokenCrypto) 1000 w in
  fst run = Throw (Error "Decryption failed") /\
  settings (snd run) = settings w /\
  calls (snd run) =
    [OnHost CallGetFiles; OnRemote CallGetFiles;
     OnHost (CallGetFileContent "img.png");
     OnRemote (CallUpdate "img.png" [Byte.x61] 6 6);
     OnHost (CallGetFileContent "notes/a.md")].
Proof.
  intros w run.
  destruct (proj2 (sync_writes_watermark_after_every_action
                     (hostFs := memFileSystem) (remoteFs := memFileSystem)
                     (matcher := Doubles.literalMatch)
                     (merger := Doubles.appendMerge)
                     (crypto := Doubles.brokenCrypto) 1000)
              w (filesOf (host w)) (host w) (filesOf (remote w)) (remote w)
              eq_refl eq_refl) as [Hthrow _].
  edestruct (Hthrow
               [createAction (Some (fileOf "img.png" (liveEntry 5 6 [Byte.x61])))
                  None Push]
               (createAction (Some (fileOf "notes/a.md" (liveEntry 10 200 [Byte.x68])))
                  (Some (fileOf "notes/a.md" (liveEntry 10 250 [Byte.x72])))
                  Conflict)
               [createAction (Some (fileOf "z.bin" (liveEntry 7 8 [Byte.x7a])))
                  None Push]) as [Hrun Hset].
  - vm_compute. reflexivity.
  - eexists. split; [vm_compute; reflexivity | reflexivity].
  - vm_compute. reflexivity.
  - unfold run. rewrite Hrun. split; [reflexivity|]. split; [exact Hset | reflexivity].
Defined.

End Witnesses.

(** * The plan as a decision per path *)

Module PlanPerPath.
Import PlanSpec PlannerFacts PlannerTheorems.

Lemma firstAction_filter act q files p :
  NoDup (map path files) ->
  firstAction act (List.filter q files) p =
  match getFile files p with
  | Some f => if q f then act f else None
  | None => None
  end.
Proof.
  intros Hnd. destruct (getFile files p) as [f|] eqn:Hg.
  - apply getFile_Some in Hg as [Hin <-].
    pose proof (NoDup_path_unique _ _ Hnd Hin) as Huniq.
    destruct (q f) eqn:Hq.
    + apply firstAction_unique.
      * apply filter_In. now split.
      * intros f' Hf' Hp. apply filter_In in Hf' as [Hf' _]. now apply Huniq.
    + apply firstAction_absent. intros f' Hf' Hp. apply filter_In in Hf' as [Hf' Hq'].
      rewrite (Huniq f' Hf' Hp) in Hq'. congruence.
  - apply firstAction_absent. intros f Hf. apply filter_In in Hf as [Hf _].
    now apply (getFile_None _ _ Hg).
Qed.

(** With one record per path in each list, the action planned for a path
    pairs the two records at that path and has the kind [decide] gives. *)
Lemma planned_decide w hostFiles remoteFiles p :
  NoDup (map path hostFiles) -> NoDup (map path remoteFiles) ->
  planned w hostFiles remoteFiles p =
  createAction (getFile hostFiles p) (getFile remoteFiles p)
    <$> decide w (getFile hostFiles p) (getFile remoteFiles p).
Proof.
  intros Hh Hr. unfold planned, decide.
  rewrite !firstAction_filter by assumption.
  unfold remoteDeletionAction, hostDeletionAction, hostModificationAction,
    remoteModificationAction.
  destruct (getFile hostFiles p) as [h|] eqn:Hgh;
    destruct (getFile remoteFiles p) as [r|] eqn:Hgr;
    try (pose proof (proj2 (getFile_Some _ _ _ Hgh)) as Hph; rewrite Hph);
    try (pose proof (proj2 (getFile_Some _ _ _ Hgr)) as Hpr; rewrite Hpr);
    rewrite ?Hgh, ?Hgr; simpl.
  - destruct (deleted r), (deleted h); simpl; try reflexivity.
    destruct (updatedAt r <? updatedAt h); simpl; [reflexivity|].
    destruct (updatedAt r >? w); simpl; [reflexivity|].
    destruct (updatedAt h <? updatedAt r); simpl; [reflexivity|].
    destruct (updatedAt h >? w); reflexivity.
  - destruct (deleted h); reflexivity.
  - destruct (deleted r); reflexivity.
  - reflexivity.
Qed.

Lemma createSyncAction_nil w hostFiles remoteFiles :
  (forall p, planned w hostFiles remoteFiles p = None) ->
  createSyncAction w hostFiles remoteFiles = [].
Proof.
  intros Hall. destruct (createSyncAction w hostFiles remoteFiles) as [|a l] eqn:Hp;
    [reflexivity|].
  assert (In a (createSyncAction w hostFiles remoteFiles)) as Hin
    by (rewrite Hp; now left).
  apply createSyncAction_In in Hin as [k Hk]. rewrite Hall in Hk. discriminate.
Qed.

End PlanPerPath.

(** * Idempotence of a pass over in-memory stores *)

Module StoreFacts.
Import PlanSpec PlannerFacts PlannerTheorems PlanPerPath.
Import SyncController MemStore Effects.

Lemma paths_filesOf (s : Store) : map path (filesOf s) = (map_to_list s).*1.
Proof.
  unfold filesOf. rewrite map_map. simpl. reflexivity.
Qed.

Lemma NoDup_filesOf (s : Store) : NoDup (map path (filesOf s)).
Proof. rewrite paths_filesOf. apply NoDup_fst_map_to_list. Qed.

Lemma In_filesOf (s : Store) f :
  In f (filesOf s) <-> exists e, s !! path f = Some e /\ f = toFile (path f, e).
Proof.
  unfold filesOf. rewrite in_map_iff. split.
  - intros ([k e] & <- & Hin). apply list_elem_of_In, elem_of_map_to_list in Hin.
    exists e. split; [exact Hin | reflexivity].
  - intros (e & Hs & Hf). exists (path f, e). split; [now symmetry|].
    now apply list_elem_of_In, elem_of_map_to_list.
Qed.

(** Looking a path up in the listing is looking it up in the store. *)
Lemma getFile_filesOf (s : Store) p : getFile (filesOf s) p = recordAt s p.
Proof.
  unfold recordAt. destruct (s !! p) as [e|] eqn:Hs; simpl.
  - assert (In (toFile (p, e)) (filesOf s)) as Hin
      by (apply In_filesOf; exists e; now split).
    exact (getFile_unique _ _ Hin (NoDup_path_unique _ _ (NoDup_filesOf s) Hin)).
  - destruct (getFile (filesOf s) p) as [f|] eqn:Hg; [|reflexivity].
    apply getFile_Some in Hg as [Hin <-].
    apply In_filesOf in Hin as (e & He & _). congruence.
Qed.

(** The plan over two stores, path by path. *)
Lemma planOf_planned w (hs rs : Store) p :
  planned w (filesOf hs) (filesOf rs) p =
  createAction (recordAt hs p) (recordAt rs p)
    <$> decide w (recordAt hs p) (recordAt rs p).
Proof.
  rewrite planned_decide by apply NoDup_filesOf. now rewrite !getFile_filesOf.
Qed.

Lemma recordAt_path (s : Store) p f : recordAt s p = Some f -> path f = p.
Proof.
  unfold recordAt. destruct (s !! p); simpl; [|discriminate]. now intros [= <-].
Qed.

Lemma recordAt_insert (s : Store) p e :
  recordAt (<[p := e]> s) p = Some (toFile (p, e)).
Proof. unfold recordAt. now rewrite lookup_insert_eq. Qed.

Lemma recordAt_same (s s' : Store) p : s' !! p = s !! p -> recordAt s' p = recordAt s p.
Proof. unfold recordAt. now intros ->. Qed.

(** *** Quiet paths *)

Lemma decide_level now (h r : FileMetadata) :
  deleted h = false -> deleted r = false ->
  updatedAt h = updatedAt r -> updatedAt r <= now ->
  decide now (Some h) (Some r) = None.
Proof.
  intros Hh Hr Heq Hle. unfold decide. rewrite Hh, Hr. simpl.
  rewrite Heq, Z.ltb_irrefl.
  replace (updatedAt r >? now) with false
    by (symmetry; rewrite Z.gtb_ltb; apply Z.ltb_ge; lia).
  reflexivity.
Qed.

Lemma decide_lone_tombstone now (r : FileMetadata) :
  deleted r = true -> decide now None (Some r) = None.
Proof. intros Hr. unfold decide. now rewrite Hr. Qed.

(** A path with nothing planned under the watermark has nothing planned
    under any later instant that no record's [updatedAt] exceeds. *)
Lemma decide_None_later w now (oh or : option FileMetadata) :
  decide w oh or = None ->
  (forall f, oh = Some f \/ or = Some f -> updatedAt f <= now) ->
  decide now oh or = None.
Proof.
  intros Hd Hle. destruct oh as [h|], or as [r|]; unfold decide in *; simpl in *.
  - destruct (deleted r), (deleted h); simpl in *; try discriminate.
    destruct (updatedAt r <? updatedAt h) eqn:H1; simpl in *; [discriminate|].
    destruct (updatedAt r >? w) eqn:H2; simpl in *; [discriminate|].
    destruct (updatedAt h <? updatedAt r) eqn:H3; simpl in *; [discriminate|].
    replace (updatedAt r >? now) with false
      by (symmetry; rewrite Z.gtb_ltb; apply Z.ltb_ge; apply Hle; auto).
    replace (updatedAt h >? now) with false
      by (symmetry; rewrite Z.gtb_ltb; apply Z.ltb_ge; apply Hle; auto).
    reflexivity.
  - destruct (deleted h); discriminate.
  - destruct (deleted r); [reflexivity | discriminate].
  - reflexivity.
Qed.

(** *** The store operations *)

Lemma writeRecord_Ok p content prev new (s s' : Store) :
  writeRecord p content prev new s = (Ok tt, s') -> wroteLive p new s s'.
Proof.
  unfold writeRecord. destruct (stale s p prev); [discriminate|].
  intros [= <-]. eexists. split; [reflexivity|]. now split.
Qed.

Lemma writeRecord_Throw p content prev new (s s' : Store) e :
  writeRecord p content prev new s = (Throw e, s') -> s' = s.
Proof.
  unfold writeRecord. destruct (stale s p prev); [now intros [= _ <-] | discriminate].
Qed.

Lemma readContent_state p (s : Store) : snd (readContent p s) = s.
Proof.
  unfold readContent. destruct (s !! p) as [e|]; [destruct (e_deleted e)|]; reflexivity.
Qed.

Lemma pruneRecord_tombstone p (s : Store) e :
  s !! p = Some e -> e_deleted e = true -> pruneRecord p s = (Ok tt, delete p s).
Proof. intros Hs He. unfold pruneRecord. now rewrite Hs, He. Qed.

Lemma wroteLive_elsewhere p t (s s' : Store) q :
  wroteLive p t s s' -> q <> p -> s' !! q = s !! q.
Proof. intros (e & -> & _) Hq. now apply lookup_insert_ne. Qed.

Lemma wroteLive_recordAt p t (s s' : Store) :
  wroteLive p t s s' ->
  exists f, recordAt s' p = Some f /\ deleted f = false /\ updatedAt f = t.
Proof.
  intros (e & -> & Hd & Ht). rewrite recordAt_insert. eexists. split; [reflexivity|].
  now split.
Qed.

End StoreFacts.

Module MemRuns.
Import PlanSpec SyncController MemStore Effects StoreFacts ApplierFacts.

Section Runs.
Context {matcher : Minimatch} {merger : Reconcile} {crypto : Crypto}.

Abbreviation W := (World Store Store).
Abbreviation applyRec :=
  (applySyncActionRec (hostFs := memFileSystem) (remoteFs := memFileSystem)).
Abbreviation apply1 :=
  (applySyncAction (hostFs := memFileSystem) (remoteFs := memFileSystem)).
Abbreviation conflictOn :=
  (handleConflict (hostFs := memFileSystem) (remoteFs := memFileSystem)).

Lemma push_mem n a now (w : W) h :
  action a = Push -> hostFile a = Some h ->
  fst (applyRec (S n) a now w) = Ok tt ->
  pushed h w (snd (applyRec (S n) a now w)).
Proof.
  intros Ha Hh. cbn [SyncController.applySyncActionRec]. rewrite Ha, Hh.
  unfold bind, hostGetFileContent, remoteUpdate, onHost, onRemote.
  cbn [getFileContent update memFileSystem host remote].
  pose proof (readContent_state (path h) (host w)) as Hs.
  destruct (readContent (path h) (host w)) as [[content|e] hs]; simpl in Hs; subst hs;
    [|discriminate].
  cbn [host remote].
  destruct (writeRecord (path h) content _ (updatedAt h) (remote w))
    as [[[]|e] rs] eqn:Hw; [|discriminate].
  intros _. split; [reflexivity|]. cbn [remote]. eapply writeRecord_Ok, Hw.
Qed.

Lemma pull_mem n a now (w : W) r :
  action a = Pull -> remoteFile a = Some r ->
  fst (applyRec (S n) a now w) = Ok tt ->
  pulled r w (snd (applyRec (S n) a now w)).
Proof.
  intros Ha Hr. cbn [SyncController.applySyncActionRec]. rewrite Ha, Hr.
  unfold bind, remoteGetFileContent, hostUpdate, onHost, onRemote.
  cbn [getFileContent update memFileSystem host remote].
  pose proof (readContent_state (path r) (remote w)) as Hs.
  destruct (readContent (path r) (remote w)) as [[content|e] rs]; simpl in Hs; subst rs;
    [|discriminate].
  cbn [host remote].
  destruct (writeRecord (path r) content _ (updatedAt r) (host w))
    as [[[]|e] hs] eqn:Hw; [|discriminate].
  intros _. split; [reflexivity|]. cbn [host]. eapply writeRecord_Ok, Hw.
Qed.

Lemma prune_mem n a now (w : W) h :
  action a = Prune -> hostFile a = Some h ->
  host (snd (applyRec (S n) a now w)) = snd (pruneRecord (path h) (host w)) /\
  remote (snd (applyRec (S n) a now w)) = remote w.
Proof.
  intros Ha Hh. cbn [SyncController.applySyncActionRec]. rewrite Ha, Hh.
  unfold hostPrune, onHost. cbn [prune memFileSystem].
  destruct (pruneRecord (path h) (host w)). now split.
Qed.

(** Reading the two contents changes neither store nor the settings. *)
Lemma handleConflict_mem h r (w w1 : W) s d :
  conflictOn h r w = (Ok (s, d), w1) ->
  unchanged w w1 /\ settings w1 = settings w /\
  ConflictResolver.getResolutionStrategy (settings w) h r = Ok s /\
  (s = resolve -> d <> None).
Proof.
  unfold handleConflict, bind, hostGetFileContent, remoteGetFileContent,
    onHost, onRemote, lift, getSettings, ret.
  cbn [getFileContent memFileSystem host remote settings].
  pose proof (readContent_state (path h) (host w)) as Hs1.
  destruct (readContent (path h) (host w)) as [[c1|e] hs]; simpl in Hs1; subst hs;
    [|discriminate].
  destruct (decrypt c1) as [d1|e]; [|discriminate].
  cbn [host remote settings].
  pose proof (readContent_state (path r) (remote w)) as Hs2.
  destruct (readContent (path r) (remote w)) as [[c2|e] rs]; simpl in Hs2; subst rs;
    [|discriminate].
  destruct (decrypt c2) as [d2|e]; [|discriminate].
  destruct (bufferToString d1) as [s1|e]; [|discriminate].
  destruct (bufferToString d2) as [s2|e]; [|discriminate].
  cbn [host remote settings].
  destruct (ConflictResolver.getResolutionStrategy (settings w) h r)
    as [str|e] eqn:Hstr; [|discriminate].
  destruct str; try (intros [= <- <- <-]; repeat split; discriminate).
  destruct (stringToBuffer _) as [b|e]; [|discriminate].
  destruct (encrypt b) as [enc|e]; [|discriminate].
  intros [= <- <- <-]. repeat split. discriminate.
Qed.

Lemma pushed_from h (w w1 w' : W) : unchanged w w1 -> pushed h w1 w' -> pushed h w w'.
Proof. intros [H1 H2] [H3 H4]. split; [congruence | now rewrite <- H2]. Qed.

Lemma pulled_from r (w w1 w' : W) : unchanged w w1 -> pulled r w1 w' -> pulled r w w'.
Proof. intros [H1 H2] [H3 H4]. split; [congruence | now rewrite <- H1]. Qed.

(** What a conflict leaves behind, strategy by strategy. *)
Lemma conflict_mem a now (w : W) h r :
  action a = Conflict -> hostFile a = Some h -> remoteFile a = Some r ->
  fst (apply1 a now w) = Ok tt ->
  match ConflictResolver.getResolutionStrategy (settings w) h r with
  | Throw _ => False
  | Ok resolve => merged h r now w (snd (apply1 a now w))
  | Ok ignore => unchanged w (snd (apply1 a now w))
  | Ok latest =>
      if updatedAt h <? updatedAt r then pulled r w (snd (apply1 a now w))
      else pushed h w (snd (apply1 a now w))
  | Ok oldest =>
      if updatedAt h <? updatedAt r then pushed h w (snd (apply1 a now w))
      else pulled r w (snd (apply1 a now w))
  | Ok always_pull => pulled r w (snd (apply1 a now w))
  | Ok always_push => pushed h w (snd (apply1 a now w))
  end.
Proof.
  intros Ha Hh Hr.
  remember (apply1 a now w) as res eqn:Hres.
  unfold SyncController.applySyncAction in Hres.
  cbn [SyncController.applySyncActionRec] in Hres. rewrite Ha, Hh, Hr in Hres.
  unfold bind at 1 in Hres.
  destruct (conflictOn h r w) as [[[s d]|e] w1] eqn:Hc; [|now subst res].
  apply handleConflict_mem in Hc as (Hun & Hset & Hstr & Hd).
  rewrite Hstr. destruct s.
  - destruct d as [data|]; [|now destruct Hd].
    unfold bind, remoteUpdate, hostUpdate, onHost, onRemote in Hres.
    cbn [update memFileSystem host remote] in Hres.
    destruct (writeRecord (path r) data (updatedAt r) now (remote w1))
      as [[[]|e] rs] eqn:Hw1; [|now subst res].
    cbn [host remote] in Hres.
    destruct (writeRecord (path h) data (updatedAt h) now (host w1))
      as [[[]|e] hs] eqn:Hw2; [|now subst res].
    subst res. intros _. destruct Hun as [Hu1 Hu2]. split; cbn [snd host remote].
    + rewrite <- Hu2. eapply writeRecord_Ok, Hw1.
    + rewrite <- Hu1. eapply writeRecord_Ok, Hw2.
  - subst res. intros _. exact Hun.
  - destruct (updatedAt h <? updatedAt r); subst res; intros Hok.
    + eapply pulled_from; [exact Hun|].
      exact (pull_mem 0 (withAction a Pull) now w1 r eq_refl Hr Hok).
    + eapply pushed_from; [exact Hun|].
      exact (push_mem 0 (withAction a Push) now w1 h eq_refl Hh Hok).
  - destruct (updatedAt h <? updatedAt r); subst res; intros Hok.
    + eapply pushed_from; [exact Hun|].
      exact (push_mem 0 (withAction a Push) now w1 h eq_refl Hh Hok).
    + eapply pulled_from; [exact Hun|].
      exact (pull_mem 0 (withAction a Pull) now w1 r eq_refl Hr Hok).
  - subst res. intros Hok.
    eapply pulled_from; [exact Hun|].
      exact (pull_mem 0 (withAction a Pull) now w1 r eq_refl Hr Hok).
  - subst res. intros Hok.
    eapply pushed_from; [exact Hun|].
      exact (push_mem 0 (withAction a Push) now w1 h eq_refl Hh Hok).
Qed.

End Runs.

End MemRuns.

Module Settling.
Import PlanSpec PlannerFacts SyncController MemStore Effects StoreFacts.
Import ApplierFacts MemRuns.

Ltac decide_cases Hd :=
  unfold decide in Hd; simpl in Hd;
  repeat match type of Hd with
    | context [if ?b then _ else _] => destruct b eqn:?; simpl in Hd
    end;
  try discriminate Hd.

Lemma decide_Prune w (oh or : option FileMetadata) :
  decide w oh or = Some Prune ->
  exists h, oh = Some h /\ deleted h = true /\
            (or = None \/ exists r, or = Some r /\ deleted r = true).
Proof.
  intros Hd. destruct oh as [h|], or as [r|]; decide_cases Hd;
    exists h; repeat split; eauto.
Qed.

Lemma decide_Push w (oh or : option FileMetadata) :
  decide w oh or = Some Push -> exists h, oh = Some h /\ deleted h = false.
Proof.
  intros Hd. destruct oh as [h|], or as [r|]; decide_cases Hd; exists h; now split.
Qed.

Lemma decide_Pull w (oh or : option FileMetadata) :
  decide w oh or = Some Pull -> exists r, or = Some r /\ deleted r = false.
Proof.
  intros Hd. destruct oh as [h|], or as [r|]; decide_cases Hd; exists r; now split.
Qed.

Lemma decide_Conflict w (oh or : option FileMetadata) :
  decide w oh or = Some Conflict ->
  exists h r, oh = Some h /\ or = Some r /\ deleted h = false /\ deleted r = false.
Proof.
  intros Hd. destruct oh as [h|], or as [r|]; decide_cases Hd;
    exists h, r; now repeat split.
Qed.

Lemma pushed_settles now p h (w w' : World Store Store) :
  pushed h w w' -> recordAt (host w) p = Some h -> deleted h = false ->
  updatedAt h <= now ->
  settled now w' p /\ sameElsewhere p w w'.
Proof.
  intros [Hhost Hwl] Hoh Hlive Hle. pose proof (recordAt_path _ _ _ Hoh) as Hp.
  rewrite Hp in Hwl. split.
  - unfold settled. rewrite Hhost, Hoh.
    destruct (wroteLive_recordAt _ _ _ _ Hwl) as (f & -> & Hd & Ht).
    apply decide_level; auto; lia.
  - intros q Hq. rewrite Hhost. split; [reflexivity|].
    eapply wroteLive_elsewhere; eauto.
Qed.

Lemma pulled_settles now p r (w w' : World Store Store) :
  pulled r w w' -> recordAt (remote w) p = Some r -> deleted r = false ->
  updatedAt r <= now ->
  settled now w' p /\ sameElsewhere p w w'.
Proof.
  intros [Hremote Hwl] Hor Hlive Hle. pose proof (recordAt_path _ _ _ Hor) as Hp.
  rewrite Hp in Hwl. split.
  - unfold settled. rewrite Hremote, Hor.
    destruct (wroteLive_recordAt _ _ _ _ Hwl) as (f & -> & Hd & Ht).
    apply decide_level; auto; lia.
  - intros q Hq. rewrite Hremote. split; [|reflexivity].
    eapply wroteLive_elsewhere; eauto.
Qed.

Lemma merged_settles now p h r (w w' : World Store Store) :
  merged h r now w w' -> path h = p -> path r = p ->
  settled now w' p /\ sameElsewhere p w w'.
Proof.
  intros [Hr Hh] Hph Hpr. rewrite Hph in Hh. rewrite Hpr in Hr. split.
  - unfold settled.
    destruct (wroteLive_recordAt _ _ _ _ Hh) as (f & -> & Hdf & Htf).
    destruct (wroteLive_recordAt _ _ _ _ Hr) as (g & -> & Hdg & Htg).
    apply decide_level; auto; lia.
  - intros q Hq. split; eapply wroteLive_elsewhere; eauto.
Qed.

Section Step.
Context {matcher : Minimatch} {merger : Reconcile} {crypto : Crypto}.

Abbreviation W := (World Store Store).
Abbreviation apply1 :=
  (applySyncAction (hostFs := memFileSystem) (remoteFs := memFileSystem)).
Abbreviation applyMany :=
  (applyAll (hostFs := memFileSystem) (remoteFs := memFileSystem)).

(** One applied action settles its path and touches no other. *)
Lemma apply_settles w0 now (w : W) p a :
  hostFile a = recordAt (host w) p ->
  remoteFile a = recordAt (remote w) p ->
  decide w0 (recordAt (host w) p) (recordAt (remote w) p) = Some (action a) ->
  settles (settings w) a ->
  (forall f, hostFile a = Some f \/ remoteFile a = Some f -> updatedAt f <= now) ->
  fst (apply1 a now w) = Ok tt ->
  settled now (snd (apply1 a now w)) p /\ sameElsewhere p w (snd (apply1 a now w)).
Proof.
  intros Hh Hr Hd [Hnorem Hnoign] Hle Hok. rewrite <- Hh, <- Hr in Hd.
  destruct (action a) eqn:Ha.
  - apply decide_Prune in Hd as (h & Hh' & Hdel & Hrem).
    destruct (prune_mem 1 a now w h Ha Hh') as [Hhost Hremote].
    fold (apply1 a now w) in Hhost, Hremote.
    assert (path h = p) as Hp
      by (apply (recordAt_path (host w)); congruence).
    assert (exists e, host w !! p = Some e /\ e_deleted e = true) as (e & He & Hde).
    { rewrite Hh in Hh'. unfold recordAt in Hh'.
      destruct (host w !! p) as [e|]; [|discriminate]. exists e. split; [reflexivity|].
      simpl in Hh'. injection Hh' as <-. exact Hdel. }
    rewrite Hp, (pruneRecord_tombstone _ _ _ He Hde) in Hhost. simpl in Hhost.
    split.
    + unfold settled. rewrite Hhost, Hremote. unfold recordAt at 1.
      rewrite lookup_delete_eq. simpl. rewrite <- Hr.
      destruct Hrem as [->|(r & -> & Hdr)]; [reflexivity|].
      now apply decide_lone_tombstone.
    + intros q Hq. rewrite Hhost, Hremote. split; [|reflexivity].
      now apply lookup_delete_ne.
  - congruence.
  - apply decide_Conflict in Hd as (h & r & Hh' & Hr' & Hlh & Hlr).
    pose proof (conflict_mem a now w h r Ha Hh' Hr' Hok) as Heff.
    specialize (Hnoign eq_refl h r Hh' Hr').
    assert (recordAt (host w) p = Some h) as Hoh by congruence.
    assert (recordAt (remote w) p = Some r) as Hor by congruence.
    assert (updatedAt h <= now) by (apply Hle; auto).
    assert (updatedAt r <= now) by (apply Hle; auto).
    destruct (ConflictResolver.getResolutionStrategy (settings w) h r)
      as [[]|e]; try contradiction;
      try (destruct Heff as [Hsh Hsr]; split;
           [unfold settled; rewrite Hsh, Hsr, Hoh, Hor;
            apply decide_level; auto
           |intros q _; now rewrite Hsh, Hsr]);
      try (destruct (updatedAt h <? updatedAt r));
      try (eapply pushed_settles; now eauto);
      try (eapply pulled_settles; now eauto).
    all: apply (merged_settles now p h r); auto;
      [apply (recordAt_path (host w)) | apply (recordAt_path (remote w))]; assumption.
  - apply decide_Push in Hd as (h & Hh' & Hlh).
    eapply pushed_settles; [apply (push_mem 1 a now w h Ha Hh' Hok) | congruence | auto |].
    apply Hle; auto.
  - apply decide_Pull in Hd as (r & Hr' & Hlr).
    eapply pulled_settles; [apply (pull_mem 1 a now w r Ha Hr' Hok) | congruence | auto |].
    apply Hle; auto.
Qed.


Lemma settled_same now (w w' : W) p :
  host w' !! p = host w !! p -> remote w' !! p = remote w !! p ->
  settled now w p -> settled now w' p.
Proof.
  unfold settled. intros Hh Hr.
  now rewrite (recordAt_same _ _ _ Hh), (recordAt_same _ _ _ Hr).
Qed.

(** Applying the actions of a keyed map, one after the other: every key
    ends up settled, and no other path is touched. *)
Lemma applyMany_settles w0 now (m : ObjMap) : forall (w : W),
  NoDup (map fst m) ->
  (forall k a, In (k, a) m ->
     hostFile a = recordAt (host w) k /\
     remoteFile a = recordAt (remote w) k /\
     decide w0 (recordAt (host w) k) (recordAt (remote w) k) = Some (action a) /\
     settles (settings w) a /\
     (forall f, hostFile a = Some f \/ remoteFile a = Some f -> updatedAt f <= now)) ->
  fst (applyMany (map snd m) now w) = Ok tt ->
  (forall k, In k (map fst m) -> settled now (snd (applyMany (map snd m) now w)) k) /\
  (forall q, ~ In q (map fst m) ->
     host (snd (applyMany (map snd m) now w)) !! q = host w !! q /\
     remote (snd (applyMany (map snd m) now w)) !! q = remote w !! q).
Proof.
  induction m as [|[k a] m IH]; intros w Hnd Hall Hok.
  - split; [intros k [] | intros q _; now split].
  - apply NoDup_cons in Hnd as [Hk Hnd].
    assert (~ In k (map fst m)) as Hk' by (now rewrite <- list_elem_of_In).
    destruct (Hall k a (or_introl eq_refl)) as (Hh & Hr & Hd & Hs & Hle).
    simpl in Hok |- *. unfold bind in Hok |- *.
    pose proof (apply_settles w0 now w k a Hh Hr Hd Hs Hle) as Hstep.
    pose proof (applySyncActionRec_keeps (hostFs := memFileSystem)
                  (remoteFs := memFileSystem) 2 a now w) as Hset.
    fold (apply1 a now w) in Hset.
    destruct (apply1 a now w) as [[[]|e] w1]; [|discriminate].
    simpl in Hstep, Hset. destruct (Hstep eq_refl) as [Hsettled Hframe].
    assert (forall k' a', In (k', a') m -> k' <> k) as Hne.
    { intros k' a' Hin ->. apply Hk'. apply in_map_iff. now exists (k, a'). }
    destruct (IH w1 Hnd) as [IH1 IH2]; [|exact Hok|].
    { intros k' a' Hin. destruct (Hall k' a' (or_intror Hin)) as (H1 & H2 & H3 & H4 & H5).
      destruct (Hframe k' (Hne _ _ Hin)) as [Hf1 Hf2].
      rewrite (recordAt_same _ _ _ Hf1), (recordAt_same _ _ _ Hf2), Hset.
      auto. }
    split.
    + intros k' [<-|Hin]; [|now apply IH1].
      destruct (IH2 k Hk') as [H1 H2]. now apply (settled_same now w1).
    + intros q Hq. destruct (IH2 q) as [H1 H2]; [intros Hin; apply Hq; now right|].
      destruct (Hframe q) as [H3 H4]; [intros ->; apply Hq; now left|].
      split; congruence.
Qed.

End Step.

End Settling.

Module IdempotenceTheorems.
Import PlanSpec PlannerFacts PlanPerPath SyncController MemStore Effects StoreFacts.
Import Settling Samples.

Section Pass.
Context {matcher : Minimatch} {merger : Reconcile} {crypto : Crypto}.

Abbreviation W := (World Store Store).
Abbreviation applyMany :=
  (applyAll (hostFs := memFileSystem) (remoteFs := memFileSystem)).

Lemma recordAt_notAfter now (s : Store) p f :
  notAfter now s -> recordAt s p = Some f -> updatedAt f <= now.
Proof.
  unfold recordAt. intros Hs Hf. destruct (s !! p) as [e|] eqn:He; [|discriminate].
  simpl in Hf. injection Hf as <-. simpl. exact (Hs p e He).
Qed.

(** C4 (amended). Over two in-memory stores none of whose records is
    updated after [now]: when the plan of a pass holds no remove action
    and no conflict between copies with different timestamps that the
    settings resolve by [ignore], and all its actions have been applied
    without a throw, the plan computed from the stores as they then are,
    with the watermark at [now], is empty. *)
Theorem replan_after_pass_is_empty w0 now (w : W) :
  (forall a, In a (planOf w0 (host w) (remote w)) -> settles (settings w) a) ->
  notAfter now (host w) -> notAfter now (remote w) ->
  fst (applyMany (planOf w0 (host w) (remote w)) now w) = Ok tt ->
  planOf now
    (host (snd (applyMany (planOf w0 (host w) (remote w)) now w)))
    (remote (snd (applyMany (planOf w0 (host w) (remote w)) now w))) = [].
Proof.
  intros Hsettles Hhost Hremote Hok.
  unfold planOf in *. unfold createSyncAction in Hsettles, Hok |- *.
  set (m := createSyncMap w0 (filesOf (host w)) (filesOf (remote w))) in *.
  destruct (createSyncMap_inv w0 (filesOf (host w)) (filesOf (remote w)))
    as [_ Hnd]. fold m in Hnd.
  assert (forall k, actionAt m k =
            createAction (recordAt (host w) k) (recordAt (remote w) k)
              <$> decide w0 (recordAt (host w) k) (recordAt (remote w) k)) as Hat.
  { intros k. unfold m. rewrite createSyncMap_actionAt. apply planOf_planned. }
  destruct (applyMany_settles w0 now m w Hnd) as [Hkeys Hrest]; [|exact Hok|].
  { intros k a Hin. pose proof (In_actionAt _ _ _ Hnd Hin) as Hk. rewrite Hat in Hk.
    destruct (decide w0 (recordAt (host w) k) (recordAt (remote w) k)) as [kind|];
      [|discriminate].
    simpl in Hk. injection Hk as <-. simpl.
    split; [reflexivity|]. split; [reflexivity|]. split; [reflexivity|]. split.
    - apply Hsettles, in_map_iff. now exists (k, createAction
        (recordAt (host w) k) (recordAt (remote w) k) kind).
    - intros f [Hf|Hf];
        [exact (recordAt_notAfter now (host w) k f Hhost Hf)
        |exact (recordAt_notAfter now (remote w) k f Hremote Hf)]. }
  set (w' := snd (applyMany (map snd m) now w)) in *.
  apply (createSyncAction_nil now (filesOf (host w')) (filesOf (remote w'))).
  intros p. rewrite planOf_planned.
  assert (settled now w' p) as Hp.
  { destruct (actionAt m p) as [a|] eqn:Ha.
    - apply Hkeys. apply actionAt_In in Ha. apply in_map_iff. now exists (p, a).
    - assert (~ In p (map fst m)) as Hnot.
      { apply has_false_not_In. destruct (has m p) eqn:Hhas; [|reflexivity].
        apply has_actionAt in Hhas. congruence. }
      destruct (Hrest p Hnot) as [H1 H2]. apply (settled_same now w); auto.
      unfold settled. rewrite Hat in Ha.
      apply decide_None_later with (w := w0).
      + now destruct (decide w0 (recordAt (host w) p) (recordAt (remote w) p)).
      + intros f [Hf|Hf];
          [exact (recordAt_notAfter now (host w) p f Hhost Hf)
          |exact (recordAt_notAfter now (remote w) p f Hremote Hf)]. }
  unfold settled in Hp. now rewrite Hp.
Qed.

End Pass.

Lemma replan_after_pass_is_empty_witness :
  planOf 0 (host PassSamples.world) (remote PassSamples.world) <> [] /\
  planOf 1000
    (host (snd (applyAllOnMem
                  (planOf 0 (host PassSamples.world) (remote PassSamples.world))
                  1000 PassSamples.world)))
    (remote (snd (applyAllOnMem
                    (planOf 0 (host PassSamples.world) (remote PassSamples.world))
                    1000 PassSamples.world))) = [].
Proof.
  split; [vm_compute; discriminate|].
  apply (replan_after_pass_is_empty (matcher := Doubles.literalMatch)
           (merger := Doubles.appendMerge) (crypto := Doubles.plainCrypto)
           0 1000 PassSamples.world).
  - intros a Hin. vm_compute in Hin.
    repeat (destruct Hin as [<-|Hin]; [split; [discriminate|];
      intros Hc h r Hh Hr; try discriminate Hc;
      injection Hh as <-; injection Hr as <-; vm_compute; discriminate|]).
    destruct Hin.
  - unfold notAfter. apply (bool_decide_unpack _). vm_compute. exact I.
  - unfold notAfter. apply (bool_decide_unpack _). vm_compute. exact I.
  - vm_compute. reflexivity.
Defined.

(** C4 as stated fails: a conflict that the settings say to ignore leaves
    both copies as they are, and with the watermark moved past both
    timestamps the next plan pulls the newer remote copy. *)
Lemma replan_after_ignored_conflict_counterexample :
  ~ (forall (w0 now : Z) (w : World Store Store),
       notAfter now (host w) -> notAfter now (remote w) ->
       fst (applyAllOnMem (planOf w0 (host w) (remote w)) now w) = Ok tt ->
       planOf now
         (host (snd (applyAllOnMem (planOf w0 (host w) (remote w)) now w)))
         (remote (snd (applyAllOnMem (planOf w0 (host w) (remote w)) now w))) = []).
Proof.
  intros Hclaim.
  specialize (Hclaim 0 1000 PassSamples.ignoredConflict).
  assert (notAfter 1000 (host PassSamples.ignoredConflict)) as H1
    by (unfold notAfter; apply (bool_decide_unpack _); vm_compute; exact I).
  assert (notAfter 1000 (remote PassSamples.ignoredConflict)) as H2
    by (unfold notAfter; apply (bool_decide_unpack _); vm_compute; exact I).
  specialize (Hclaim H1 H2 eq_refl). vm_compute in Hclaim. discriminate Hclaim.
Qed.

(** A remove is followed by a prune: once the remote copy is deleted, both
    stores hold a tombstone for the path, which the next plan prunes. *)
Lemma replan_after_remove_example :
  map action (planOf 0 (host PassSamples.staleRemoteCopy)
                (remote PassSamples.staleRemoteCopy)) = [Remove] /\
  fst (applyAllOnMem (planOf 0 (host PassSamples.staleRemoteCopy)
                        (remote PassSamples.staleRemoteCopy))
         1000 PassSamples.staleRemoteCopy) = Ok tt /\
  map action
    (planOf 1000
       (host (snd (applyAllOnMem (planOf 0 (host PassSamples.staleRemoteCopy)
                                    (remote PassSamples.staleRemoteCopy))
                     1000 PassSamples.staleRemoteCopy)))
       (remote (snd (applyAllOnMem (planOf 0 (host PassSamples.staleRemoteCopy)
                                      (remote PassSamples.staleRemoteCopy))
                       1000 PassSamples.staleRemoteCopy)))) = [Prune].
Proof. vm_compute. repeat split. Qed.

(** A record stamped after [now] is planned as a conflict once it has been
    pushed: its timestamp is later than the new watermark. *)
Lemma replan_after_future_timestamp_example :
  map action (planOf 0 (host PassSamples.futureFile)
                (remote PassSamples.futureFile)) = [Push] /\
  map action
    (planOf 1000
       (host (snd (applyAllOnMem (planOf 0 (host PassSamples.futureFile)
                                    (remote PassSamples.futureFile))
                     1000 PassSamples.futureFile)))
       (remote (snd (applyAllOnMem (planOf 0 (host PassSamples.futureFile)
                                      (remote PassSamples.futureFile))
                       1000 PassSamples.futureFile)))) = [Conflict].
Proof. vm_compute. repeat split. Qed.

End IdempotenceTheorems.

(** * More on the planner *)

Module PlanTable.
Import PlanSpec PlannerFacts PlannerTheorems PlanPerPath MoreSpec.

Lemma firstAction_Some act files k a :
  firstAction act files k = Some a ->
  exists f, In f files /\ path f = k /\ act f = Some a.
Proof.
  induction files as [|f files IH]; simpl; [discriminate|].
  destruct (String.eqb (path f) k) eqn:Hk.
  - apply String.eqb_eq in Hk. destruct (act f) as [a'|] eqn:Ha.
    + intros [= <-]. exists f. auto.
    + intros Hr. destruct (IH Hr) as (g & Hg & Hp & Hact). exists g. auto.
  - intros Hr. destruct (IH Hr) as (g & Hg & Hp & Hact). exists g. auto.
Qed.

Lemma planned_Some_origin w hostFiles remoteFiles k a :
  planned w hostFiles remoteFiles k = Some a ->
  (exists f, In f remoteFiles /\ deleted f = true /\
             remoteDeletionAction hostFiles f = Some a) \/
  (exists f, In f hostFiles /\ deleted f = true /\
             hostDeletionAction remoteFiles f = Some a) \/
  (exists f, In f hostFiles /\ deleted f = false /\
             hostModificationAction w remoteFiles f = Some a) \/
  (exists f, In f remoteFiles /\ deleted f = false /\
             remoteModificationAction w hostFiles f = Some a).
Proof.
  unfold planned.
  repeat match goal with |- context [firstAction ?act ?l k] =>
    let H := fresh "H" in destruct (firstAction act l k) eqn:H; simpl end;
  try discriminate; intros [= <-];
  match goal with H : firstAction _ _ _ = Some _ |- _ =>
    apply firstAction_Some in H as (f & Hin & _ & Hact);
    apply filter_In in Hin as [Hin Hd] end.
  - left. exists f. auto.
  - right; left. exists f. auto.
  - right; right; left. exists f. apply negb_true_iff in Hd. auto.
  - right; right; right. exists f. apply negb_true_iff in Hd. auto.
Qed.

(** X1. With one record per path in each list, the plan is the decision
    table read path by path: an action is planned exactly when, for some
    path, the table gives its kind for the two records found at that path,
    and the action pairs those two records. *)
Theorem plan_is_decision_table w hostFiles remoteFiles a :
  NoDup (map path hostFiles) -> NoDup (map path remoteFiles) ->
  (In a (createSyncAction w hostFiles remoteFiles) <->
   exists p kind,
     decide w (getFile hostFiles p) (getFile remoteFiles p) = Some kind /\
     a = createAction (getFile hostFiles p) (getFile remoteFiles p) kind).
Proof.
  intros Hh Hr. rewrite createSyncAction_In. split.
  - intros [p Hp]. rewrite planned_decide in Hp by assumption.
    destruct (decide w (getFile hostFiles p) (getFile remoteFiles p)) as [kind|] eqn:Hd;
      [|discriminate].
    simpl in Hp. injection Hp as <-. exists p, kind. auto.
  - intros (p & kind & Hd & ->). exists p.
    rewrite planned_decide by assumption. now rewrite Hd.
Qed.

Lemma plan_is_decision_table_witness :
  let h := mkFile "config.json" 1 10 200 200 false in
  let r := mkFile "config.json" 1 10 250 250 false in
  In (createAction (Some h) (Some r) Conflict) (createSyncAction 100 [h] [r]).
Proof.
  intros h r.
  apply (plan_is_decision_table 100 [h] [r]); try apply NoDup_singleton.
  exists "config.json", Conflict. split; reflexivity.
Defined.

(** X2. Whatever the two lists hold, duplicates included, the plan has at
    most one action about a path: two planned actions that are about the
    same path are the same action. *)
Theorem one_action_per_path w hostFiles remoteFiles p a a' :
  In a (createSyncAction w hostFiles remoteFiles) ->
  In a' (createSyncAction w hostFiles remoteFiles) ->
  concerns p a -> concerns p a' -> a = a'.
Proof.
  intros Ha Ha' Hc Hc'.
  apply createSyncAction_In in Ha as [k Hk], Ha' as [k' Hk'].
  assert (k = p) by (eapply planned_concerns; eauto).
  assert (k' = p) by (eapply planned_concerns; eauto).
  congruence.
Qed.

Lemma one_action_per_path_witness :
  let h := mkFile "x.txt" 1 50 50 50 false in
  let d1 := mkFile "x.txt" 0 10 10 10 true in
  let d2 := mkFile "x.txt" 0 100 100 100 true in
  let a := createAction (Some h) (Some d1) Push in
  In a (createSyncAction 0 [h] [d1; d2]) /\
  default a (head (createSyncAction 0 [h] [d1; d2])) = a.
Proof.
  intros h d1 d2 a.
  assert (In a (createSyncAction 0 [h] [d1; d2])) as Hin by now left.
  split; [exact Hin|].
  apply (one_action_per_path 0 [h] [d1; d2] "x.txt"
           (default a (head (createSyncAction 0 [h] [d1; d2]))) a).
  - now left.
  - exact Hin.
  - left. now exists h.
  - left. now exists h.
Defined.

Lemma wellFormed_of_planned w hostFiles remoteFiles a :
  In a (createSyncAction w hostFiles remoteFiles) ->
  wellFormed hostFiles remoteFiles a.
Proof.
  intros Hin. apply createSyncAction_In in Hin as [k Hk].
  apply planned_Some_origin in Hk
    as [(f & Hf & Hd & Hact)|[(f & Hf & Hd & Hact)|[(f & Hf & Hd & Hact)|(f & Hf & Hd & Hact)]]].
  - unfold remoteDeletionAction in Hact.
    destruct (getFile hostFiles (path f)) as [h|] eqn:Hg; [|discriminate].
    apply getFile_Some in Hg as [Hh Hp]. injection Hact as <-.
    unfold wellFormed. simpl. repeat split.
    + now intros ? [= <-].
    + now intros ? [= <-].
    + now intros ? ? [= <-] [= <-].
    + destruct (deleted h) eqn:Hdh; [now exists h|].
      destruct (createdAt h <? deletedAt f).
      * exists h, f. rewrite Hd, Hdh. auto.
      * now exists h.
  - unfold hostDeletionAction in Hact.
    destruct (getFile remoteFiles (path f)) as [r|] eqn:Hg.
    + apply getFile_Some in Hg as [Hr Hp].
      destruct (deleted r) eqn:Hdr; [discriminate|]. injection Hact as <-.
      unfold wellFormed. simpl. repeat split.
      * now intros ? [= <-].
      * now intros ? [= <-].
      * now intros ? ? [= <-] [= <-].
      * destruct (createdAt r <? deletedAt f).
        -- exists f, r. rewrite Hd, Hdr. auto.
        -- now exists r.
    + injection Hact as <-. unfold wellFormed. simpl. repeat split.
      * now intros ? [= <-].
      * intros ? [=].
      * intros ? ? _ [=].
      * now exists f.
  - unfold hostModificationAction in Hact.
    destruct (getFile remoteFiles (path f)) as [r|] eqn:Hg.
    + apply getFile_Some in Hg as [Hr Hp].
      destruct (updatedAt r <? updatedAt f);
        [|destruct (updatedAt r >? w); [|discriminate]];
        injection Hact as <-; unfold wellFormed; simpl; repeat split;
        try (now intros ? [= <-]); try (now intros ? ? [= <-] [= <-]).
      * now exists f.
      * now exists f, r.
    + injection Hact as <-. unfold wellFormed. simpl. repeat split.
      * now intros ? [= <-].
      * intros ? [=].
      * intros ? ? _ [=].
      * now exists f.
  - unfold remoteModificationAction in Hact.
    destruct (getFile hostFiles (path f)) as [h|] eqn:Hg.
    + apply getFile_Some in Hg as [Hh Hp].
      destruct (updatedAt h <? updatedAt f);
        [|destruct (updatedAt h >? w); [|discriminate]];
        injection Hact as <-; unfold wellFormed; simpl; repeat split;
        try (now intros ? [= <-]); try (now intros ? ? [= <-] [= <-]).
      * now exists f.
      * now exists h, f.
    + injection Hact as <-. unfold wellFormed. simpl. repeat split.
      * intros ? [=].
      * now intros ? [= <-].
      * intros ? ? [=].
      * now exists f.
Qed.

(** X3. Every planned action is well formed over its inputs, duplicates
    included: its records are records of the two lists and share one path;
    a prune has a host tombstone; a remove has both records, exactly one
    of them a tombstone; a push has a live host record; a pull has a live
    remote record; a conflict has both records. *)
Theorem planned_actions_well_formed w hostFiles remoteFiles a :
  In a (createSyncAction w hostFiles remoteFiles) ->
  wellFormed hostFiles remoteFiles a.
Proof. apply wellFormed_of_planned. Qed.

Lemma planned_actions_well_formed_witness :
  let hd := mkFile "x.txt" 0 50 50 50 true in
  let r := mkFile "x.txt" 1 40 40 40 false in
  wellFormed [hd] [r] (createAction (Some hd) (Some r) Remove).
Proof.
  intros hd r. apply (planned_actions_well_formed 0 [hd] [r]). now left.
Defined.


Lemma decide_plans w hostFiles remoteFiles p :
  NoDup (map path hostFiles) -> NoDup (map path remoteFiles) ->
  match decide w (getFile hostFiles p) (getFile remoteFiles p) with
  | Some kind =>
      plansExactly (createSyncAction w hostFiles remoteFiles) p
        (createAction (getFile hostFiles p) (getFile remoteFiles p) kind)
  | None => noActionFor p (createSyncAction w hostFiles remoteFiles)
  end.
Proof.
  intros Hh Hr. pose proof (planned_decide w hostFiles remoteFiles p Hh Hr) as Hp.
  destruct (decide w (getFile hostFiles p) (getFile remoteFiles p)) as [kind|].
  - simpl in Hp. apply planned_Some_only_action in Hp as (H1 & _ & H2). now split.
  - simpl in Hp. unfold noActionFor. now apply planned_None_no_action.
Qed.

(** X4. For a host tombstone, each list holding one record per path: with
    no remote record the plan prunes it; against a remote tombstone it is
    pruned too; against a live remote record created strictly before the
    host deletion the plan removes, and otherwise it pulls. That action is
    the only one about the path. *)
Theorem host_tombstone_plan w hostFiles remoteFiles hd :
  NoDup (map path hostFiles) -> NoDup (map path remoteFiles) ->
  In hd hostFiles -> deleted hd = true ->
  plansExactly (createSyncAction w hostFiles remoteFiles) (path hd)
    (createAction (Some hd) (getFile remoteFiles (path hd))
       match getFile remoteFiles (path hd) with
       | None => Prune
       | Some r =>
           if deleted r then Prune
           else if createdAt r <? deletedAt hd then Remove else Pull
       end).
Proof.
  intros Hh Hr Hin Hd.
  pose proof (decide_plans w hostFiles remoteFiles (path hd) Hh Hr) as Hp.
  rewrite (getFile_unique _ _ Hin (NoDup_path_unique _ _ Hh Hin)) in Hp.
  unfold decide in Hp. rewrite Hd in Hp.
  destruct (getFile remoteFiles (path hd)) as [r|]; simpl in Hp.
  - destruct (deleted r); simpl in Hp; exact Hp.
  - exact Hp.
Qed.

Lemma host_tombstone_plan_witness :
  let hd := mkFile "x.txt" 0 50 50 50 true in
  let r := mkFile "x.txt" 1 60 60 60 false in
  plansExactly (createSyncAction 0 [hd] [r]) "x.txt"
    (createAction (Some hd) (Some r) Pull).
Proof.
  intros hd r.
  apply (host_tombstone_plan 0 [hd] [r] hd); try apply NoDup_singleton.
  - now left.
  - reflexivity.
Defined.

(** X5. For a live host record [h], each list holding one record per
    path: with no remote record the plan pushes [h] alone; against a live
    remote record that is strictly older it pushes, whatever the
    watermark; against one that is strictly newer it plans a conflict when
    the remote [updatedAt] is later than the watermark and a pull
    otherwise. That action is the only one about the path. *)
Theorem live_host_file_plan w hostFiles remoteFiles h :
  NoDup (map path hostFiles) -> NoDup (map path remoteFiles) ->
  In h hostFiles -> deleted h = false ->
  match getFile remoteFiles (path h) with
  | None =>
      plansExactly (createSyncAction w hostFiles remoteFiles) (path h)
        (createAction (Some h) None Push)
  | Some r =>
      deleted r = false ->
      (updatedAt r < updatedAt h ->
       plansExactly (createSyncAction w hostFiles remoteFiles) (path h)
         (createAction (Some h) (Some r) Push)) /\
      (updatedAt h < updatedAt r ->
       plansExactly (createSyncAction w hostFiles remoteFiles) (path h)
         (createAction (Some h) (Some r)
            (if updatedAt r >? w then Conflict else Pull)))
  end.
Proof.
  intros Hh Hr Hin Hlive.
  pose proof (decide_plans w hostFiles remoteFiles (path h) Hh Hr) as Hp.
  rewrite (getFile_unique _ _ Hin (NoDup_path_unique _ _ Hh Hin)) in Hp.
  unfold decide in Hp. rewrite Hlive in Hp.
  destruct (getFile remoteFiles (path h)) as [r|]; simpl in Hp; [|exact Hp].
  intros Hlr. rewrite Hlr in Hp. simpl in Hp. split; intros Hlt.
  - apply Z.ltb_lt in Hlt. rewrite Hlt in Hp. exact Hp.
  - assert ((updatedAt r <? updatedAt h) = false) as H1 by (apply Z.ltb_ge; lia).
    apply Z.ltb_lt in Hlt. rewrite H1 in Hp. simpl in Hp.
    destruct (updatedAt r >? w); simpl in Hp; [exact Hp|].
    rewrite Hlt in Hp. exact Hp.
Qed.

Lemma live_host_file_plan_witness :
  let h := mkFile "config.json" 1 10 200 200 false in
  let r := mkFile "config.json" 1 10 150 150 false in
  plansExactly (createSyncAction 100 [h] [r]) "config.json"
    (createAction (Some h) (Some r) Push).
Proof.
  intros h r.
  apply (live_host_file_plan 100 [h] [r] h (NoDup_singleton _) (NoDup_singleton _)
           (or_introl eq_refl) eq_refl eq_refl).
  simpl. lia.
Defined.

(** X6. A live remote record with no host record at its path is pulled,
    with no host record in the action; each list holds one record per
    path. *)
Theorem remote_only_file_plan w hostFiles remoteFiles r :
  NoDup (map path hostFiles) -> NoDup (map path remoteFiles) ->
  In r remoteFiles -> deleted r = false ->
  getFile hostFiles (path r) = None ->
  plansExactly (createSyncAction w hostFiles remoteFiles) (path r)
    (createAction None (Some r) Pull).
Proof.
  intros Hh Hr Hin Hlive Hnone.
  pose proof (decide_plans w hostFiles remoteFiles (path r) Hh Hr) as Hp.
  rewrite (getFile_unique _ _ Hin (NoDup_path_unique _ _ Hr Hin)), Hnone in Hp.
  unfold decide in Hp. rewrite Hlive in Hp. exact Hp.
Qed.

Lemma remote_only_file_plan_witness :
  let r := mkFile "b.bin" 1 40 50 50 false in
  plansExactly (createSyncAction 0 [] [r]) "b.bin" (createAction None (Some r) Pull).
Proof.
  intros r.
  apply (remote_only_file_plan 0 [] [r] r);
    [apply NoDup_nil_2 | apply NoDup_singleton | now left | reflexivity | reflexivity].
Defined.

Lemma decide_watermark_free w w' (oh or : option FileMetadata) kind :
  kind = Prune \/ kind = Remove \/ kind = Push ->
  decide w oh or = Some kind -> decide w' oh or = Some kind.
Proof.
  intros Hk Hd. destruct oh as [h|], or as [r|]; unfold decide in *; simpl in *;
    repeat match type of Hd with
      | context [if ?b then _ else _] => destruct b eqn:?; simpl in Hd
      end;
    try discriminate Hd; try exact Hd;
    injection Hd as <-; destruct Hk as [Hk|[Hk|Hk]]; discriminate Hk.
Qed.

Lemma decide_conflict_earlier w w' (oh or : option FileMetadata) :
  w <= w' -> decide w' oh or = Some Conflict -> decide w oh or = Some Conflict.
Proof.
  intros Hle Hd. destruct oh as [h|], or as [r|]; unfold decide in *; simpl in *;
    repeat match type of Hd with
      | context [if ?b then _ else _] => destruct b eqn:?; simpl in Hd
      end;
    try discriminate Hd.
  - replace (updatedAt r >? w) with true; [reflexivity|].
    symmetry. rewrite Z.gtb_ltb in *. apply Z.ltb_lt.
    match goal with H : (w' <? _) = true |- _ => apply Z.ltb_lt in H end. lia.
  - exfalso.
    repeat match goal with
      | H : (_ >? _) = _ |- _ => rewrite Z.gtb_ltb in H
      | H : (_ <? _) = true |- _ => apply Z.ltb_lt in H
      | H : (_ <? _) = false |- _ => apply Z.ltb_ge in H
      end. lia.
Qed.

(** X7. The watermark only bears on conflicts and pulls. With one record
    per path in each list, a prune, remove or push planned under one
    watermark is planned under every other; and a conflict planned under
    a watermark is planned under every earlier one. *)
Theorem watermark_only_decides_conflicts w w' hostFiles remoteFiles a :
  NoDup (map path hostFiles) -> NoDup (map path remoteFiles) ->
  In a (createSyncAction w hostFiles remoteFiles) ->
  (action a = Prune \/ action a = Remove \/ action a = Push ->
   In a (createSyncAction w' hostFiles remoteFiles)) /\
  (w' <= w -> action a = Conflict ->
   In a (createSyncAction w' hostFiles remoteFiles)).
Proof.
  intros Hh Hr Hin. apply createSyncAction_In in Hin as [p Hp].
  rewrite planned_decide in Hp by assumption.
  destruct (decide w (getFile hostFiles p) (getFile remoteFiles p)) as [kind|] eqn:Hd;
    [|discriminate].
  simpl in Hp. injection Hp as <-. simpl. split.
  - intros Hk. apply createSyncAction_In. exists p.
    rewrite planned_decide by assumption.
    now rewrite (decide_watermark_free w w' _ _ kind Hk Hd).
  - intros Hle ->. apply createSyncAction_In. exists p.
    rewrite planned_decide by assumption.
    now rewrite (decide_conflict_earlier w' w _ _ Hle Hd).
Qed.

Lemma watermark_only_decides_conflicts_witness :
  let h := mkFile "config.json" 1 10 200 200 false in
  let r := mkFile "config.json" 1 10 250 250 false in
  In (createAction (Some h) (Some r) Conflict) (createSyncAction 0 [h] [r]).
Proof.
  intros h r.
  apply (proj2 (watermark_only_decides_conflicts 100 0 [h] [r]
                  (createAction (Some h) (Some r) Conflict)
                  (NoDup_singleton _) (NoDup_singleton _) (or_introl eq_refl)));
    [lia | reflexivity].
Defined.

End PlanTable.

(** * More on the applier and on [sync] *)

Module ApplierMore.
Import SyncController Trace ApplierFacts MoreSpec.

Section Generic.
Context {HS RS : Type} {hostFs : FileSystem HS} {remoteFs : FileSystem RS}.
Context {matcher : Minimatch} {merger : Reconcile} {crypto : Crypto}.

Abbreviation M := (M HS RS).
Abbreviation World := (World HS RS).
Abbreviation handleConflict :=
  (handleConflict (hostFs := hostFs) (remoteFs := remoteFs)).
Abbreviation applySyncActionRec :=
  (applySyncActionRec (hostFs := hostFs) (remoteFs := remoteFs)).
Abbreviation applySyncAction :=
  (applySyncAction (hostFs := hostFs) (remoteFs := remoteFs)).
Abbreviation applyAll := (applyAll (hostFs := hostFs) (remoteFs := remoteFs)).
Abbreviation sync := (sync (hostFs := hostFs) (remoteFs := remoteFs)).
Abbreviation hostRead := (fun p : string => OnHost (CallGetFileContent p)).
Abbreviation remoteRead := (fun p : string => OnRemote (CallGetFileContent p)).


(** X9. A conflict action that lacks one of its records does nothing. A
    conflict whose reads throw throws the same error and goes no
    further. Otherwise the strategy decides: [ignore] stops there;
    [latest] continues as a pull when the host record is strictly older
    and as a push otherwise; [oldest] the other way round; [always-pull]
    and [always-push] continue as a pull and as a push. The continuation
    is the applier itself, run on the same records with the new kind. *)
Theorem conflict_dispatch a now (w : World) :
  action a = Conflict ->
  (hostFile a = None \/ remoteFile a = None ->
   applySyncAction a now w = (Ok tt, w)) /\
  (forall h r, hostFile a = Some h -> remoteFile a = Some r ->
     match handleConflict h r w with
     | (Throw e, w1) => applySyncAction a now w = (Throw e, w1)
     | (Ok (s, d), w1) =>
         match s with
         | resolve => True
         | ignore => applySyncAction a now w = (Ok tt, w1)
         | latest =>
             applySyncAction a now w =
             applySyncAction
               (withAction a (if updatedAt h <? updatedAt r then Pull else Push))
               now w1
         | oldest =>
             applySyncAction a now w =
             applySyncAction
               (withAction a (if updatedAt h <? updatedAt r then Push else Pull))
               now w1
         | always_pull =>
             applySyncAction a now w = applySyncAction (withAction a Pull) now w1
         | always_push =>
             applySyncAction a now w = applySyncAction (withAction a Push) now w1
         end
     end).
Proof.
  intros Ha. split.
  - intros Hnone. unfold SyncController.applySyncAction.
    cbn [SyncController.applySyncActionRec]. rewrite Ha.
    destruct Hnone as [-> | Hr]; [reflexivity|].
    rewrite Hr. now destruct (hostFile a).
  - intros h r Hh Hr.
    remember (applySyncAction a now w) as run eqn:Hrun.
    unfold SyncController.applySyncAction in Hrun.
    cbn [SyncController.applySyncActionRec] in Hrun. rewrite Ha, Hh, Hr in Hrun.
    unfold bind at 1 in Hrun.
    destruct (handleConflict h r w) as [[[s d]|e] w1]; [|exact Hrun].
    destruct s; subst run; try exact I; try reflexivity;
      destruct (updatedAt h <? updatedAt r); reflexivity.
Qed.

(** X10. When a conflict is to be merged, the merged data is written to
    the remote first, under the remote record's path and [updatedAt] and
    stamped [now], then to the host in the same way; a remote write
    that throws ends the action before the host is written. *)
Theorem merge_writes_remote_first a now (w w1 : World) h r data :
  action a = Conflict -> hostFile a = Some h -> remoteFile a = Some r ->
  handleConflict h r w = (Ok (resolve, Some data), w1) ->
  match fst (update (path r) data (updatedAt r) now (remote w1)) with
  | Ok _ =>
      calls (snd (applySyncAction a now w)) =
      calls w1 ++ [OnRemote (CallUpdate (path r) data (updatedAt r) now);
                   OnHost (CallUpdate (path h) data (updatedAt h) now)] /\
      (fst (applySyncAction a now w), host (snd (applySyncAction a now w))) =
      update (path h) data (updatedAt h) now (host w1)
  | Throw e =>
      calls (snd (applySyncAction a now w)) =
      calls w1 ++ [OnRemote (CallUpdate (path r) data (updatedAt r) now)] /\
      fst (applySyncAction a now w) = Throw e /\
      host (snd (applySyncAction a now w)) = host w1
  end.
Proof.
  intros Ha Hh Hr Hc.
  remember (applySyncAction a now w) as run eqn:Hrun.
  unfold SyncController.applySyncAction in Hrun.
  cbn [SyncController.applySyncActionRec] in Hrun. rewrite Ha, Hh, Hr in Hrun.
  unfold bind at 1 in Hrun. rewrite Hc in Hrun. cbn in Hrun.
  unfold bind, remoteUpdate, hostUpdate, onRemote, onHost in Hrun.
  destruct (update (path r) data (updatedAt r) now (remote w1)) as [[[]|e] rs];
    cbn in Hrun |- *.
  - destruct (update (path h) data (updatedAt h) now (host w1)) as [res hs].
    subst run. cbn. now rewrite <- app_assoc.
  - subst run. cbn. auto.
Qed.

Lemma about_host a h c :
  hostFile a = Some h -> callPath c = Some (path h) -> aboutAction a (OnHost c).
Proof.
  intros Hh Hc. exists c, (path h). split; [now left|]. split; [exact Hc|].
  left. now exists h.
Qed.

Lemma about_remote_of_host a h c :
  hostFile a = Some h -> callPath c = Some (path h) -> aboutAction a (OnRemote c).
Proof.
  intros Hh Hc. exists c, (path h). split; [now right|]. split; [exact Hc|].
  left. now exists h.
Qed.

Lemma about_remote a r c :
  remoteFile a = Some r -> callPath c = Some (path r) -> aboutAction a (OnRemote c).
Proof.
  intros Hr Hc. exists c, (path r). split; [now right|]. split; [exact Hc|].
  right. now exists r.
Qed.

Lemma about_host_of_remote a r c :
  remoteFile a = Some r -> callPath c = Some (path r) -> aboutAction a (OnHost c).
Proof.
  intros Hr Hc. exists c, (path r). split; [now left|]. split; [exact Hc|].
  right. now exists r.
Qed.

Lemma emits_match_strategy {A} P (s : ConflictResolutionStrategy)
    (m1 m2 m3 m4 m5 m6 : M A) :
  emits P m1 -> emits P m2 -> emits P m3 -> emits P m4 -> emits P m5 ->
  emits P m6 ->
  emits P (match s with
           | resolve => m1 | ignore => m2 | latest => m3
           | oldest => m4 | always_pull => m5 | always_push => m6
           end).
Proof. now destruct s. Qed.

Lemma handleConflict_about a h r :
  hostFile a = Some h -> remoteFile a = Some r ->
  emits (aboutAction a) (handleConflict h r).
Proof.
  intros Hh Hr. unfold SyncController.handleConflict.
  apply emits_bind; [apply emits_onHost; now apply (about_host a h)|]. intros c1.
  apply emits_bind; [apply emits_lift|]. intros d1.
  apply emits_bind; [apply emits_onRemote; now apply (about_remote a r)|]. intros c2.
  apply emits_bind; [apply emits_lift|]. intros d2.
  apply emits_bind; [apply emits_lift|]. intros s1.
  apply emits_bind; [apply emits_lift|]. intros s2.
  apply emits_bind; [apply emits_getSettings|]. intros s.
  apply emits_bind; [apply emits_lift|]. intros resolutionStrategy.
  apply emits_match_strategy; try apply emits_ret.
  apply emits_bind; [apply emits_lift|]. intros b.
  apply emits_bind; [apply emits_lift|]. intros enc. apply emits_ret.
Qed.

Lemma applySyncActionRec_about a now depth : forall a',
  hostFile a' = hostFile a -> remoteFile a' = remoteFile a ->
  emits (aboutAction a) (applySyncActionRec depth a' now).
Proof.
  induction depth as [|depth IH]; intros a' Hh Hr;
    cbn [SyncController.applySyncActionRec]; [apply emits_lift|].
  unfold hostPrune, hostRemove, remoteRemove, hostUpdate, remoteUpdate,
    hostGetFileContent, remoteGetFileContent.
  rewrite Hh, Hr.
  destruct (action a').
  - destruct (hostFile a) as [h|] eqn:Eh; [|apply emits_ret].
    apply emits_onHost. now apply (about_host a h).
  - apply emits_bind.
    + destruct (remoteFile a) as [r|] eqn:Er; [|apply emits_ret].
      apply emits_onRemote. now apply (about_remote a r).
    + intros _. destruct (hostFile a) as [h|] eqn:Eh; [|apply emits_ret].
      apply emits_onHost. now apply (about_host a h).
  - destruct (hostFile a) as [h|] eqn:Eh; [|apply emits_ret].
    destruct (remoteFile a) as [r|] eqn:Er; [|apply emits_ret].
    apply emits_bind; [now apply handleConflict_about|].
    intros [s d]. apply emits_match_strategy;
      try (apply IH; assumption); try apply emits_ret.
    destruct d as [data|]; [|apply emits_ret].
    apply emits_bind; [apply emits_onRemote; now apply (about_remote a r)|].
    intros _. apply emits_onHost. now apply (about_host a h).
  - destruct (hostFile a) as [h|] eqn:Eh; [|apply emits_ret].
    apply emits_bind; [apply emits_onHost; now apply (about_host a h)|].
    intros c. apply emits_onRemote. now apply (about_remote_of_host a h).
  - destruct (remoteFile a) as [r|] eqn:Er; [|apply emits_ret].
    apply emits_bind; [apply emits_onRemote; now apply (about_remote a r)|].
    intros c. apply emits_onHost. now apply (about_host_of_remote a r).
Qed.

(** X11. Whatever the action, the strategy and the outcome, every call
    the applier makes is a call on one of the two stores about the path
    of one of the action's two records: it never lists a store and
    never touches another path. *)
Theorem applier_calls_about_action a now (w : World) :
  exists evs,
    calls (snd (applySyncAction a now w)) = calls w ++ evs /\
    Forall (aboutAction a) evs.
Proof.
  exact (applySyncActionRec_about a now 2 a eq_refl eq_refl w).
Qed.

(** X12. Applying a list of actions is applying its first part and then
    the rest on the world that leaves; when an action of the first part
    throws, the run ends there with that error, and no action after it
    is applied. *)
Theorem applyAll_app actions rest now (w : World) :
  match applyAll actions now w with
  | (Ok _, w1) => applyAll (actions ++ rest) now w = applyAll rest now w1
  | (Throw e, w1) => applyAll (actions ++ rest) now w = (Throw e, w1)
  end.
Proof.
  revert w. induction actions as [|a actions IH]; intros w;
    cbn [SyncController.applyAll app].
  - reflexivity.
  - unfold bind. destruct (applySyncAction a now w) as [[[]|e] w1]; [|reflexivity].
    apply IH.
Qed.

(** X13. [sync] lists the host, then the remote. A listing that throws
    ends the pass with its error before anything is planned or applied
    (a host failure even before the remote is asked). When both return,
    the pass applies the plan computed under the persisted watermark (0
    when none was ever written) from the host listing and the remote
    records whose path is not excluded, and then writes the watermark. *)
Theorem sync_phases now (w : World) :
  let watermark := default 0 (last_synced_at (settings w)) in
  match getFiles (host w) with
  | (Throw e, hs) =>
      sync now w =
      (Throw e, {| host := hs; remote := remote w; settings := settings w;
                   this_last_synced_at := watermark;
                   calls := calls w ++ [OnHost CallGetFiles] |})
  | (Ok hostFiles, hs) =>
      match getFiles (remote w) with
      | (Throw e, rs) =>
          sync now w =
          (Throw e, {| host := hs; remote := rs; settings := settings w;
                       this_last_synced_at := watermark;
                       calls := calls w ++ [OnHost CallGetFiles;
                                            OnRemote CallGetFiles] |})
      | (Ok remoteFiles, rs) =>
          sync now w =
          bind (applyAll
                  (createSyncAction watermark hostFiles
                     (filteredRemoteFiles (exclude_globs (settings w)) remoteFiles))
                  now)
               (fun _ => updateSettings now)
               {| host := hs; remote := rs; settings := settings w;
                  this_last_synced_at := watermark;
                  calls := calls w ++ [OnHost CallGetFiles;
                                       OnRemote CallGetFiles] |}
      end
  end.
Proof.
  intros watermark. unfold SyncController.sync, filteredRemoteFiles.
  unfold bind, getSettings, setLastSyncedAt, hostGetFiles,
    remoteGetFiles, getLastSyncedAt, onHost, onRemote.
  cbn [host remote settings this_last_synced_at calls].
  destruct (getFiles (host w)) as [[hostFiles|e] hs];
    cbn [host remote settings this_last_synced_at calls]; [|reflexivity].
  destruct (getFiles (remote w)) as [[remoteFiles|e] rs];
    cbn [host remote settings this_last_synced_at calls];
    rewrite <- app_assoc; reflexivity.
Qed.

End Generic.

End ApplierMore.

(** * Exclusion patterns *)

Module Exclusion.
Import JsString PlanSpec PlannerFacts PlannerTheorems PlanTable MoreSpec.
Import SyncController ResolverTheorems.

Section WithMatcher.
Context {matcher : Minimatch}.

Lemma isFileExcluded_app p l1 l2 :
  isFileExcluded p (l1 ++ l2) = isFileExcluded p l1 || isFileExcluded p l2.
Proof.
  induction l1 as [|x l1 IH]; simpl; [reflexivity|].
  destruct (String.eqb (trim x) ""); [exact IH|].
  destruct (minimatch p x true) as [[|]|e]; [reflexivity | exact IH | exact IH].
Qed.

(** X14. A path is excluded exactly when some pattern of the list that
    is not blank matches it (with the [dot] option); blank patterns,
    patterns on which [minimatch] throws, and the empty list exclude
    nothing. *)
Theorem isFileExcluded_iff p excludePatterns :
  isFileExcluded p excludePatterns = true <->
  exists pattern, In pattern excludePatterns /\ trim pattern <> ""%string /\
                  minimatch p pattern true = Ok true.
Proof.
  induction excludePatterns as [|x l IH]; simpl.
  - split; [discriminate | intros (? & [] & _)].
  - destruct (String.eqb (trim x) "") eqn:Hx.
    + apply String.eqb_eq in Hx. rewrite IH. split.
      * intros (q & Hin & Hq). exists q. auto.
      * intros (q & [->|Hin] & Hne & Hm); [contradiction | exists q; auto].
    + apply String.eqb_neq in Hx.
      destruct (minimatch p x true) as [[|]|e] eqn:Hm.
      * split; [|reflexivity]. intros _. exists x. auto.
      * rewrite IH. split.
        -- intros (q & Hin & Hq). exists q. auto.
        -- intros (q & [->|Hin] & Hne & Hm'); [congruence | exists q; auto].
      * rewrite IH. split.
        -- intros (q & Hin & Hq). exists q. auto.
        -- intros (q & [->|Hin] & Hne & Hm'); [congruence | exists q; auto].
Qed.

Lemma excludeList_newline a b :
  excludeList (a ++ String "010" b) = excludeList a ++ excludeList b.
Proof.
  unfold excludeList. now rewrite split_app, flat_map_app, map_app.
Qed.

(** X15. Lines of [exclude_globs] add up: a path is excluded under two
    texts joined by a newline exactly when it is excluded under one of
    them. *)
Theorem exclusion_lines_add_up p a b :
  isFileExcluded p (excludeList (a ++ String "010" b)) =
  isFileExcluded p (excludeList a) || isFileExcluded p (excludeList b).
Proof. now rewrite excludeList_newline, isFileExcluded_app. Qed.

Lemma filtered_In globs remoteFiles r :
  In r (filteredRemoteFiles globs remoteFiles) <->
  In r remoteFiles /\ isFileExcluded (path r) (excludeList globs) = false.
Proof.
  unfold filteredRemoteFiles. rewrite filter_In, negb_true_iff. reflexivity.
Qed.

(** X16. The planner of a pass never sees an excluded remote record: no
    planned action carries one. The host listing is not filtered there:
    a live host record whose path is excluded, the only host record at
    that path, is planned as a push that carries no remote record,
    whatever the remote holds at that path. *)
Theorem excluded_remote_records_are_invisible w globs hostFiles remoteFiles :
  (forall a r,
     In a (createSyncAction w hostFiles (filteredRemoteFiles globs remoteFiles)) ->
     remoteFile a = Some r ->
     In r remoteFiles /\ isFileExcluded (path r) (excludeList globs) = false) /\
  (forall h,
     In h hostFiles -> deleted h = false ->
     (forall h', In h' hostFiles -> path h' = path h -> h' = h) ->
     isFileExcluded (path h) (excludeList globs) = true ->
     plansExactly
       (createSyncAction w hostFiles (filteredRemoteFiles globs remoteFiles))
       (path h) (createAction (Some h) None Push)).
Proof.
  split.
  - intros a r Hin Hr. apply wellFormed_of_planned in Hin as (_ & Hrem & _).
    now apply filtered_In, Hrem.
  - intros h Hin Hlive Huniq Hex.
    assert (forall r, In r (filteredRemoteFiles globs remoteFiles) ->
                      path r <> path h) as Habs.
    { intros r Hr Hp. apply filtered_In in Hr as [_ Hr]. congruence. }
    assert (getFile (filteredRemoteFiles globs remoteFiles) (path h) = None) as Hg.
    { destruct (getFile _ (path h)) as [r|] eqn:Hg; [|reflexivity].
      apply getFile_Some in Hg as [Hr Hp]. now apply Habs in Hr. }
    assert (planned w hostFiles (filteredRemoteFiles globs remoteFiles) (path h)
            = Some (createAction (Some h) None Push)) as Hp.
    { unfold planned.
      rewrite (firstAction_absent (remoteDeletionAction hostFiles)).
      2:{ intros f Hf. apply filter_In in Hf as [Hf _]. now apply Habs. }
      rewrite (firstAction_absent (hostDeletionAction _)).
      2:{ intros f Hf Hp. apply filter_In in Hf as [Hf Hd].
          rewrite (Huniq f Hf Hp), Hlive in Hd. discriminate. }
      simpl. rewrite (firstAction_unique _ _ h).
      - unfold hostModificationAction. now rewrite Hg.
      - apply filter_In. split; [exact Hin | now rewrite Hlive].
      - intros f Hf Hp. apply filter_In in Hf as [Hf _]. now apply Huniq. }
    apply planned_Some_only_action in Hp as (H1 & _ & H2). now split.
Qed.

End WithMatcher.

Lemma isFileExcluded_iff_witness :
  isFileExcluded (matcher := Doubles.literalMatch) "a.bin" [" "; "a.bin"] = true.
Proof.
  apply (proj2 (isFileExcluded_iff (matcher := Doubles.literalMatch)
                  "a.bin" [" "; "a.bin"])).
  exists "a.bin". split; [right; now left|]. split; [discriminate | reflexivity].
Defined.

Lemma excluded_remote_records_are_invisible_witness :
  let h := mkFile "a.bin" 1 10 100 100 false in
  let r := mkFile "a.bin" 1 10 200 200 false in
  plansExactly
    (createSyncAction 0 [h]
       (filteredRemoteFiles (matcher := Doubles.literalMatch) "notes, a.bin" [r]))
    "a.bin" (createAction (Some h) None Push).
Proof.
  intros h r.
  apply (proj2 (excluded_remote_records_are_invisible
                  (matcher := Doubles.literalMatch) 0 "notes, a.bin" [h] [r]) h).
  - now left.
  - reflexivity.
  - intros h' [<-|[]] _. reflexivity.
  - reflexivity.
Defined.

End Exclusion.

(** * More on the conflict resolver *)

Module ResolverMore.
Import JsString ConflictResolver ResolverTheorems MoreSpec.

Lemma split_length_app sep a b :
  (2 <= length (split sep (a ++ String sep b)%string))%nat.
Proof.
  rewrite split_app, length_app.
  pose proof (split_nonempty sep a). pose proof (split_nonempty sep b).
  destruct (split sep a), (split sep b); simpl; try congruence; lia.
Qed.

Lemma pop_cons_cons x y l : pop (x :: y :: l) = pop (y :: l).
Proof. reflexivity. Qed.

(** The last piece of a split: free of the separator, and either the whole
    string or what follows its last separator. *)
Lemma pop_split sep s :
  exists e, pop (split sep s) = Some e /\ absent sep e /\
            (s = e \/ exists base, s = (base ++ String sep e)%string).
Proof.
  induction s as [|c s (e & Hpop & Habs & Hs)].
  - exists ""%string. simpl. auto.
  - simpl. destruct (Ascii.eqb c sep) eqn:Hc.
    + apply Ascii.eqb_eq in Hc. subst c. exists e.
      pose proof (split_nonempty sep s) as Hne.
      destruct (split sep s) as [|x l] eqn:Hsp; [congruence|].
      rewrite pop_cons_cons. repeat split; auto. right.
      destruct Hs as [->|[base ->]]; [now exists ""%string|].
      now exists (String sep base).
    + apply Ascii.eqb_neq in Hc.
      destruct (split sep s) as [|x l] eqn:Hsp; [now destruct (split_nonempty sep s)|].
      destruct l as [|y l].
      * assert (s = e) as ->.
        { destruct Hs as [Hs|[base Hs]]; [exact Hs|].
          pose proof (split_length_app sep base e) as Hlen.
          rewrite <- Hs, Hsp in Hlen. simpl in Hlen. lia. }
        rewrite (split_absent _ _ Habs) in Hsp. injection Hsp as <-.
        exists (String c e). simpl. auto.
      * exists e. rewrite pop_cons_cons. rewrite pop_cons_cons in Hpop.
        repeat split; auto. right.
        destruct Hs as [->|[base ->]].
        -- rewrite (split_absent _ _ Habs) in Hsp. discriminate.
        -- now exists (String c base).
Qed.

(** X17. [getExtension] always finds an extension: it has no dot, and it
    is the whole path when the path has no dot, and what follows the last
    dot otherwise. *)
Theorem getExtension_last_piece (file : FileMetadata) :
  exists ext, getExtension file = Some ext /\ absent "." ext /\
              (path file = ext \/
               exists base, path file = (base ++ String "." ext)%string).
Proof. unfold getExtension. apply pop_split. Qed.

Section Classify.
Context {matcher : Minimatch}.

(** X18. Text files are never replaced wholesale: for a path made of a
    base, a dot and an allow-listed extension, and for a path that is
    just an allow-listed word with no dot in it, [getResolutionStrategy]
    returns no other strategy than [resolve], whatever the rules and the
    fallback say. *)
Theorem text_paths_always_resolve settings hostFile remoteFile ext s :
  In ext textAllowList ->
  (path hostFile = ext \/
   exists base, path hostFile = (base ++ String "." ext)%string) ->
  getResolutionStrategy settings hostFile remoteFile = Ok s ->
  s = Settings.resolve.
Proof.
  intros Hext Hp.
  assert (getExtension hostFile = Some ext) as Hget.
  { destruct Hp as [Hp|[base Hp]].
    - rewrite getExtension_no_dot; rewrite Hp; [reflexivity|].
      now apply allowList_no_dot.
    - apply (getExtension_suffix _ base ext Hp), allowList_no_dot, Hext. }
  assert (isTextBasedFile hostFile = true) as Htext.
  { apply isTextBasedFile_allowList.
    rewrite getExtension_afterLast in Hget. now injection Hget as ->. }
  unfold getResolutionStrategy. rewrite Htext.
  destruct (findThrowing _ _); [now intros [= <-] | discriminate].
Qed.

Lemma find_app_skip {A} (f : A -> Result bool) l1 l2 :
  (forall x, In x l1 -> f x = Ok false) ->
  findThrowing f (l1 ++ l2) = findThrowing f l2.
Proof.
  induction l1 as [|x l1 IH]; simpl; intros Hl; [reflexivity|].
  rewrite (Hl x (or_introl eq_refl)). apply IH. auto.
Qed.

Lemma find_app_hit {A} (f : A -> Result bool) l1 l2 :
  (forall x, In x l1 -> exists b, f x = Ok b) ->
  (exists x, In x l1 /\ f x = Ok true) ->
  exists y, findThrowing f (l1 ++ l2) = Ok (Some y) /\ In y l1.
Proof.
  induction l1 as [|x l1 IH]; simpl; intros Hall (y & Hin & Hy); [destruct Hin|].
  destruct (Hall x (or_introl eq_refl)) as [[|] Hx]; rewrite Hx;
    [exists x; auto|].
  destruct Hin as [->|Hin]; [congruence|].
  destruct IH as (z & Hz & Hzin); [auto | now exists y|]. exists z. auto.
Qed.

(** X19. Rules apply in their declared order, each to all of its
    comma-separated patterns: for a file that is not text-based, when no
    pattern of the rules before a rule matches the path, and some
    pattern of that rule does while [minimatch] throws on none of them,
    the strategy is that rule's. *)
Theorem earlier_rule_wins settings hostFile remoteFile before rule after :
  ~ In (extensionOf hostFile) textAllowList ->
  resolution_strategies settings = before ++ rule :: after ->
  (forall earlier, In earlier (flattenRules before) ->
     minimatch (path hostFile) (glob earlier) false = Ok false) ->
  (forall g, In g (split "," (glob rule)) ->
     exists b, minimatch (path hostFile) (trim g) false = Ok b) ->
  (exists g, In g (split "," (glob rule)) /\
             minimatch (path hostFile) (trim g) false = Ok true) ->
  getResolutionStrategy settings hostFile remoteFile = Ok (strategy rule).
Proof.
  intros Hext Hrules Hbefore Hall (g & Hg & Hm).
  apply isTextBasedFile_other in Hext.
  unfold getResolutionStrategy. rewrite Hext, Hrules, flattenRules_app.
  rewrite find_app_skip by exact Hbefore.
  rewrite flattenRules_cons.
  destruct (find_app_hit
              (fun s => minimatch (path hostFile) (glob s) false)
              (map (fun g => {| glob := trim g; strategy := strategy rule |})
                   (split "," (glob rule)))
              (flattenRules after)) as (y & -> & Hy).
  - intros x (g' & <- & Hg')%in_map_iff. now apply Hall.
  - exists {| glob := trim g; strategy := strategy rule |}. split; [|exact Hm].
    apply in_map_iff. now exists g.
  - apply in_map_iff in Hy as (g' & <- & _). reflexivity.
Qed.

End Classify.

Lemma text_paths_always_resolve_witness :
  getResolutionStrategy (matcher := Doubles.literalMatch)
    (mkSettings None "" [mkRule ".env" always_push] ignore false)
    (mkFile ".env" 1 1 1 1 false) (mkFile ".env" 1 1 1 1 false)
  = Ok Settings.resolve.
Proof.
  destruct (getResolutionStrategy (matcher := Doubles.literalMatch)
              (mkSettings None "" [mkRule ".env" always_push] ignore false)
              (mkFile ".env" 1 1 1 1 false) (mkFile ".env" 1 1 1 1 false))
    as [s|e] eqn:Hs; [|vm_compute in Hs; discriminate Hs].
  f_equal.
  apply (text_paths_always_resolve (matcher := Doubles.literalMatch)
           _ _ _ "env" s) in Hs; [exact Hs | |].
  - unfold textAllowList. simpl. tauto.
  - right. now exists ""%string.
Defined.

Lemma earlier_rule_wins_witness :
  getResolutionStrategy (matcher := Doubles.literalMatch)
    (mkSettings None "" [mkRule "*.png" latest; mkRule "b.bin , a.bin" oldest;
                         mkRule "a.bin" always_pull] ignore false)
    (mkFile "a.bin" 1 1 1 1 false) (mkFile "a.bin" 1 1 1 1 false) = Ok oldest.
Proof.
  apply (earlier_rule_wins (matcher := Doubles.literalMatch) _ _ _
           [mkRule "*.png" latest] (mkRule "b.bin , a.bin" oldest)
           [mkRule "a.bin" always_pull]).
  - unfold textAllowList. simpl. intros Hin.
    repeat (destruct Hin as [Hin|Hin]; [discriminate Hin|]). exact Hin.
  - reflexivity.
  - intros earlier [<-|[]]. reflexivity.
  - intros g [<-|[<-|[]]]; eexists; vm_compute; reflexivity.
  - exists " a.bin"%string. split; [right; now left | reflexivity].
Defined.

Section Merge.
Context {merger : Reconcile}.

(** X20. The merge does not depend on which side is called the host:
    when the two timestamps differ, swapping the two records with their
    texts gives the same merged text. On a tie the two directions differ:
    each takes the text passed as remote for the older one. *)
Theorem resolve_swap hostFile remoteFile hostFileContent remoteFileContent :
  (updatedAt hostFile <> updatedAt remoteFile ->
   ConflictResolver.resolve hostFile remoteFile hostFileContent remoteFileContent =
   ConflictResolver.resolve remoteFile hostFile remoteFileContent hostFileContent) /\
  (updatedAt hostFile = updatedAt remoteFile ->
   ConflictResolver.resolve hostFile remoteFile hostFileContent remoteFileContent =
     reconcile remoteFileContent remoteFileContent hostFileContent /\
   ConflictResolver.resolve remoteFile hostFile remoteFileContent hostFileContent =
     reconcile hostFileContent hostFileContent remoteFileContent).
Proof.
  unfold ConflictResolver.resolve. split; intros Hne.
  - destruct (Z.ltb_spec (updatedAt hostFile) (updatedAt remoteFile)),
      (Z.ltb_spec (updatedAt remoteFile) (updatedAt hostFile));
      try reflexivity; lia.
  - rewrite Hne, Z.ltb_irrefl. auto.
Qed.

End Merge.

Lemma resolve_swap_witness :
  ConflictResolver.resolve (merger := Doubles.appendMerge)
    (mkFile "n.md" 1 1 200 200 false) (mkFile "n.md" 1 1 250 250 false) "h" "r" =
  ConflictResolver.resolve (merger := Doubles.appendMerge)
    (mkFile "n.md" 1 1 250 250 false) (mkFile "n.md" 1 1 200 200 false) "r" "h".
Proof.
  apply (proj1 (resolve_swap (merger := Doubles.appendMerge)
                  (mkFile "n.md" 1 1 200 200 false) (mkFile "n.md" 1 1 250 250 false)
                  "h" "r")).
  simpl. lia.
Defined.

End ResolverMore.

(** * More on the local file system *)

Module LocalMore.
Import JsString LocalFileSystem LocalFiles LocalTheorems MoreSpec.

Lemma onlyAddsFolders_refl v : onlyAddsFolders v v.
Proof. intros q. destruct (v !! q); auto. Qed.

Lemma onlyAddsFolders_trans v1 v2 v3 :
  onlyAddsFolders v1 v2 -> onlyAddsFolders v2 v3 -> onlyAddsFolders v1 v3.
Proof.
  intros H12 H23 q. specialize (H12 q). specialize (H23 q).
  destruct (v1 !! q) as [x|].
  - now rewrite H12 in H23.
  - destruct H12 as [H12|H12]; rewrite H12 in H23; auto.
Qed.

Lemma mkdirpStep_adds acc part :
  onlyAddsFolders (vault (snd acc)) (vault (snd (mkdirpStep acc part))).
Proof.
  destruct acc as [cur st]. unfold mkdirpStep.
  destruct (getAbstractFileByPath st _) eqn:Hq; simpl; [apply onlyAddsFolders_refl|].
  unfold getAbstractFileByPath in Hq. intros q.
  match goal with |- context [<[?k := _]> _] => destruct (decide (k = q)) as [<-|Hne] end.
  - rewrite Hq, lookup_insert_eq. auto.
  - rewrite lookup_insert_ne by exact Hne. destruct (vault st !! q); auto.
Qed.

Lemma fold_mkdirp_adds parts : forall acc,
  onlyAddsFolders (vault (snd acc)) (vault (snd (fold_left mkdirpStep parts acc))).
Proof.
  induction parts as [|part parts IH]; intros acc; simpl.
  - apply onlyAddsFolders_refl.
  - eapply onlyAddsFolders_trans; [apply mkdirpStep_adds | apply IH].
Qed.

Lemma mkdirpInVault_adds d st :
  onlyAddsFolders (vault st) (vault (mkdirpInVault d st)).
Proof. unfold mkdirpInVault. apply (fold_mkdirp_adds _ (""%string, st)). Qed.

Lemma present_kept v v' q : onlyAddsFolders v v' -> v !! q <> None -> v' !! q <> None.
Proof.
  intros Hadd Hq. specialize (Hadd q). destruct (v !! q); [|congruence].
  now rewrite Hadd.
Qed.

Lemma truthy_join parts :
  parts <> [] -> Forall (fun part => (0 <? String.length part)%nat = true) parts ->
  truthy (join "/" parts) = true.
Proof.
  intros Hne Hall. destruct parts as [|x l]; [congruence|].
  apply Forall_cons in Hall as [Hx _].
  destruct x; [discriminate Hx|]. simpl. now destruct l.
Qed.

Lemma append_assoc (a b c : string) : ((a ++ b) ++ c = a ++ (b ++ c))%string.
Proof.
  induction a as [|x a IH]; [reflexivity|].
  change (String x ((a ++ b) ++ c) = String x (a ++ (b ++ c)))%string.
  now f_equal.
Qed.

Lemma join_snoc sep parts x :
  parts <> [] -> join sep (parts ++ [x]) = (join sep parts ++ String sep x)%string.
Proof.
  induction parts as [|y l IH]; intros Hne; [congruence|].
  destruct l as [|z l]; [reflexivity|].
  change (join sep ((y :: z :: l) ++ [x]))
    with (y ++ String sep (join sep ((z :: l) ++ [x])))%string.
  rewrite IH by discriminate.
  change (join sep (y :: z :: l)) with (y ++ String sep (join sep (z :: l)))%string.
  now rewrite append_assoc.
Qed.

Lemma mkdirpStep_cur done st part :
  Forall (fun part => (0 <? String.length part)%nat = true) done ->
  fst (mkdirpStep (join "/" done, st) part) = join "/" (done ++ [part]) /\
  vault (snd (mkdirpStep (join "/" done, st) part)) !! join "/" (done ++ [part])
    <> None.
Proof.
  intros Hall. unfold mkdirpStep.
  assert ((if truthy (join "/" done)
           then (join "/" done ++ "/" ++ part)%string else part)
          = join "/" (done ++ [part])) as ->.
  { destruct done as [|x l]; [reflexivity|].
    rewrite truthy_join by (auto; discriminate).
    now rewrite join_snoc by discriminate. }
  destruct (getAbstractFileByPath st _) eqn:Hq; simpl.
  - unfold getAbstractFileByPath in Hq. split; [reflexivity | congruence].
  - split; [reflexivity|]. now rewrite lookup_insert_eq.
Qed.

(** Going down [parts] below the folders [done]: every folder on the way
    is there at the end. *)
Lemma fold_mkdirp_creates parts : forall done st,
  Forall (fun part => (0 <? String.length part)%nat = true) done ->
  Forall (fun part => (0 <? String.length part)%nat = true) parts ->
  forall k, (length done < k <= length done + length parts)%nat ->
    vault (snd (fold_left mkdirpStep parts (join "/" done, st)))
      !! ancestor (done ++ parts) k <> None.
Proof.
  induction parts as [|part parts IH]; intros done st Hdone Hparts k Hk;
    [simpl in Hk; lia|].
  apply Forall_cons in Hparts as [Hpart Hparts]. cbn [fold_left].
  destruct (mkdirpStep_cur done st part Hdone) as [Hcur Hthere].
  destruct (mkdirpStep (join "/" done, st) part) as [cur st1] eqn:Hstep.
  simpl in Hcur, Hthere. subst cur.
  replace (done ++ part :: parts) with ((done ++ [part]) ++ parts)
    by (now rewrite <- app_assoc).
  destruct (decide (k = S (length done))) as [->|Hne].
  - eapply present_kept; [apply (fold_mkdirp_adds parts (_, st1))|]. simpl.
    unfold ancestor.
    replace (S (length done)) with (length (done ++ [part]) + 0)%nat
      by (rewrite length_app; simpl; lia).
    rewrite firstn_app_2. simpl. rewrite app_nil_r. exact Hthere.
  - apply IH.
    + apply Forall_app. split; [exact Hdone | now constructor].
    + exact Hparts.
    + rewrite length_app. simpl in *. lia.
Qed.

Lemma folderParts_nonempty d :
  Forall (fun part => (0 <? String.length part)%nat = true) (folderParts d).
Proof.
  unfold folderParts. apply Forall_forall. intros x Hx.
  apply list_elem_of_In, filter_In in Hx. tauto.
Qed.

Lemma mkdirpInVault_creates d st k :
  (0 < k <= length (folderParts d))%nat ->
  vault (mkdirpInVault d st) !! ancestor (folderParts d) k <> None.
Proof.
  intros Hk. unfold mkdirpInVault. fold (folderParts d).
  apply (fold_mkdirp_creates (folderParts d) [] st);
    [constructor | apply folderParts_nonempty | simpl; lia].
Qed.

(** A walk down folders that are all there changes nothing. *)
Lemma fold_mkdirp_noop parts : forall done st,
  Forall (fun part => (0 <? String.length part)%nat = true) done ->
  Forall (fun part => (0 <? String.length part)%nat = true) parts ->
  (forall k, (length done < k <= length done + length parts)%nat ->
     vault st !! ancestor (done ++ parts) k <> None) ->
  snd (fold_left mkdirpStep parts (join "/" done, st)) = st.
Proof.
  induction parts as [|part parts IH]; intros done st Hdone Hparts Hall;
    [reflexivity|].
  apply Forall_cons in Hparts as [Hpart Hparts]. cbn [fold_left].
  assert (mkdirpStep (join "/" done, st) part = (join "/" (done ++ [part]), st))
    as ->.
  { pose proof (mkdirpStep_cur done st part Hdone) as [Hcur _].
    unfold mkdirpStep in *.
    destruct (getAbstractFileByPath st _) eqn:Hq; simpl in *; [now rewrite Hcur|].
    exfalso. apply (Hall (S (length done))); [simpl; lia|].
    unfold ancestor.
    replace (S (length done)) with (length (done ++ [part]) + 0)%nat
      by (rewrite length_app; simpl; lia).
    replace (done ++ part :: parts) with ((done ++ [part]) ++ parts)
      by (now rewrite <- app_assoc).
    rewrite firstn_app_2. simpl. rewrite app_nil_r.
    unfold getAbstractFileByPath in Hq. now rewrite <- Hcur. }
  apply IH.
  - apply Forall_app. split; [exact Hdone | now constructor].
  - exact Hparts.
  - intros k Hk. rewrite <- app_assoc. simpl. apply Hall.
    rewrite length_app in Hk. simpl in *. lia.
Qed.

Lemma withVault_same st : withVault st (vault st) = st.
Proof. now destruct st. Qed.

(** X21. [mkdirpInVault] leaves every folder on the way down the path in
    the vault. It changes no entry that was there, adds nothing but
    folders, and doing it twice is doing it once. *)
Theorem mkdirpInVault_makes_the_folders d st :
  (forall k, (0 < k <= length (folderParts d))%nat ->
     getAbstractFileByPath (mkdirpInVault d st) (ancestor (folderParts d) k)
     <> None) /\
  onlyAddsFolders (vault st) (vault (mkdirpInVault d st)) /\
  mkdirpInVault d (mkdirpInVault d st) = mkdirpInVault d st.
Proof.
  split; [|split].
  - intros k Hk. now apply mkdirpInVault_creates.
  - apply mkdirpInVault_adds.
  - unfold mkdirpInVault at 1. fold (folderParts d).
    apply (fold_mkdirp_noop (folderParts d) [] (mkdirpInVault d st));
      [constructor | apply folderParts_nonempty|].
    intros k Hk. apply mkdirpInVault_creates. simpl in Hk. lia.
Qed.

Lemma mkdirpInVault_makes_the_folders_witness :
  getAbstractFileByPath (mkdirpInVault "notes//deep/" Samples.oneNoteVault)
    "notes/deep" <> None.
Proof.
  apply (proj1 (mkdirpInVault_makes_the_folders "notes//deep/"
                  Samples.oneNoteVault) 2%nat).
  vm_compute. split; [apply Nat.lt_0_succ | apply Nat.le_refl].
Defined.


(** *** [update] and [remove], step by step *)

(** The state in which [update] makes its staleness check. *)
Lemma update_run p content prev new st :
  exists st1,
    onlyAddsFolders (vault st) (vault st1) /\
    getFileStats st1 p = getFileStats st p /\
    (truthy (substring0 (lastIndexOf "/" p) p) = true ->
     st1 = mkdirpInVault (substring0 (lastIndexOf "/" p) p) st) /\
    (update p content prev new st = (Throw staleError, st1) \/
     update p content prev new st =
       (Ok tt, writeBinary p content new
                 (if snd (getFileStats st p) =? 0 then new
                  else snd (getFileStats st p)) st1)).
Proof.
  unfold update.
  set (d := substring0 (lastIndexOf "/" p) p).
  set (st1 := if truthy d && (0 <? String.length d)%nat
              then mkdirpInVault d st else st).
  assert (getFileStats st1 p = getFileStats st p) as Hstats.
  { unfold st1. destruct (truthy d && _); [apply mkdirpInVault_stats | reflexivity]. }
  exists st1. split; [|split; [exact Hstats|split]].
  - unfold st1. destruct (truthy d && _);
      [apply mkdirpInVault_adds | apply onlyAddsFolders_refl].
  - intros Ht. unfold st1. rewrite Ht. destruct d; [discriminate Ht | reflexivity].
  - rewrite <- Hstats. destruct (getFileStats st1 p) as [mtime ctime]. simpl.
    destruct (negb (mtime =? 0) && negb (mtime =? prev)); [now left | now right].
Qed.

(** [remove] either throws and leaves the state alone, or deletes the
    entry of the path. *)
Lemma remove_run p prev st :
  remove p prev st = (Throw staleError, st) \/
  (fst (remove p prev st) = Ok tt /\
   vault (snd (remove p prev st)) = delete p (vault st)).
Proof.
  unfold remove. destruct (getFileStats st p) as [mtime ctime].
  destruct (negb (mtime =? 0) && negb (mtime =? prev)); [now left | right].
  destruct (deleteToWhere st); [now split|].
  unfold trashSystem. destruct (systemTrash st); simpl; [now split|].
  split; [reflexivity|]. reflexivity.
Qed.

(** X22. What [update] has written can be read back: after an [update]
    that returns, [getFileContent] of the path returns the content
    written. After a [remove] that returns, [getFileContent] throws. *)
Theorem write_then_read p content prev new st :
  (fst (update p content prev new st) = Ok tt ->
   getFileContent p (snd (update p content prev new st)) = Ok content) /\
  (fst (remove p prev st) = Ok tt ->
   exists e, getFileContent p (snd (remove p prev st)) = Throw e).
Proof.
  split.
  - destruct (update_run p content prev new st) as (st1 & _ & _ & _ & [Hu|Hu]);
      rewrite Hu; simpl; [discriminate|]. intros _.
    unfold getFileContent, readFile, readBinary. simpl.
    now rewrite lookup_insert_eq.
  - destruct (remove_run p prev st) as [Hr|[_ Hr]].
    + rewrite Hr. discriminate.
    + intros _. unfold getFileContent, readFile, readBinary.
      rewrite Hr, lookup_delete_eq. eauto.
Qed.

Lemma write_then_read_witness :
  fst (update "a/b.md" [Byte.x78] 0 5 Samples.oneNoteVault) = Ok tt /\
  getFileContent "a/b.md" (snd (update "a/b.md" [Byte.x78] 0 5 Samples.oneNoteVault))
    = Ok [Byte.x78].
Proof.
  assert (fst (update "a/b.md" [Byte.x78] 0 5 Samples.oneNoteVault) = Ok tt) as H
    by (vm_compute; reflexivity).
  split; [exact H|].
  exact (proj1 (write_then_read "a/b.md" [Byte.x78] 0 5 Samples.oneNoteVault) H).
Defined.

(** X23. [update] and [remove] touch one path. Every other entry of the
    vault is kept by [update], which can only add folders beside it, and
    [remove] changes no other path at all. When the staleness check fails,
    [update] has changed no entry (it may have made folders) and [remove]
    leaves the state as it was. *)
Theorem update_remove_touch_one_path p content prev new st :
  (forall q, q <> p ->
     match vault st !! q with
     | Some x => vault (snd (update p content prev new st)) !! q = Some x
     | None => vault (snd (update p content prev new st)) !! q = None \/
               vault (snd (update p content prev new st)) !! q = Some TFolder
     end) /\
  (fst (update p content prev new st) <> Ok tt ->
   onlyAddsFolders (vault st) (vault (snd (update p content prev new st)))) /\
  (forall q, q <> p ->
     vault (snd (remove p prev st)) !! q = vault st !! q) /\
  (fst (remove p prev st) <> Ok tt -> snd (remove p prev st) = st).
Proof.
  split; [|split; [|split]].
  - intros q Hq.
    destruct (update_run p content prev new st) as (st1 & Hadd & _ & _ & [Hu|Hu]);
      rewrite Hu; simpl.
    + apply Hadd.
    + rewrite lookup_insert_ne by congruence. apply Hadd.
  - destruct (update_run p content prev new st) as (st1 & Hadd & _ & _ & [Hu|Hu]);
      rewrite Hu; simpl; [intros _; exact Hadd | congruence].
  - intros q Hq. destruct (remove_run p prev st) as [Hr|[_ Hr]]; rewrite Hr.
    + reflexivity.
    + now rewrite lookup_delete_ne by congruence.
  - destruct (remove_run p prev st) as [Hr|[Hr _]]; [now rewrite Hr | congruence].
Qed.

Lemma update_remove_touch_one_path_witness :
  vault (snd (update "b.md" [] 0 5 Samples.oneNoteVault)) !! "notes/a.md"
    = vault Samples.oneNoteVault !! "notes/a.md" /\
  snd (remove "notes/a.md" 1 Samples.oneNoteVault) = Samples.oneNoteVault.
Proof.
  destruct (update_remove_touch_one_path "b.md" [] 0 5 Samples.oneNoteVault)
    as (Hup & _).
  destruct (update_remove_touch_one_path "notes/a.md" [] 1 5 Samples.oneNoteVault)
    as (_ & _ & _ & Hrm).
  split.
  - specialize (Hup "notes/a.md" ltac:(discriminate)).
    destruct (vault Samples.oneNoteVault !! "notes/a.md") eqn:E.
    + exact Hup.
    + vm_compute in E. discriminate E.
  - apply Hrm. vm_compute. discriminate.
Defined.


(** *** The parent folder of a path *)

Lemma lastIndexOf_absent c s : absent c s -> lastIndexOf c s = -1.
Proof.
  induction s as [|x s IH]; simpl; [reflexivity|]. intros [Hx Hs].
  rewrite (IH Hs). simpl. apply Ascii.eqb_neq in Hx. now rewrite Hx.
Qed.

Lemma lastIndexOf_bound c s : -1 <= lastIndexOf c s.
Proof.
  induction s as [|x s IH]; simpl; [lia|].
  destruct (0 <=? lastIndexOf c s) eqn:E; [lia|]. destruct (Ascii.eqb x c); lia.
Qed.

Lemma lastIndexOf_app c d name :
  absent c name ->
  lastIndexOf c (d ++ String c name) = Z.of_nat (String.length d).
Proof.
  intros Hname. induction d as [|x d IH].
  - simpl. rewrite (lastIndexOf_absent _ _ Hname). simpl. now rewrite Ascii.eqb_refl.
  - change (String x d ++ String c name)%string with (String x (d ++ String c name)).
    cbn [lastIndexOf String.length]. rewrite IH.
    destruct (0 <=? Z.of_nat (String.length d)) eqn:E; [lia|].
    apply Z.leb_gt in E. lia.
Qed.

Lemma substring_prefix d rest :
  String.substring 0 (String.length d) (d ++ rest) = d.
Proof.
  induction d as [|x d IH]; simpl.
  - now destruct rest.
  - now rewrite IH.
Qed.

Lemma parentDir_app d name :
  absent "/" name ->
  substring0 (lastIndexOf "/" (d ++ String "/" name)) (d ++ String "/" name) = d.
Proof.
  intros Hname. unfold substring0. rewrite (lastIndexOf_app _ _ _ Hname).
  rewrite Nat2Z.id. apply substring_prefix.
Qed.

Lemma parentDir_absent p :
  absent "/" p -> substring0 (lastIndexOf "/" p) p = ""%string.
Proof.
  intros Hp. unfold substring0. rewrite (lastIndexOf_absent _ _ Hp).
  simpl. now destruct p.
Qed.

Lemma folderParts_empty : folderParts "" = [].
Proof. reflexivity. Qed.

(** X24. [update] makes the folders above the file, whether or not the
    write goes through: for a path [d/name] every folder on the way down
    [d] is in the vault afterwards. At a path without a slash it makes
    none: every other path is as it was. *)
Theorem update_makes_parent_folders d name content prev new st :
  absent "/" name ->
  (forall k, (0 < k <= length (folderParts d))%nat ->
     getAbstractFileByPath
       (snd (update (d ++ String "/" name) content prev new st))
       (ancestor (folderParts d) k) <> None) /\
  (forall q, q <> name ->
     vault (snd (update name content prev new st)) !! q = vault st !! q).
Proof.
  intros Hname. split.
  - intros k Hk.
    destruct (update_run (d ++ String "/" name) content prev new st)
      as (st1 & _ & _ & Hdir & Hu).
    rewrite (parentDir_app _ _ Hname) in Hdir.
    destruct d as [|x d]; [rewrite folderParts_empty in Hk; simpl in Hk; lia|].
    specialize (Hdir eq_refl).
    pose proof (mkdirpInVault_creates (String x d) st k Hk) as Hthere.
    rewrite <- Hdir in Hthere. unfold getAbstractFileByPath.
    destruct Hu as [Hu|Hu]; rewrite Hu; simpl; [exact Hthere|].
    match goal with |- context [<[?key := _]> _] =>
      destruct (decide (key = ancestor (folderParts (String x d)) k)) as [<-|Hne] end.
    + now rewrite lookup_insert_eq.
    + now rewrite lookup_insert_ne.
  - intros q Hq. unfold update. rewrite (parentDir_absent _ Hname). simpl.
    destruct (getFileStats st name) as [mtime ctime].
    destruct (negb (mtime =? 0) && negb (mtime =? prev)); simpl; [reflexivity|].
    now rewrite lookup_insert_ne by congruence.
Qed.

Lemma update_makes_parent_folders_witness :
  getAbstractFileByPath
    (snd (update "notes/new/b.md" [] 7 5 Samples.oneNoteVault)) "notes/new"
    <> None.
Proof.
  assert (absent "/" "b.md") as Hname by (simpl; repeat split; discriminate).
  apply (proj1 (update_makes_parent_folders "notes/new" "b.md" [] 7 5
                  Samples.oneNoteVault Hname) 2%nat).
  vm_compute. split; [apply Nat.lt_0_succ | apply Nat.le_refl].
Defined.

End LocalMore.

(** ** fs.local.ts: what [getFiles] lists *)

Module LocalListing.
Import JsString LocalFileSystem LocalFiles ListingSpec MoreSpec.

Section WithMatcher.
Context {matcher : Minimatch}.

Lemma walkEntry_In globs entryPath file f :
  In f (walkEntry globs (entryPath, file)) ->
  exists stat data,
    file = TFile stat data /\ entryPath <> "/"%string /\ entryPath <> ""%string /\
    f = {| path := if startsWithSlash entryPath then slice1 entryPath
                   else entryPath;
           size := fsize stat; createdAt := ctime stat;
           updatedAt := mtime stat; deletedAt := mtime stat;
           deleted := false |} /\
    isFileExcluded (path f) (patternsOf globs) = false.
Proof.
  unfold walkEntry.
  destruct (String.eqb entryPath "/") eqn:E1; [intros []|].
  destruct (String.eqb entryPath "") eqn:E2; [intros []|]. simpl.
  destruct file as [stat data|]; [|intros []].
  destruct (isFileExcluded _ _) eqn:Hex; [intros []|].
  intros [<-|[]]. exists stat, data.
  apply String.eqb_neq in E1, E2. repeat split; assumption.
Qed.


Lemma walk_In env f :
  In f (walk env) <->
  exists entryPath file,
    vault (local env) !! entryPath = Some file /\
    In f (walkEntry (exclude_globs (localSettings env)) (entryPath, file)).
Proof.
  unfold walk. rewrite in_flat_map. split.
  - intros ([entryPath file] & Hin & Hf). exists entryPath, file.
    split; [|exact Hf]. now apply elem_of_map_to_list, list_elem_of_In.
  - intros (entryPath & file & Hin & Hf). exists (entryPath, file).
    split; [|exact Hf]. now apply list_elem_of_In, elem_of_map_to_list.
Qed.

Lemma walk_live env f :
  In f (walk env) -> liveRecord (exclude_globs (localSettings env)) f.
Proof.
  intros (entryPath & file & _ & Hf)%walk_In.
  apply walkEntry_In in Hf as (stat & data & _ & _ & _ & Hrec & Hex).
  split; [|split]; [| exact Hex |]; now rewrite Hrec.
Qed.

Lemma internalEntry_live globs entry f :
  In f (internalEntry globs entry) -> liveRecord globs f.
Proof.
  destruct entry as [file stat]. unfold internalEntry.
  destruct (isFileExcluded _ _) eqn:Hex; [intros []|].
  intros [<-|[]]. now split; [|split].
Qed.

Fixpoint walkInternalFiles_live globs (listing : Listing) f {struct listing} :
  In f (walkInternalFiles globs listing) -> liveRecord globs f.
Proof.
  destruct listing as [files folders]. cbn [walkInternalFiles].
  intros [Hin|Hin]%in_app_or.
  - apply in_flat_map in Hin as (entry & _ & Hin).
    exact (internalEntry_live _ _ _ Hin).
  - induction folders as [|childFolder rest IH]; [destruct Hin|].
    apply in_app_or in Hin as [Hin|Hin].
    + exact (walkInternalFiles_live globs childFolder f Hin).
    + exact (IH Hin).
Qed.

Lemma getFiles_parts env f :
  In f (getFiles env) <->
  In f (walk env) \/ In f (tombstonesOf env) \/
  (sync_internal_files (localSettings env) = true /\
   In f (walkInternalFiles (exclude_globs (localSettings env)) (internal env))).
Proof.
  unfold getFiles. fold (tombstonesOf env).
  destruct (sync_internal_files (localSettings env)); simpl;
    rewrite ?in_app_iff; intuition congruence.
Qed.

Lemma tombstonesOf_In env f :
  In f (tombstonesOf env) <->
  exists d, In d (history env) /\ f = tombstoneOf d /\
            forall g, In g (walk env) -> path g <> d_path d.
Proof.
  unfold tombstonesOf. rewrite in_map_iff. split.
  - intros (d & <- & Hd). apply filter_In in Hd as [Hd Hno].
    exists d. split; [exact Hd|]. split; [reflexivity|].
    intros g Hg Heq. apply negb_true_iff in Hno.
    assert (existsb (fun arrFile => String.eqb (path arrFile) (d_path d))
                    (walk env) = true) as Hyes; [|congruence].
    apply existsb_exists. exists g. split; [exact Hg|]. now apply String.eqb_eq.
  - intros (d & Hd & -> & Hno). exists d. split; [reflexivity|].
    apply filter_In. split; [exact Hd|]. apply negb_true_iff.
    destruct (existsb _ _) eqn:E; [|reflexivity].
    apply existsb_exists in E as (g & Hg & Heq). apply String.eqb_eq in Heq.
    now destruct (Hno g Hg).
Qed.



(** X26. Every record [getFiles] lists as not deleted has a path that no
    exclusion pattern matches, and comes from the vault walk or, with
    [sync_internal_files] on, from the hidden folder. With it off, no
    path is listed both live and as a tombstone. *)
Theorem getFiles_live_records env f :
  In f (getFiles env) -> deleted f = false ->
  isFileExcluded (path f) (patternsOf (exclude_globs (localSettings env))) = false /\
  (In f (walk env) \/
   (sync_internal_files (localSettings env) = true /\
    In f (walkInternalFiles (exclude_globs (localSettings env)) (internal env)))) /\
  (sync_internal_files (localSettings env) = false ->
   forall g, In g (getFiles env) -> deleted g = true -> path g <> path f).
Proof.
  intros Hin Hlive.
  assert (In f (walk env) \/
          (sync_internal_files (localSettings env) = true /\
           In f (walkInternalFiles (exclude_globs (localSettings env))
                                   (internal env)))) as Hfrom.
  { apply getFiles_parts in Hin as [Hin|[Hin|Hin]]; [now left | | now right].
    apply tombstonesOf_In in Hin as (d & _ & -> & _). discriminate Hlive. }
  split; [|split; [exact Hfrom|]].
  - destruct Hfrom as [Hw|[_ Hi]].
    + now apply walk_live in Hw as (_ & Hex & _).
    + now apply walkInternalFiles_live in Hi as (_ & Hex & _).
  - intros Hoff g Hg Hdel Heq.
    destruct Hfrom as [Hw|[Hon _]]; [|congruence].
    apply getFiles_parts in Hg as [Hg|[Hg|[Hon _]]]; [| |congruence].
    + apply walk_live in Hg as [Hl _]. congruence.
    + apply tombstonesOf_In in Hg as (d & _ & -> & Hno).
      exact (Hno f Hw (eq_sym Heq)).
Qed.


End WithMatcher.

End LocalListing.

(** * The further theorems at sample inputs *)

Module MoreWitnesses.
Import SyncController Trace MemStore Samples MoreSamples MoreSpec.
Import LocalFileSystem LocalFiles ListingSpec.
Import ApplierMore LocalListing.


Lemma conflict_dispatch_witness :
  let h := fileOf "x.bin" (liveEntry 40 45 [Byte.x61]) in
  let r := fileOf "x.bin" (liveEntry 40 50 [Byte.x62]) in
  let w := memWorld {[ "x.bin" := liveEntry 40 45 [Byte.x61] ]}
                    {[ "x.bin" := liveEntry 40 50 [Byte.x62] ]} (noRules latest) in
  applyOnMem (createAction (Some h) (Some r) Conflict) 1000 w =
  applyOnMem (createAction (Some h) (Some r) Pull) 1000
    (snd (handleConflictOnMem h r w)).
Proof.
  intros h r w.
  exact (proj2 (conflict_dispatch (hostFs := memFileSystem)
                  (remoteFs := memFileSystem) (matcher := Doubles.literalMatch)
                  (merger := Doubles.appendMerge) (crypto := Doubles.plainCrypto)
                  (createAction (Some h) (Some r) Conflict) 1000 w eq_refl)
               h r eq_refl eq_refl).
Defined.

Lemma merge_writes_remote_first_witness :
  let h := fileOf "x.txt" (liveEntry 40 45 [Byte.x61]) in
  let r := fileOf "x.txt" (liveEntry 40 50 [Byte.x62]) in
  let w := memWorld {[ "x.txt" := liveEntry 40 45 [Byte.x61] ]}
                    {[ "x.txt" := liveEntry 40 50 [Byte.x62] ]} (noRules latest) in
  calls (snd (applyOnMem (createAction (Some h) (Some r) Conflict) 1000 w)) =
  [OnHost (CallGetFileContent "x.txt"); OnRemote (CallGetFileContent "x.txt");
   OnRemote (CallUpdate "x.txt" [Byte.x61; Byte.x62] 50 1000);
   OnHost (CallUpdate "x.txt" [Byte.x61; Byte.x62] 45 1000)].
Proof.
  intros h r w.
  exact (proj1 (merge_writes_remote_first (hostFs := memFileSystem)
                  (remoteFs := memFileSystem) (matcher := Doubles.literalMatch)
                  (merger := Doubles.appendMerge) (crypto := Doubles.plainCrypto)
                  (createAction (Some h) (Some r) Conflict) 1000 w
                  (snd (handleConflictOnMem h r w)) h r [Byte.x61; Byte.x62]
                  eq_refl eq_refl eq_refl eq_refl)).
Defined.


Lemma sample_getFiles :
  getFiles (matcher := Doubles.literalMatch) sampleEnv =
  [mkFile "notes/a.md" 1 90 100 100 false; mkFile "old.md" 0 60 60 60 true;
   mkFile ".obsidian/app.json" 2 10 20 20 false;
   mkFile ".obsidian/plugins/p.json" 0 0 0 0 false].
Proof. vm_compute. reflexivity. Qed.


Lemma getFiles_live_records_witness :
  let f := mkFile ".obsidian/app.json" 2 10 20 20 false in
  isFileExcluded (matcher := Doubles.literalMatch) (path f)
    (patternsOf (exclude_globs (localSettings sampleEnv))) = false.
Proof.
  intros f.
  assert (In f (getFiles (matcher := Doubles.literalMatch) sampleEnv)) as Hin
    by (rewrite sample_getFiles; right; right; left; reflexivity).
  exact (proj1 (getFiles_live_records (matcher := Doubles.literalMatch)
                  sampleEnv f Hin eq_refl)).
Defined.


End MoreWitnesses.
